(** * companyfinder_py: company-name extraction pipeline

    A shallow embedding of the extraction pipeline of the repository
    (company_name_extractor.py, domain_analyzer.py, improved_analyzer.py,
    run_extractor.py, policy_scraper_simple.py) together with the
    properties of the specification checked against it and further
    properties read off the code.

    Python [str] values are sequences of Unicode code points and are modelled
    as [list N].  The functions of the standard library the code calls
    ([re.finditer], [re.sub], [str.strip], [str.lower], ...) are modelled by
    executable definitions: a backtracking matcher with the leftmost, greedy,
    ordered-alternative discipline of Python's [re], driven by the patterns
    of the source written as syntax trees.  The network is an oracle that
    answers the n-th request of a run. *)

From Stdlib Require Import List NArith ZArith Bool Arith Lia String Ascii FinFun.
Import ListNotations.

Set Warnings "-register-all".
Open Scope string_scope.
Open Scope list_scope.
Open Scope nat_scope.

(* ================================================================== *)
(** ** Unicode text *)

Module Unicode.

(** A Python [str]: a sequence of code points. *)
Definition str := list N.

(** The code points of an ASCII literal. *)
Definition lit (s : string) : str := map N_of_ascii (list_ascii_of_string s).

Definition in_range (lo hi c : N) : bool := ((lo <=? c) && (c <=? hi))%N.

Definition str_eqb (a b : str) : bool :=
  if list_eq_dec N.eq_dec a b then true else false.

(** [Py_UNICODE_ISSPACE]: the set used by [str.strip()], [str.isspace()]
    and by [\s] in a [str] pattern. *)
Definition isspace (c : N) : bool :=
  (in_range 9 13 c || in_range 28 32 c || (c =? 133) || (c =? 160)
   || (c =? 5760) || in_range 8192 8202 c || (c =? 8232) || (c =? 8233)
   || (c =? 8239) || (c =? 8287) || (c =? 12288))%N.

Definition is_ascii_upper (c : N) : bool := in_range 65 90 c.
Definition is_ascii_lower (c : N) : bool := in_range 97 122 c.
Definition is_ascii_letter (c : N) : bool := is_ascii_upper c || is_ascii_lower c.
Definition is_ascii_digit (c : N) : bool := in_range 48 57 c.

(** The four code points outside ASCII whose case mappings land on an
    ASCII letter: U+0130 and U+0131 (dotted capital I, dotless i), U+017F
    (long s), U+212A (Kelvin sign).  With [re.IGNORECASE], [[a-z]] and
    [[A-Z]] match the 52 ASCII letters and these four. *)
Definition folds_to_ascii (c : N) : bool :=
  ((c =? 304) || (c =? 305) || (c =? 383) || (c =? 8490))%N.

(** The code points matched, under [re.IGNORECASE], by the literal ASCII
    character [c] of a pattern. *)
Definition ci_eq (c d : N) : bool :=
  if is_ascii_letter c then
    let lo := if is_ascii_upper c then (c + 32)%N else c in
    ((d =? lo) || (d =? lo - 32)
     || ((lo =? 105) && ((d =? 304) || (d =? 305)))
     || ((lo =? 115) && (d =? 383))
     || ((lo =? 107) && (d =? 8490)))%N
  else (d =? c)%N.

(** [str.isalpha], [str.isalnum] and [str.lower] are Unicode table
    look-ups.  The tables below are those of the code points [charted]
    accepts: the Basic Latin and Latin-1 Supplement blocks, the four code
    points of [folds_to_ascii] and the white space.  The code applies the
    tables to the names its patterns capture, whose characters are all of
    this kind, and to the texts evaluated below. *)
Definition charted (c : N) : bool :=
  ((c <? 256) || folds_to_ascii c || isspace c)%N.

Definition isalpha (c : N) : bool :=
  (is_ascii_letter c || (c =? 170) || (c =? 181) || (c =? 186)
   || in_range 192 214 c || in_range 216 246 c || in_range 248 255 c
   || folds_to_ascii c)%N.

(** [\w] of a [str] pattern: [str.isalnum()] or underscore. *)
Definition isword (c : N) : bool :=
  (isalpha c || is_ascii_digit c || (c =? 95)
   || (c =? 178) || (c =? 179) || (c =? 185) || in_range 188 190 c)%N.

(** [\d] of a [str] pattern (decimal digits; Basic Latin and Latin-1
    hold only the ASCII ones). *)
Definition isdecimal (c : N) : bool := is_ascii_digit c.

Definition lower_char (c : N) : str :=
  if (is_ascii_upper c || in_range 192 214 c || in_range 216 222 c)%N
  then [(c + 32)%N]
  else if (c =? 304)%N then [105; 775]%N
  else if (c =? 8490)%N then [107%N]
  else [c].

Definition lower (s : str) : str := flat_map lower_char s.

(** [any(c.isalpha() for c in s)] *)
Definition any_alpha (s : str) : bool := existsb isalpha s.

(** [s.startswith(p)] *)
Fixpoint startswith (p s : str) : bool :=
  match p, s with
  | [], _ => true
  | a :: p', b :: s' => (a =? b)%N && startswith p' s'
  | _ :: _, [] => false
  end.

(** [s.endswith(p)] *)
Definition endswith (p s : str) : bool := startswith (rev p) (rev s).

(** [sub in s] *)
Fixpoint contains (sub s : str) : bool :=
  startswith sub s || match s with [] => false | _ :: s' => contains sub s' end.

Fixpoint lstrip_by (p : N -> bool) (s : str) : str :=
  match s with
  | c :: s' => if p c then lstrip_by p s' else s
  | [] => []
  end.

Fixpoint rstrip_by (p : N -> bool) (s : str) : str :=
  match s with
  | [] => []
  | c :: s' =>
    match rstrip_by p s' with
    | [] => if p c then [] else [c]
    | r => c :: r
    end
  end.

(** [s.strip()] *)
Definition strip (s : str) : str := rstrip_by isspace (lstrip_by isspace s).

(** [s.rstrip(chars)] *)
Definition rstrip_chars (chars : str) (s : str) : str :=
  rstrip_by (fun c => existsb (N.eqb c) chars) s.

(** [s[i:j]] for [0 <= i <= j]. *)
Definition slice (i j : nat) (s : str) : str := firstn (j - i) (skipn i s).

(** [s.replace(old, new)]: every non-overlapping occurrence, left to
    right.  [old] is non-empty at its only call site ('www.'). *)
Fixpoint replace_from (fuel : nat) (old new s : str) : str :=
  match fuel, s with
  | S f, c :: s' =>
    if startswith old s
    then new ++ replace_from f old new (skipn (List.length old) s)
    else c :: replace_from f old new s'
  | _, _ => s
  end.

Definition replace (old new s : str) : str :=
  replace_from (List.length s) old new s.

(** [s.split(sep)[0]] for a one-character separator. *)
Fixpoint before (sep : N) (s : str) : str :=
  match s with
  | [] => []
  | c :: s' => if (c =? sep)%N then [] else c :: before sep s'
  end.

(** [s[:-n]] for [n > 0]. *)
Definition drop_last (n : nat) (s : str) : str := firstn (List.length s - n) s.

(** [sep.join(parts)] *)
Fixpoint join (sep : str) (parts : list str) : str :=
  match parts with
  | [] => []
  | [p] => p
  | p :: ps => p ++ sep ++ join sep ps
  end.

End Unicode.

(* ================================================================== *)
(** ** Parsed documents

    [BeautifulSoup(html, 'html.parser')] is a library outside the
    repository.  The code only uses the tree it returns: it removes
    elements by name and reads the text nodes.  The tree and these two
    operations are modelled here; the parser itself is a parameter of the
    functions that call it. *)

Module Soup.
Import Unicode.

Inductive node : Type :=
| NavigableString (s : str)
| Comment (s : str)
| Doctype (s : str)
| Tag (name : str) (children : list node).

Definition soup := list node.

Definition named (names : list str) (n : str) : bool :=
  existsb (str_eqb n) names.

(** [for element in soup(names): element.decompose()] *)
Fixpoint decompose (names : list str) (n : node) : list node :=
  match n with
  | Tag name children =>
    if named names name then []
    else [Tag name (flat_map (decompose names) children)]
  | other => [other]
  end.

Definition decompose_all (names : list str) (t : soup) : soup :=
  flat_map (decompose names) t.

(** The text nodes in document order, comments and declarations left
    out. *)
Fixpoint strings (n : node) : list str :=
  match n with
  | NavigableString s => [s]
  | Comment _ | Doctype _ => []
  | Tag _ children => flat_map strings children
  end.

(** [soup.get_text(separator=sep)] *)
Definition get_text (sep : str) (t : soup) : str :=
  join sep (flat_map strings t).

(** *** A reference parser

    A parser for a fragment of HTML, used where a property has to be
    evaluated on a concrete document.  The fragment: character data;
    the references [&amp;], [&lt;], [&gt;], [&quot;], [&apos;], [&nbsp;]
    and [&copy;]; comments; declarations; start tags (whose attribute
    values hold no [>]), end tags and void elements; [script] and
    [style] with raw text content.  On such documents it builds the tree
    [html.parser] builds: names in lower case, consecutive character
    data and references joined into one string, an end tag closing the
    nearest open element of its name, open elements closed at the end.
    Anything else that starts with [<] or [&] is kept as character
    data.  (The library shortens a string of ASCII white space only to
    one character; such strings are kept whole here.) *)

Inductive token : Type :=
| TData (s : str)
| TComment (s : str)
| TDecl (s : str)
| TStart (name : str) (selfclosing : bool)
| TEnd (name : str).

Fixpoint span (p : N -> bool) (s : str) : str * str :=
  match s with
  | c :: s' => if p c then let (a, b) := span p s' in (c :: a, b) else ([], s)
  | [] => ([], [])
  end.

(** The text before the first occurrence of [pat] and the text from it
    on, when there is one. *)
Fixpoint split_at (pat : str -> bool) (s : str) : option (str * str) :=
  if pat s then Some ([], s)
  else match s with
       | c :: s' =>
         match split_at pat s' with
         | Some (a, b) => Some (c :: a, b)
         | None => None
         end
       | [] => None
       end.

Definition entities : list (str * N) :=
  [(lit "amp;", 38%N); (lit "lt;", 60%N); (lit "gt;", 62%N);
   (lit "quot;", 34%N); (lit "apos;", 39%N); (lit "nbsp;", 160%N);
   (lit "copy;", 169%N)].

Fixpoint entity_at (es : list (str * N)) (s : str) : option (N * str) :=
  match es with
  | [] => None
  | (name, c) :: es' =>
    if startswith name s then Some (c, skipn (List.length name) s)
    else entity_at es' s
  end.

Definition name_char (c : N) : bool :=
  negb (existsb (N.eqb c) [9; 10; 13; 12; 32; 47; 62; 0]%N).

Definition ci_startswith (p s : str) : bool :=
  startswith (lower p) (lower (firstn (List.length p) s)).

Definition raw_text_element (name : str) : bool :=
  named [lit "script"; lit "style"] name.

(** A tag or a declaration, at a [<] followed by [rest]; [None] when
    the [<] is character data. *)
Definition markup_at (rest : str) : option (list token * str) :=
if startswith (lit "!--") rest then
  match split_at (startswith (lit "-->")) (skipn 3 rest) with
  | Some (body, after) => Some ([TComment body], skipn 3 after)
  | None => None
  end
else if startswith (lit "!") rest then
  match split_at (startswith (lit ">")) (skipn 1 rest) with
  | Some (body, after) => Some ([TDecl body], skipn 1 after)
  | None => None
  end
else
  let closing := startswith (lit "/") rest in
  let body := if closing then skipn 1 rest else rest in
  match body with
  | c :: _ =>
    if is_ascii_letter c then
      let (name, attrs) := span name_char body in
      let name := lower name in
      match split_at (startswith (lit ">")) attrs with
      | Some (inside, after) =>
        let after := skipn 1 after in
        if closing then Some ([TEnd name], after)
        else if raw_text_element name then
          match split_at (ci_startswith (lit "</" ++ name)) after with
          | Some (raw, after') => Some ([TStart name false; TData raw], after')
          | None => Some ([TStart name false; TData after], [])
          end
        else Some ([TStart name (endswith (lit "/") inside)], after)
      | None => None
      end
    else None
  | [] => None
  end.

Fixpoint tokenize (fuel : nat) (s : str) : list token :=
match fuel with
| O => []
| S f =>
  match s with
  | [] => []
  | c :: rest =>
    if (c =? 60)%N then
      match markup_at rest with
      | Some (ts, after) => ts ++ tokenize f after
      | None => TData [c] :: tokenize f rest
      end
    else if (c =? 38)%N then
      match entity_at entities rest with
      | Some (d, after) => TData [d] :: tokenize f after
      | None => TData [c] :: tokenize f rest
      end
    else
      let (data, after) := span (fun c => negb ((c =? 60) || (c =? 38))%N) s in
      TData data :: tokenize f after
  end
end.

Definition void_element (name : str) : bool :=
  named (map lit ["area"; "base"; "br"; "col"; "embed"; "hr"; "img";
                  "input"; "keygen"; "link"; "menuitem"; "meta"; "param";
                  "source"; "track"; "wbr"]%string) name.

(** The open elements, innermost first, each with the children it has
    so far, latest first. *)
Definition frame := (str * list node)%type.

(** Consecutive pieces of character data make one string. *)
Fixpoint merge_data (ts : list token) : list token :=
  match ts with
  | TData a :: ts' =>
    match merge_data ts' with
    | TData b :: r => TData (a ++ b) :: r
    | r => TData a :: r
    end
  | t :: ts' => t :: merge_data ts'
  | [] => []
  end.

(** Close the innermost open element. *)
Definition pop (open : list frame) (root : list node) : list frame * list node :=
  match open with
  | [] => ([], root)
  | (name, children) :: [] => ([], Tag name (rev children) :: root)
  | (name, children) :: (pname, pchildren) :: outer =>
    ((pname, Tag name (rev children) :: pchildren) :: outer, root)
  end.

(** Close open elements up to and including the nearest one called
    [name]. *)
Fixpoint pop_to (fuel : nat) (name : str) (open : list frame) (root : list node)
  : list frame * list node :=
  match fuel, open with
  | S f, (n, _) :: _ =>
    let (open', root') := pop open root in
    if str_eqb n name then (open', root') else pop_to f name open' root'
  | _, _ => (open, root)
  end.

Definition push_node (n : node) (open : list frame) (root : list node)
  : list frame * list node :=
  match open with
  | [] => ([], n :: root)
  | (name, children) :: outer => ((name, n :: children) :: outer, root)
  end.

Fixpoint close_all (fuel : nat) (open : list frame) (root : list node) : list node :=
  match fuel, open with
  | S f, _ :: _ => let (open', root') := pop open root in close_all f open' root'
  | _, _ => root
  end.

Fixpoint build (ts : list token) (open : list frame) (root : list node) : soup :=
  match ts with
  | [] => rev (close_all (List.length open) open root)
  | TData [] :: ts' => build ts' open root
  | TData s :: ts' =>
    let (open', root') := push_node (NavigableString s) open root in
    build ts' open' root'
  | TComment s :: ts' =>
    let (open', root') := push_node (Comment s) open root in
    build ts' open' root'
  | TDecl s :: ts' =>
    let (open', root') := push_node (Doctype s) open root in
    build ts' open' root'
  | TStart name selfclosing :: ts' =>
    if void_element name || selfclosing then
      let (open', root') := push_node (Tag name []) open root in
      build ts' open' root'
    else build ts' ((name, []) :: open) root
  | TEnd name :: ts' =>
    if existsb (fun fr => str_eqb (fst fr) name) open then
      let (open', root') := pop_to (List.length open) name open root in
      build ts' open' root'
    else build ts' open root
  end.

Definition html_parser (html : str) : soup :=
  build (merge_data (tokenize (S (List.length html)) html)) [] [].

End Soup.

(* ================================================================== *)
(** ** Regular expressions: the fragment of Python's [re] the code uses *)

Module Re.
Import Unicode.

(** Pattern syntax.  Flags are resolved when a pattern is written down:
    under [re.IGNORECASE] a literal is [Chr (ci_eq c)], under [re.DOTALL]
    the dot is [Chr (fun _ => true)]. *)
Inductive regex : Type :=
| Eps : regex
| Chr : (N -> bool) -> regex            (* one character of a class *)
| Seq : regex -> regex -> regex
| Alt : regex -> regex -> regex         (* ordered: left first *)
| Star : regex -> regex                 (* greedy [*] *)
| Lazy : regex -> regex                 (* non-greedy [*?] *)
| Rep : nat -> nat -> regex -> regex    (* greedy [{lo,hi}] *)
| Grp : regex -> regex                  (* capturing group 1 *)
| Bnd : regex.                          (* [\b] *)

Definition Plus (r : regex) : regex := Seq r (Star r).
Definition Opt (r : regex) : regex := Alt r Eps.

(** A literal string, case-sensitively and case-insensitively. *)
Definition Lit (s : string) : regex :=
  fold_right (fun c r => Seq (Chr (N.eqb c)) r) Eps (lit s).
Definition LitI (s : string) : regex :=
  fold_right (fun c r => Seq (Chr (ci_eq c)) r) Eps (lit s).
(** [re.escape(phrase)] compiled with [re.IGNORECASE]. *)
Definition LitI_str (s : str) : regex :=
  fold_right (fun c r => Seq (Chr (ci_eq c)) r) Eps s.

Fixpoint Alts (rs : list regex) : regex :=
  match rs with
  | [] => Chr (fun _ => false)
  | [r] => r
  | r :: rs' => Alt r (Alts rs')
  end.

Fixpoint Seqs (rs : list regex) : regex :=
  match rs with
  | [] => Eps
  | [r] => r
  | r :: rs' => Seq r (Seqs rs')
  end.

(** The matcher's cursor: offset into the subject, the text from there,
    the character just before (for [\b]) and the span of group 1. *)
Record cursor : Type := Cursor {
  pos : nat;
  rest : str;
  prev : option N;
  grp : option (nat * nat)
}.

Definition step (st : cursor) (c : N) (tl : str) : cursor :=
  Cursor (S (pos st)) tl (Some c) (grp st).

Definition at_boundary (st : cursor) : bool :=
  let before := match prev st with Some c => isword c | None => false end in
  let after := match rest st with c :: _ => isword c | [] => false end in
  xorb before after.

(** The loops of the three repetition operators, over the matcher of
    the repeated pattern.  An iteration that consumes nothing is not
    repeated. *)
Definition matcher := (cursor -> option cursor) -> cursor -> option cursor.

Fixpoint star_loop (body : matcher) (k : cursor -> option cursor)
  (fuel : nat) (st : cursor) {struct fuel} : option cursor :=
  match fuel with
  | O => k st
  | S f =>
    match body (fun st' => if pos st <? pos st' then star_loop body k f st' else None) st with
    | Some e => Some e
    | None => k st
    end
  end.

Fixpoint lazy_loop (body : matcher) (k : cursor -> option cursor)
  (fuel : nat) (st : cursor) {struct fuel} : option cursor :=
  match k st with
  | Some e => Some e
  | None =>
    match fuel with
    | O => None
    | S f => body (fun st' => if pos st <? pos st' then lazy_loop body k f st' else None) st
    end
  end.

Fixpoint rep_loop (body : matcher) (k : cursor -> option cursor) (lo : nat)
  (more cnt : nat) (st : cursor) {struct more} : option cursor :=
  match more with
  | O => if lo <=? cnt then k st else None
  | S m =>
    match body (rep_loop body k lo m (S cnt)) st with
    | Some e => Some e
    | None => if lo <=? cnt then k st else None
    end
  end.

(** Backtracking matcher in continuation-passing style: [run r k st]
    tries the ways [r] can match at [st] in the order of preference of
    [re] and returns the first one the continuation [k] accepts. *)
Fixpoint run (r : regex) (k : cursor -> option cursor) (st : cursor)
  {struct r} : option cursor :=
  match r with
  | Eps => k st
  | Chr p =>
    match rest st with
    | c :: tl => if p c then k (step st c tl) else None
    | [] => None
    end
  | Seq a b => run a (run b k) st
  | Alt a b =>
    match run a k st with
    | Some e => Some e
    | None => run b k st
    end
  | Star a => star_loop (run a) k (S (List.length (rest st))) st
  | Lazy a => lazy_loop (run a) k (S (List.length (rest st))) st
  | Rep lo hi a => rep_loop (run a) k lo hi O st
  | Grp a => run a (fun st' => k (Cursor (pos st') (rest st') (prev st')
                                        (Some (pos st, pos st')))) st
  | Bnd => if at_boundary st then k st else None
  end.

(** A match object: span and the span of group 1. *)
Record rmatch : Type := Match {
  m_start : nat;
  m_end : nat;
  m_group1 : option (nat * nat)
}.

(** Try to match at the cursor.  [must_advance] is set after an empty
    match: an empty match at the same place is then refused.  Returns the
    cursor at the end of the match (its [grp] is the span of group 1). *)
Definition match_here (r : regex) (must_advance : bool) (st : cursor) : option cursor :=
  run r (fun e => if must_advance && (pos e =? pos st) then None else Some e)
      (Cursor (pos st) (rest st) (prev st) None).

(** Leftmost match at or after offset [p], where the text from [p] on is
    [s] and the character before it is [pv]. *)
Fixpoint search_from (r : regex) (must_advance : bool) (p : nat) (pv : option N)
  (s : str) {struct s} : option (rmatch * cursor) :=
  match match_here r must_advance (Cursor p s pv None) with
  | Some e => Some (Match p (pos e) (grp e), e)
  | None =>
    match s with
    | c :: s' => search_from r false (S p) (Some c) s'
    | [] => None
    end
  end.

(** [re.finditer(r, s)]: the successive non-overlapping matches. *)
Fixpoint finditer_from (fuel : nat) (r : regex) (must_advance : bool)
  (p : nat) (pv : option N) (s : str) : list rmatch :=
  match fuel with
  | O => []
  | S f =>
    match search_from r must_advance p pv s with
    | Some (m, e) =>
      m :: finditer_from f r (m_end m =? m_start m) (pos e) (prev e) (rest e)
    | None => []
    end
  end.

Definition finditer (r : regex) (s : str) : list rmatch :=
  finditer_from (S (S (List.length s))) r false O None s.

(** [match.group(1)], [None] when the group took no part in the match. *)
Definition group1 (s : str) (m : rmatch) : option str :=
  match m_group1 m with
  | Some (i, j) => Some (slice i j s)
  | None => None
  end.

(** [re.sub(r, repl, s)] for a replacement without back-references. *)
Fixpoint sub_build (repl : str) (s : str) (from : nat) (ms : list rmatch) : str :=
  match ms with
  | [] => skipn from s
  | m :: ms' => slice from (m_start m) s ++ repl ++ sub_build repl s (m_end m) ms'
  end.

Definition sub (r : regex) (repl : str) (s : str) : str :=
  sub_build repl s O (finditer r s).

(** The patterns' shared pieces. *)
Definition ws : regex := Chr isspace.                       (* \s *)
Definition digit : regex := Chr isdecimal.                  (* \d *)
Definition any : regex := Chr (fun _ => true).              (* . with DOTALL *)
Definition noneof (cs : string) : regex :=                  (* [^...] *)
  Chr (fun c => negb (existsb (N.eqb c) (lit cs))).

End Re.

(* ================================================================== *)
(** ** The network, as the code sees it through [requests.get] *)

Module Net.
Import Unicode.

(** What one [requests.get] produces: a response with its status code
    and body, or an exception.  [ConnectionError] and [Timeout] are the
    two classes of [requests.exceptions] the code names,
    [RequestException] stands for the library's other errors (it is
    their base class), and [OtherException] for an exception that is not
    a [RequestException] at all, such as the [LocationParseError] of
    urllib3 for a host name like a..b; [message] is its [str()]. *)
Inductive outcome : Type :=
| Response (status_code : Z) (text : str)
| ConnectionError
| Timeout
| RequestException
| OtherException (message : str).

(** The environment: the outcome of the n-th request of a run (counted
    from 0), given the URL requested. *)
Definition web := nat -> str -> outcome.

(** What a run has done so far: the URLs requested, oldest first, and the
    number of [time.sleep] calls. *)
Record io : Type := IO { requests : list str; sleeps : nat }.

Definition io0 : io := IO [] 0.

Definition get (w : web) (url : str) (s : io) : outcome * io :=
  (w (List.length (requests s)) url, IO (requests s ++ [url]) (sleeps s)).

Definition sleep (s : io) : io := IO (requests s) (S (sleeps s)).

(** Truth value of a [str]-or-[None] in a condition. *)
Definition truthy (o : option str) : bool :=
  match o with
  | Some (_ :: _) => true
  | _ => false
  end.

(** The [status] field of a result. *)
Inductive status : Type := pending | analyzed | error.

(** How a call ends: it returns a value, or an exception leaves it
    ([message] is the [str()] of the exception). *)
Inductive ended (A : Type) : Type :=
| Returned (value : A)
| Raised (message : str).

Arguments Returned {A} value.
Arguments Raised {A} message.

End Net.

(* ================================================================== *)
(** ** company_name_extractor.py *)

Module CompanyNameExtractor.
Import Unicode Re Net.

(** [[a-zA-Z0-9\s\&\-'.,]] under [re.IGNORECASE]. *)
Definition name_char (c : N) : bool :=
  is_ascii_letter c || folds_to_ascii c || is_ascii_digit c || isspace c
  || existsb (N.eqb c) (lit "&-'.,").

(** [[A-Z]] under [re.IGNORECASE]. *)
Definition name_start (c : N) : bool := is_ascii_letter c || folds_to_ascii c.

(** [\s+] between the words of a phrase, case-insensitive. *)
Fixpoint words (ws_sep : list string) : regex :=
  match ws_sep with
  | [] => Eps
  | [w] => LitI w
  | w :: rest => Seq (LitI w) (Seq (Plus ws) (words rest))
  end.

(** [(?:Ltd|Limited|LLC|Inc|Corp|Corporation|GmbH|B\.V\.|Pty\s+Ltd|S\.A\.)] *)
Definition legal_suffix : regex :=
  Alts [LitI "Ltd"; LitI "Limited"; LitI "LLC"; LitI "Inc"; LitI "Corp";
        LitI "Corporation"; LitI "GmbH"; LitI "B.V."; words ["Pty"; "Ltd"];
        LitI "S.A."].

(** [[A-Z][a-zA-Z0-9\s\&\-'.,]+(?:Ltd|...)] *)
Definition legal_name : regex :=
  Seqs [Chr name_start; Plus (Chr name_char); legal_suffix].

(** [[A-Z][a-zA-Z0-9\s\&\-'.,]+] *)
Definition plain_name : regex := Seq (Chr name_start) (Plus (Chr name_char)).

(** [(?:\u00a9|copyright|\(c\))\s*(?:20\d{2}(?:-20\d{2})?)\s+] *)
Definition copyright_year : regex :=
  Seqs [Alts [Chr (N.eqb 169); LitI "copyright"; LitI "(c)"];
        Star ws;
        Seqs [Lit "20"; Rep 2 2 digit; Opt (Seqs [Lit "-20"; Rep 2 2 digit])];
        Plus ws].

(** [(?:Number|No)\.?:?\s+\d+] *)
Definition number_tail : regex :=
  Seqs [Alt (LitI "Number") (LitI "No"); Opt (Lit "."); Opt (Lit ":");
        Plus ws; Plus digit].

(** [\s*[-\u2013]\s*] *)
Definition dash : regex :=
  Seqs [Star ws; Chr (fun c => (c =? 45) || (c =? 8211))%N; Star ws].

(** The class of the two quote characters (double quote, apostrophe). *)
Definition quote : regex := Chr (fun c => (c =? 34) || (c =? 39))%N.

(** [<meta\s+KEY=Q VALUE Q[^>]*content=Q(NAME)Q[^>]*>] where Q is the
    class of the two quote characters. *)
Definition meta_tag (key value : string) : regex :=
  Seqs [LitI "<meta"; Plus ws; LitI key; Lit "="; quote; LitI value; quote;
        Star (noneof ">"); LitI "content="; quote; Grp legal_name; quote;
        Star (noneof ">"); Lit ">"].

(** [self.company_patterns], each compiled with
    [re.IGNORECASE | re.DOTALL]. *)
Definition company_patterns : list regex :=
  [ (* Standard copyright patterns *)
    Seq copyright_year (Grp legal_name);
    (* Just copyright year and name without legal suffix *)
    Seq copyright_year (Grp (Seq (Chr name_start) (Rep 3 50 (Chr name_char))));
    (* Legal/data controller/processor patterns *)
    Seqs [Alts [words ["data"; "controller"]; words ["data"; "processor"];
                words ["data"; "owner"]];
          Plus ws; LitI "is"; Plus ws; Grp legal_name];
    (* Operated by patterns *)
    Seqs [Alts [words ["is"; "owned"; "and"; "operated"; "by"];
                words ["trading"; "as"]; LitI "t/a"; words ["operated"; "by"]];
          Plus ws; Grp legal_name];
    (* Developed by patterns *)
    Seqs [Alt (LitI "developed") (LitI "powered"); Plus ws; LitI "by";
          Plus ws; Grp legal_name];
    (* Footer company with All rights reserved *)
    Seqs [Grp legal_name; Plus ws; words ["All"; "Rights"; "Reserved"]];
    (* Contact us / about us section company names *)
    Seqs [Alt (LitI "Contact") (LitI "About"); Plus ws; Grp legal_name];
    (* Company with registered address *)
    Seqs [Grp legal_name; Plus ws; words ["is"; "registered"; "at"]];
    (* Company with registration number *)
    Seqs [words ["Company"; "Registration"]; Plus ws; number_tail; dash;
          Grp plain_name];
    Seqs [Grp plain_name; Plus ws; words ["Company"; "Registration"];
          Plus ws; number_tail];
    (* Company with VAT number *)
    Seqs [LitI "VAT"; Plus ws; number_tail; dash; Grp plain_name];
    Seqs [Grp plain_name; Plus ws; LitI "VAT"; Plus ws; number_tail];
    (* Simple company name in footer (less reliable) *)
    Seqs [LitI "<footer"; Star (noneof ">"); Lit ">"; Lazy any;
          Grp (Seqs [Chr name_start; Rep 2 50 (Chr name_char); legal_suffix]);
          Lazy any; LitI "</footer>"];
    (* Company names in meta tags *)
    meta_tag "name" "author";
    meta_tag "property" "og:site_name";
    (* Company name in typical about page phrases *)
    Seqs [words ["was"; "founded"]; Plus ws; Alt (LitI "in") (LitI "by");
          Plus ws; Grp legal_name];
    Seqs [words ["welcome"; "to"]; Plus ws; Grp legal_name] ].

(** [self.cleanup_phrases] *)
Definition cleanup_phrases : list str :=
  map lit ["All Rights Reserved"; "Privacy Policy"; "Terms of Service";
           "Terms and Conditions"; "Home"; "About"; "Contact"; "Copyright";
           "Website"]%string.

(** [<a[^>]*href=D(G)D[^>]*>] where D is the double quote and the group
    G is KEY between two runs [[^D]*] of characters other than D. *)
Definition href_with (key : string) : regex :=
  Seqs [LitI "<a"; Star (noneof ">"); LitI "href="; Chr (N.eqb 34);
        Grp (Seqs [Star (Chr (fun c => negb (c =? 34)%N)); LitI key;
                   Star (Chr (fun c => negb (c =? 34)%N))]);
        Chr (N.eqb 34); Star (noneof ">"); Lit ">"].

(** [self.privacy_policy_patterns], used with [re.IGNORECASE]. *)
Definition privacy_policy_patterns : list regex :=
  map href_with ["privacy"; "policy"; "terms"; "imprint"; "impressum"; "legal"]%string.

Definition max_retries : nat := 3.

(** The result dictionary and its two assignments. *)
Record result : Type := Result {
  domain : str;
  status : Net.status;
  company_name : option str
}.

Definition set_status (r : result) (st : Net.status) : result :=
  Result (domain r) st (company_name r).

Definition set_company_name (r : result) (name : option str) : result :=
  Result (domain r) (status r) name.

Section Extractor.

(** The environment of one run: the network and the HTML parser. *)
Variable w : web.
Variable html_parser : str -> Soup.soup.

(** [fetch_url]: the loop [for attempt in range(max_retries)].  The
    three [except] clauses catch the classes of [requests.exceptions];
    any other exception leaves the function. *)
Fixpoint fetch_attempts (attempts : nat) (url : str) (s : io)
  : ended (option str) * io :=
  match attempts with
  | O => (Returned None, s)
  | S n =>
    let (o, s1) := get w url s in
    match o with
    | Response code text =>
      if (code =? 200)%Z then (Returned (Some text), s1)
      else if (code =? 403)%Z then (Returned None, s1)
      else if (code =? 404)%Z then (Returned None, s1)
      else fetch_attempts n url (sleep s1)
    | ConnectionError | Timeout | RequestException =>
      fetch_attempts n url (sleep s1)
    | OtherException message => (Raised message, s1)
    end
  end.

Definition fetch_url (url : str) (s : io) : ended (option str) * io :=
  fetch_attempts max_retries url s.

Definition normalize_url (base_url relative_url : str) : str :=
  if startswith (lit "http://") relative_url
     || startswith (lit "https://") relative_url
  then relative_url
  else
    let base_parts := before 63 (before 35 base_url) in
    if startswith (lit "/") relative_url then
      let base_parts :=
        if endswith (lit "/") base_parts then drop_last 1 base_parts
        else base_parts in
      base_parts ++ relative_url
    else
      let base_parts :=
        if negb (endswith (lit "/") base_parts) then base_parts ++ lit "/"
        else base_parts in
      base_parts ++ relative_url.

Definition common_policy_paths : list str :=
  map lit ["/privacy"; "/privacy-policy"; "/terms"; "/terms-of-service";
           "/terms-and-conditions"; "/legal"; "/imprint"; "/impressum";
           "/datenschutz"]%string.

(** The first loop of [find_privacy_policy_url]: pattern by pattern,
    the matches of each in document order. *)
Definition markup_urls (base_url homepage_content : str) : list str :=
  flat_map (fun pattern =>
    flat_map (fun m =>
      match group1 homepage_content m with
      | Some href => [normalize_url base_url href]
      | None => []
      end) (finditer pattern homepage_content))
    privacy_policy_patterns.

(** The second loop: [if url not in policy_urls: policy_urls.append(url)]. *)
Definition add_common_paths (base_url : str) (policy_urls : list str) : list str :=
  fold_left (fun urls path =>
    let url := normalize_url base_url path in
    if existsb (str_eqb url) urls then urls else urls ++ [url])
    common_policy_paths policy_urls.

Definition find_privacy_policy_url (base_url homepage_content : str) : list str :=
  add_common_paths base_url (markup_urls base_url homepage_content).

Definition extract_text_from_html (html_content : str) : str :=
  match html_content with
  | [] => []
  | _ :: _ =>
    let soup := html_parser html_content in
    let soup := Soup.decompose_all
                  (map lit ["script"; "style"; "head"; "nav"]%string) soup in
    let text := Soup.get_text (lit " ") soup in
    strip (sub (Plus ws) (lit " ") text)
  end.

Definition suspicious : list str :=
  map lit ["all rights reserved"; "privacy policy"; "terms of service";
           "cookie policy"; "sitemap"; "contact us"; "about us"]%string.

Definition _validate_company_name (name : str) : bool :=
  if (List.length name <? 3) then false
  else if negb (any_alpha name) then false
  else
    let lower_name := lower name in
    negb (existsb (fun pattern =>
            contains pattern lower_name && (List.length name <? 30))
          suspicious).

Definition legal_suffixes : list str :=
  map lit ["ltd"; "limited"; "llc"; "inc"; "corp"; "corporation"; "gmbh";
           "b.v."; "pty ltd"; "s.a."; "co."]%string.

Definition _normalize_company_name (name : str) : str :=
  match name with
  | [] => []
  | _ :: _ =>
    let normalized := lower name in
    let normalized :=
      fold_left (fun normalized suffix =>
        if endswith suffix normalized
        then strip (drop_last (List.length suffix) normalized)
        else normalized) legal_suffixes normalized in
    (* [^\w\s] *)
    let normalized :=
      sub (Chr (fun c => negb (isword c || isspace c))) [] normalized in
    strip (sub (Plus ws) (lit " ") normalized)
  end.

(** The argument is a [str] or [None]; so is the result. *)
Definition _clean_company_name (name : option str) : option str :=
  match name with
  | None | Some [] => None
  | Some name =>
    (* <[^>]+> *)
    let cleaned := sub (Seqs [Lit "<"; Plus (noneof ">"); Lit ">"]) [] name in
    let cleaned := strip (sub (Plus ws) (lit " ") cleaned) in
    let cleaned :=
      fold_left (fun cleaned phrase => sub (LitI_str phrase) [] cleaned)
                cleanup_phrases cleaned in
    let cleaned := rstrip_chars (lit ".,;:") cleaned in
    Some (strip (sub (Plus ws) (lit " ") cleaned))
  end.

(** The candidates of one text: every pattern in turn, every match of
    it, kept when its stripped group passes validation. *)
Definition candidates_of (text : str) : list str :=
  flat_map (fun pattern =>
    flat_map (fun m =>
      match group1 text m with
      | Some g =>
        let company := strip g in
        if _validate_company_name company then [company] else []
      | None => []
      end) (finditer pattern text))
    company_patterns.

(** [counts[k] = counts.get(k, 0) + 1] on a dict, which keeps its keys
    in the order of their first insertion. *)
Fixpoint bump (k : str) (counts : list (str * nat)) : list (str * nat) :=
  match counts with
  | [] => [(k, 1)]
  | (k', n) :: rest =>
    if str_eqb k' k then (k', S n) :: rest else (k', n) :: bump k rest
  end.

Definition tally (keys : list str) : list (str * nat) :=
  fold_left (fun counts k => bump k counts) keys [].

(** [sorted(items, key=lambda x: x[1], reverse=True)]: a stable sort,
    larger counts first, equal counts in their original order. *)
Fixpoint insert_desc (x : str * nat) (sorted : list (str * nat)) : list (str * nat) :=
  match sorted with
  | [] => [x]
  | y :: rest =>
    if snd x <? snd y then y :: insert_desc x rest else x :: y :: rest
  end.

Definition sorted_desc (items : list (str * nat)) : list (str * nat) :=
  fold_right insert_desc [] items.

Definition extract_company_name_from_text (text : str) : option str :=
  match text with
  | [] => None
  | _ :: _ =>
    let candidates := candidates_of text in
    match candidates with
    | [] => None
    | _ :: _ =>
      let counts := tally (map _normalize_company_name candidates) in
      match sorted_desc counts with
      | (best_candidate, _) :: _ => _clean_company_name (Some best_candidate)
      | [] => None
      end
    end
  end.

Definition homepage_urls (domain : str) : list str :=
  [lit "https://" ++ domain; lit "http://" ++ domain]
  ++ (if negb (startswith (lit "www.") domain)
      then [lit "https://www." ++ domain] else [])
  ++ (if negb (startswith (lit "www.") domain)
      then [lit "http://www." ++ domain] else []).

(** [for url in urls: content = self.fetch_url(url); if content: ... break];
    an exception of [fetch_url] leaves the loop and the caller. *)
Fixpoint fetch_first (urls : list str) (s : io)
  : ended (option (str * str)) * io :=
  match urls with
  | [] => (Returned None, s)
  | url :: rest =>
    let (fetched, s1) := fetch_url url s in
    match fetched with
    | Raised message => (Raised message, s1)
    | Returned content =>
      if truthy content
      then (Returned (match content with Some c => Some (url, c) | None => None end),
            s1)
      else fetch_first rest s1
    end
  end.

(** The loop over the policy URLs; [None] when it runs to its end. *)
Fixpoint check_policy_urls (policy_urls : list str) (s : io)
  : ended (option str) * io :=
  match policy_urls with
  | [] => (Returned None, s)
  | url :: rest =>
    let (fetched, s1) := fetch_url url s in
    match fetched with
    | Raised message => (Raised message, s1)
    | Returned (Some (c :: cs)) =>
      let content := c :: cs in
      let company_name := extract_company_name_from_text content in
      let company_name :=
        if negb (truthy company_name)
        then extract_company_name_from_text (extract_text_from_html content)
        else company_name in
      if truthy company_name then (Returned company_name, s1)
      else check_policy_urls rest s1
    | Returned _ => check_policy_urls rest s1
    end
  end.

(** [extract_company_name] has no [try]: what [fetch_url] raises reaches
    its caller. *)
Definition extract_company_name (domain : str) (s : io) : ended result * io :=
  let result := Result domain pending None in
  let urls := homepage_urls domain in
  let (fetched, s1) := fetch_first urls s in
  match fetched with
  | Raised message => (Raised message, s1)
  | Returned None => (Returned (set_status result error), s1)
  | Returned (Some (homepage_url, homepage_content)) =>
    let company_name := extract_company_name_from_text homepage_content in
    if truthy company_name
    then (Returned (set_company_name (set_status result analyzed) company_name), s1)
    else
      let policy_urls := find_privacy_policy_url homepage_url homepage_content in
      let (found, s2) := check_policy_urls policy_urls s1 in
      match found with
      | Raised message => (Raised message, s2)
      | Returned (Some name) =>
        (Returned (set_company_name (set_status result analyzed) (Some name)), s2)
      | Returned None => (Returned (set_status result analyzed), s2)
      end
  end.

End Extractor.

End CompanyNameExtractor.

(* ================================================================== *)
(** ** domain_analyzer.py *)

Module DomainAnalyzer.
Import Unicode Re Net.

(** [[a-zA-Z0-9\s\&\-']] under [re.IGNORECASE]. *)
Definition name_char (c : N) : bool :=
  is_ascii_letter c || folds_to_ascii c || is_ascii_digit c || isspace c
  || existsb (N.eqb c) (lit "&-'").

Definition name_start : N -> bool := CompanyNameExtractor.name_start.

(** [[A-Z][a-zA-Z0-9\s\&\-']+(?:Ltd|...)] *)
Definition legal_name : regex :=
  Seqs [Chr name_start; Plus (Chr name_char); CompanyNameExtractor.legal_suffix].

(** [self.company_patterns], each compiled with
    [re.IGNORECASE | re.DOTALL]. *)
Definition company_patterns : list regex :=
  [ (* Copyright patterns *)
    Seq CompanyNameExtractor.copyright_year (Grp legal_name);
    (* Just copyright year and name *)
    Seq CompanyNameExtractor.copyright_year
        (Grp (Seq (Chr name_start) (Plus (Chr name_char))));
    (* Operated by patterns *)
    Seqs [Alts [CompanyNameExtractor.words ["is"; "owned"; "and"; "operated"; "by"];
                CompanyNameExtractor.words ["trading"; "as"]; LitI "t/a";
                CompanyNameExtractor.words ["operated"; "by"]];
          Plus ws; Grp legal_name];
    (* Footer company with All rights reserved *)
    Seqs [Grp legal_name; Plus ws;
          CompanyNameExtractor.words ["All"; "Rights"; "Reserved"]] ].

Record result : Type := Result {
  domain : str;
  status : Net.status;
  company_name : option str
}.

Section Analyzer.

Variable w : web.

Definition homepage_urls (domain : str) : list str :=
  [lit "https://" ++ domain; lit "http://" ++ domain]
  ++ (if negb (startswith (lit "www.") domain)
      then [lit "https://www." ++ domain] else [])
  ++ (if negb (startswith (lit "www.") domain)
      then [lit "http://www." ++ domain] else []).

(** The loop of [fetch_homepage]: one request per URL, any exception
    skips to the next URL. *)
Fixpoint try_urls (urls : list str) (s : io) : option str * io :=
  match urls with
  | [] => (None, s)
  | url :: rest =>
    let (o, s1) := get w url s in
    match o with
    | Response code text =>
      if (code =? 200)%Z then (Some text, s1) else try_urls rest s1
    | ConnectionError | Timeout | RequestException | OtherException _ =>
      try_urls rest s1
    end
  end.

Definition fetch_homepage (domain : str) (s : io) : option str * io :=
  try_urls (homepage_urls domain) s.

Definition candidates_of (text : str) : list str :=
  flat_map (fun pattern =>
    flat_map (fun m =>
      match group1 text m with
      | Some g =>
        let company := strip g in
        if (3 <=? List.length company) && any_alpha company
        then [company] else []
      | None => []
      end) (finditer pattern text))
    company_patterns.

Definition extract_company_name (text : option str) : option str :=
  match text with
  | None | Some [] => None
  | Some text =>
    match candidates_of text with
    | [] => None
    | candidates =>
      match CompanyNameExtractor.sorted_desc
              (CompanyNameExtractor.tally candidates) with
      | (best, _) :: _ => Some best
      | [] => None
      end
    end
  end.

Definition analyze_domain (domain : str) (s : io) : result * io :=
  let (content, s1) := fetch_homepage domain s in
  if negb (truthy content)
  then (Result domain error None, s1)
  else
    let company_name := extract_company_name content in
    (Result domain analyzed company_name, s1).

(** [analyze_domains]: the results in the order of the domains, and one
    [time.sleep] after each analysis. *)
Fixpoint analyze_domains (domains : list str) (s : io) : list result * io :=
  match domains with
  | [] => ([], s)
  | domain :: rest =>
    let (result, s1) := analyze_domain domain s in
    let (results, s2) := analyze_domains rest (sleep s1) in
    (result :: results, s2)
  end.

End Analyzer.

End DomainAnalyzer.

(* ================================================================== *)
(** ** improved_analyzer.py *)

Module ImprovedAnalyzer.
Import Unicode Re Net.

(** [self.company_patterns]: eight of the rules of
    company_name_extractor.py, with the same text. *)
Definition company_patterns : list regex :=
  [ nth 0 CompanyNameExtractor.company_patterns Eps;   (* copyright, suffix *)
    nth 1 CompanyNameExtractor.company_patterns Eps;   (* copyright, no suffix *)
    nth 3 CompanyNameExtractor.company_patterns Eps;   (* operated by *)
    nth 4 CompanyNameExtractor.company_patterns Eps;   (* developed by *)
    nth 5 CompanyNameExtractor.company_patterns Eps;   (* All rights reserved *)
    nth 6 CompanyNameExtractor.company_patterns Eps;   (* Contact / About *)
    nth 7 CompanyNameExtractor.company_patterns Eps;   (* is registered at *)
    nth 12 CompanyNameExtractor.company_patterns Eps ] (* footer *).

(** [self.contact_patterns], used with [re.IGNORECASE]. *)
Definition contact_patterns : list regex :=
  map CompanyNameExtractor.href_with
      ["contact"; "about-us"; "impressum"; "kontakt"; "imprint"; "about"]%string.

Record result : Type := Result {
  domain : str;
  status : Net.status;
  company_name : option str;
  contact_url : option str
}.

Section Analyzer.

Variable w : web.

(** [except Exception]: whatever the request raises, the result is
    [None]. *)
Definition fetch_url (url : str) (s : io) : option str * io :=
  let (o, s1) := get w url s in
  match o with
  | Response code text =>
    if (code =? 200)%Z then (Some text, s1) else (None, s1)
  | ConnectionError | Timeout | RequestException | OtherException _ => (None, s1)
  end.

Definition homepage_urls (domain : str) : list str :=
  [lit "https://" ++ domain; lit "http://" ++ domain]
  (* If domain starts with www, try without it *)
  ++ (if startswith (lit "www.") domain
      then [lit "https://" ++ replace (lit "www.") [] domain] else [])
  ++ (if startswith (lit "www.") domain
      then [lit "http://" ++ replace (lit "www.") [] domain] else [])
  (* If domain doesn't start with www, try with it *)
  ++ (if negb (startswith (lit "www.") domain)
      then [lit "https://www." ++ domain] else [])
  ++ (if negb (startswith (lit "www.") domain)
      then [lit "http://www." ++ domain] else []).

Fixpoint try_urls (urls : list str) (s : io) : option (str * str) * io :=
  match urls with
  | [] => (None, s)
  | url :: rest =>
    let (content, s1) := fetch_url url s in
    if truthy content
    then (match content with Some c => Some (url, c) | None => None end, s1)
    else try_urls rest s1
  end.

Definition fetch_homepage (domain : str) (s : io) : option (str * str) * io :=
  try_urls (homepage_urls domain) s.

Definition words_to_remove : list string :=
  ["home"; "contact"; "about"; "us"; "privacy"; "policy"; "terms";
   "conditions"; "cookies"; "sitemap"; "menu"]%string.

Definition clean_company_name (name : option str) : option str :=
  match name with
  | None | Some [] => None
  | Some name =>
    let name := sub (Seqs [Lit "<"; Plus (noneof ">"); Lit ">"]) [] name in
    let name := strip (sub (Plus ws) (lit " ") name) in
    let name :=
      fold_left (fun name word => sub (Seqs [Bnd; LitI word; Bnd]) [] name)
                words_to_remove name in
    let name := strip (sub (Plus ws) (lit " ") name) in
    let name := rstrip_chars (lit ".,;:") name in
    if 3 <=? List.length name then Some name else None
  end.

Definition candidates_of (text : str) : list str :=
  flat_map (fun pattern =>
    flat_map (fun m =>
      match group1 text m with
      | Some g =>
        match clean_company_name (Some (strip g)) with
        | Some company =>
          if (3 <=? List.length company) && any_alpha company
          then [company] else []
        | None => []
        end
      | None => []
      end) (finditer pattern text))
    company_patterns.

Definition extract_company_name (text : str) : option str :=
  match text with
  | [] => None
  | _ :: _ =>
    match candidates_of text with
    | [] => None
    | candidates =>
      match CompanyNameExtractor.sorted_desc
              (CompanyNameExtractor.tally candidates) with
      | (best, _) :: _ => Some best
      | [] => None
      end
    end
  end.

Definition absolute (base_url href : str) : str :=
  if startswith (lit "/") href then
    let base := before 63 (before 35 base_url) in
    if endswith (lit "/") base then base ++ skipn 1 href else base ++ href
  else if negb (startswith (lit "http://") href || startswith (lit "https://") href)
  then
    if endswith (lit "/") base_url then base_url ++ href
    else base_url ++ lit "/" ++ href
  else href.

Definition find_contact_url (base_url content : str) : option str :=
  match base_url, content with
  | [], _ | _, [] => None
  | _, _ =>
    let contact_urls :=
      flat_map (fun pattern =>
        flat_map (fun m =>
          match group1 content m with
          | Some href => [absolute base_url href]
          | None => []
          end) (finditer pattern content))
        contact_patterns in
    match contact_urls with
    | url :: _ => Some url
    | [] => None
    end
  end.

Definition analyze_domain (domain : str) (s : io) : result * io :=
  let (fetched, s1) := fetch_homepage domain s in
  match fetched with
  | None => (Result domain error None None, s1)
  | Some (base_url, content) =>
    let company_name := extract_company_name content in
    let contact_url := find_contact_url base_url content in
    (Result domain analyzed company_name contact_url, s1)
  end.

(** [analyze_domains]: the results in the order of the domains, and one
    [time.sleep] after each analysis. *)
Fixpoint analyze_domains (domains : list str) (s : io) : list result * io :=
  match domains with
  | [] => ([], s)
  | domain :: rest =>
    let (result, s1) := analyze_domain domain s in
    let (results, s2) := analyze_domains rest (sleep s1) in
    (result :: results, s2)
  end.

End Analyzer.

End ImprovedAnalyzer.

(* ================================================================== *)
(** ** run_extractor.py *)

Module RunExtractor.
Import Unicode Re Net.

(** An element of [results]: the dictionary [extract_company_name]
    returned, which has no "error" key, or the one the [except] branch
    builds, whose "error" is the [str()] of the exception. *)
Record entry : Type := Entry {
  domain : str;
  status : Net.status;
  company_name : option str;
  error_text : option str
}.

Definition of_result (r : CompanyNameExtractor.result) : entry :=
  Entry (CompanyNameExtractor.domain r) (CompanyNameExtractor.status r)
        (CompanyNameExtractor.company_name r) None.

(** The three counts of the summary. *)
Definition success_count (results : list entry) : nat :=
  List.length (filter (fun r =>
    match status r with
    | analyzed => truthy (company_name r)
    | _ => false
    end) results).

Definition error_count (results : list entry) : nat :=
  List.length (filter (fun r =>
    match status r with
    | error => true
    | _ => false
    end) results).

Definition not_found_count (results : list entry) : nat :=
  List.length (filter (fun r =>
    match status r with
    | analyzed => negb (truthy (company_name r))
    | _ => false
    end) results).


Section Run.

Variable w : web.
Variable html_parser : str -> Soup.soup.

(** The loop [for i, domain in enumerate(domains)] with
    [output_file=None].  In the [try] block the result is appended and
    the run sleeps [if i < len(domains) - 1], that is when a domain
    follows.  When [extract_company_name] raises, the [except Exception]
    branch appends an error record instead, and nothing sleeps. *)
Fixpoint process (domains : list str) (s : io) : list entry * io :=
  match domains with
  | [] => ([], s)
  | domain :: rest =>
    let (extracted, s1) :=
      CompanyNameExtractor.extract_company_name w html_parser domain s in
    match extracted with
    | Returned result =>
      let s2 := match rest with
                | [] => s1
                | _ :: _ => sleep s1
                end in
      let (results, s3) := process rest s2 in
      (of_result result :: results, s3)
    | Raised message =>
      let (results, s3) := process rest s1 in
      (Entry domain error None (Some message) :: results, s3)
    end
  end.


End Run.

End RunExtractor.

(* ================================================================== *)
(** ** policy_scraper_simple.py

    [BeautifulSoup] is used in two ways: for the text of a document, as
    in company_name_extractor.py, and for its links.  The links are a
    second parameter: for a document, the pairs
    [(link['href'], link.get_text())] of
    [soup.find_all('a', href=True)], in document order. *)

Module PolicyScraperSimple.
Import Unicode Re Net.

(** [self.policy_paths] *)
Definition policy_paths : list str :=
  map lit ["/privacy"; "/privacy-policy"; "/privacy-notice"; "/privacypolicy";
           "/terms"; "/terms-of-service"; "/terms-and-conditions"; "/legal";
           "/data-protection"; "/datenschutz"; "/impressum"]%string.

(** The first alternative of the copyright pattern is the two
    characters U+00C2 U+00A9 of the source text; under [re.IGNORECASE]
    the first of them also matches U+00E2. *)
Definition copyright_year : regex :=
  Seqs [Alts [Seq (Chr (fun c => (c =? 194) || (c =? 226))%N) (Chr (N.eqb 169));
              LitI "copyright"; LitI "(c)"];
        Star ws;
        Seqs [Lit "20"; Rep 2 2 digit; Opt (Seqs [Lit "-20"; Rep 2 2 digit])];
        Plus ws].

(** [self.company_patterns], each compiled with
    [re.IGNORECASE | re.DOTALL]. *)
Definition company_patterns : list regex :=
  [ (* Standard legal entity patterns *)
    Grp CompanyNameExtractor.legal_name;
    (* Data controller patterns *)
    Seqs [CompanyNameExtractor.words ["data"; "controller"; "is"]; Plus ws;
          Grp CompanyNameExtractor.legal_name];
    (* Operated by patterns *)
    Seqs [CompanyNameExtractor.words ["operated"; "by"]; Plus ws;
          Grp CompanyNameExtractor.legal_name];
    (* Copyright owner patterns *)
    Seq copyright_year (Grp CompanyNameExtractor.legal_name) ].

(** The keywords looked for in the text of a link. *)
Definition keywords : list str :=
  map lit ["privacy"; "privat"; "terms"; "legal"; "imprint"]%string.

(** [str.splitlines()]: the line boundaries are LF, VT, FF, CR, CR LF,
    FS, GS, RS, NEL, LS and PS; a boundary at the very end opens no
    further line. *)
Definition linebreak (c : N) : bool :=
  (in_range 10 13 c || in_range 28 30 c || (c =? 133) || (c =? 8232)
   || (c =? 8233))%N.

Fixpoint splitlines (s : str) : list str :=
  match s with
  | [] => []
  | c :: s' =>
    if linebreak c then
      match s' with
      | d :: s'' =>
        if ((c =? 13) && (d =? 10))%N then [] :: splitlines s''
        else [] :: splitlines s'
      | [] => [[]]
      end
    else
      match splitlines s' with
      | line :: lines => (c :: line) :: lines
      | [] => [[c]]
      end
  end.

(** [line.split("  ")]: the pieces between the occurrences of two
    spaces, found from left to right. *)
Fixpoint split_double_space (s : str) : list str :=
  match s with
  | [] => [[]]
  | c :: s' =>
    match s' with
    | d :: s'' =>
      if ((c =? 32) && (d =? 32))%N then [] :: split_double_space s''
      else
        match split_double_space s' with
        | piece :: pieces => (c :: piece) :: pieces
        | [] => [[c]]
        end
    | [] => [[c]]
    end
  end.

Record result : Type := Result {
  domain : str;
  status : Net.status;
  company_name : option str
}.

Section Scraper.

Variable w : web.
Variable html_parser : str -> Soup.soup.
Variable links : str -> list (str * str).

(** [except Exception]: whatever the request raises, the result is
    [None]. *)
Definition fetch_url (url : str) (s : io) : option str * io :=
  let (o, s1) := get w url s in
  match o with
  | Response code text =>
    if (code =? 200)%Z then (Some text, s1) else (None, s1)
  | ConnectionError | Timeout | RequestException | OtherException _ => (None, s1)
  end.

Definition homepage_urls (domain : str) : list str :=
  [lit "https://" ++ domain; lit "http://" ++ domain]
  ++ (if negb (startswith (lit "www.") domain)
      then [lit "https://www." ++ domain] else [])
  ++ (if negb (startswith (lit "www.") domain)
      then [lit "http://www." ++ domain] else []).

(** The loop of [get_base_url]: the first URL that returns content. *)
Fixpoint first_reachable (urls : list str) (s : io) : option str * io :=
  match urls with
  | [] => (None, s)
  | url :: rest =>
    let (content, s1) := fetch_url url s in
    if truthy content then (Some url, s1) else first_reachable rest s1
  end.

Definition get_base_url (domain : str) (s : io) : option str * io :=
  first_reachable (homepage_urls domain) s.

(** The absolute form [find_policy_urls] gives to the href of a link. *)
Definition absolute (base_url href : str) : str :=
  if startswith (lit "/") href then
    let base := before 63 (before 35 base_url) in
    if endswith (lit "/") base then base ++ skipn 1 href else base ++ href
  else if negb (startswith (lit "http://") href || startswith (lit "https://") href)
  then
    if endswith (lit "/") base_url then base_url ++ href
    else base_url ++ lit "/" ++ href
  else href.

(** The URL [find_policy_urls] tries for a common path. *)
Definition at_base (base_url path : str) : str :=
  if endswith (lit "/") base_url then base_url ++ skipn 1 path
  else base_url ++ path.

(** [homepage_content] is a [str] or [None]. *)
Definition find_policy_urls (base_url : str) (homepage_content : option str)
  : list str :=
  match base_url, homepage_content with
  | [], _ | _, None | _, Some [] => []
  | _, Some content =>
    let policy_urls :=
      flat_map (fun link : str * str =>
        let (href, text) := link in
        let link_text := lower text in
        if existsb (fun keyword => contains keyword link_text) keywords
        then [absolute base_url href] else [])
        (links content) in
    fold_left (fun policy_urls path =>
      let policy_url := at_base base_url path in
      if existsb (str_eqb policy_url) policy_urls then policy_urls
      else policy_urls ++ [policy_url])
      policy_paths policy_urls
  end.

(** [html] is a [str] or [None]. *)
Definition extract_text_from_html (html : option str) : str :=
  match html with
  | None | Some [] => []
  | Some html =>
    let soup := html_parser html in
    let soup := Soup.decompose_all (map lit ["script"; "style"]%string) soup in
    let text := Soup.get_text [] soup in
    let lines := map strip (splitlines text) in
    let chunks :=
      flat_map (fun line => map strip (split_double_space line)) lines in
    join [10%N] (filter (fun chunk => negb (str_eqb chunk [])) chunks)
  end.

Definition candidates_of (text : str) : list str :=
  flat_map (fun pattern =>
    flat_map (fun m =>
      match group1 text m with
      | Some g =>
        let company := strip g in
        if (3 <=? List.length company) && any_alpha company
        then [company] else []
      | None => []
      end) (finditer pattern text))
    company_patterns.

Definition extract_company_name (text : str) : option str :=
  match text with
  | [] => None
  | _ :: _ =>
    match candidates_of text with
    | [] => None
    | candidates =>
      match CompanyNameExtractor.sorted_desc
              (CompanyNameExtractor.tally candidates) with
      | (best, _) :: _ => Some best
      | [] => None
      end
    end
  end.

(** The loop over the policy URLs; [None] when it runs to its end. *)
Fixpoint check_policy_urls (policy_urls : list str) (s : io) : option str * io :=
  match policy_urls with
  | [] => (None, s)
  | url :: rest =>
    let (content, s1) := fetch_url url s in
    if truthy content then
      let text := extract_text_from_html content in
      let company_name := extract_company_name text in
      if truthy company_name then (company_name, s1)
      else check_policy_urls rest s1
    else check_policy_urls rest s1
  end.

Definition scrape_domain (domain : str) (s : io) : result * io :=
  let (base_url, s1) := get_base_url domain s in
  match base_url with
  | None => (Result domain error None, s1)
  | Some base_url =>
    let (homepage_content, s2) := fetch_url base_url s1 in
    let policy_urls := find_policy_urls base_url homepage_content in
    match policy_urls with
    | [] =>
      let company_name :=
        extract_company_name (extract_text_from_html homepage_content) in
      (Result domain analyzed company_name, s2)
    | _ :: _ =>
      let (found, s3) := check_policy_urls policy_urls s2 in
      (Result domain analyzed found, s3)
    end
  end.

End Scraper.

End PolicyScraperSimple.

(* ================================================================== *)
(** * Vocabulary of the properties *)

Import Unicode Re Net.

(** ** Fetching *)

(** Outcomes after which [fetch_url] goes on to its next attempt. *)
Definition retryable (o : outcome) : bool :=
  match o with
  | Response code _ => negb ((code =? 200) || (code =? 403) || (code =? 404))%Z
  | ConnectionError | Timeout | RequestException => true
  | OtherException _ => false
  end.

(** The run after [n] more requests for [url] and [k] more sleeps. *)
Definition after (s : io) (url : str) (n k : nat) : io :=
  IO (requests s ++ repeat url n) (sleeps s + k).

(** ** Aggregation of candidates *)

Definition str_dec : forall a b : str, {a = b} + {a <> b} := list_eq_dec N.eq_dec.

(** Number of occurrences of a form among the candidates. *)
Definition occurrences (k : str) (ks : list str) : nat := count_occ str_dec ks k.

(** The first occurrence of [a] comes before every occurrence of [b]. *)
Definition first_before (a b : str) (ks : list str) : Prop :=
  exists l1 l2, ks = l1 ++ a :: l2 /\ ~ In a l1 /\ ~ In b l1.

(** The form the code picks: the key of the first item after sorting. *)
Definition best_of (ks : list str) : option str :=
  hd_error (map fst (CompanyNameExtractor.sorted_desc (CompanyNameExtractor.tally ks))).

(** The count stored for a key. *)
Fixpoint stored (k : str) (counts : list (str * nat)) : nat :=
  match counts with
  | [] => 0
  | (k', n) :: rest => if str_eqb k' k then n else stored k rest
  end.

(** The fold of [tally], from any dictionary. *)
Definition tally_from (counts : list (str * nat)) (ks : list str) : list (str * nat) :=
  fold_left (fun counts k => CompanyNameExtractor.bump k counts) ks counts.

(** ** A web for the scenarios *)

(** A web on which no host name can be parsed: every request raises an
    exception that is not a [RequestException]. *)
Definition unparsable : web :=
fun _ _ => OtherException (lit "Failed to parse: 'a..b', label empty or too long").

(** A web that serves one homepage on https://example.com and nothing
    else. *)
Definition serving (page : str) : web :=
  fun _ url =>
    if str_eqb url (lit "https://example.com") then Response 200 page
    else Response 404 [].

(** ** Link discovery *)

(** The code's membership test [url not in policy_urls]. *)
Definition listed (urls : list str) (u : str) : bool := existsb (str_eqb u) urls.

(** The absolute URLs of the fallback paths. *)
Definition fallback_urls (base_url : str) : list str :=
  map (CompanyNameExtractor.normalize_url base_url)
    CompanyNameExtractor.common_policy_paths.

(** What [normalize_url] puts in front of a path that starts with a
    slash. *)
Definition site_root (base_url : str) : str :=
  let base_parts := before 63 (before 35 base_url) in
  if endswith (lit "/") base_parts then drop_last 1 base_parts else base_parts.

(** ** Progress of the matcher *)




(** ** Direct forms of the matches *)

(** The cursor [n] characters further on. *)
Fixpoint walk (st : cursor) (n : nat) : cursor :=
match n with
| O => st
| S n' =>
  match rest st with
  | c :: tl => walk (step st c tl) n'
  | [] => st
  end
end.

(** Length of the longest prefix of [s] inside the class [p]. *)
Fixpoint run_len (p : N -> bool) (s : str) : nat :=
match s with
| c :: s' => if p c then S (run_len p s') else 0
| [] => 0
end.

(** Greedy repetition of one class: the longest run first, then shorter
    ones. *)
Fixpoint greedy (p : N -> bool) (k : cursor -> option cursor) (s : str)
  (st : cursor) : option cursor :=
match s with
| c :: tl =>
  if p c then
    match greedy p k tl (step st c tl) with
    | Some e => Some e
    | None => k st
    end
  else k st
| [] => k st
end.

(** [phrase] matches at the head of [s], case-insensitively. *)
Fixpoint ci_prefix (phrase s : str) : bool :=
match phrase, s with
| [], _ => true
| c :: phrase', d :: s' => ci_eq c d && ci_prefix phrase' s'
| _ :: _, [] => false
end.

(** [phrase] occurs somewhere in [s], case-insensitively. *)
Fixpoint ci_contains (phrase s : str) : bool :=
ci_prefix phrase s
|| match s with
   | [] => false
   | _ :: s' => ci_contains phrase s'
   end.

(** Length of the match of [\s+] at the head of [s]. *)
Definition mlen_ws (s : str) : option nat :=
match run_len isspace s with
| O => None
| n => Some n
end.

Definition not_gt (c : N) : bool := negb (existsb (N.eqb c) (lit ">")).

(** Length of the match of [<[^>]+>] at the head of [s]. *)
Definition mlen_tag (s : str) : option nat :=
match s with
| c :: s1 =>
  if (60 =? c)%N then
    match run_len not_gt s1 with
    | O => None
    | n =>
      match skipn n s1 with
      | d :: _ => if (62 =? d)%N then Some (n + 2) else None
      | [] => None
      end
    end
  else None
| [] => None
end.

(** Length of the match of an escaped phrase at the head of [s]. *)
Definition mlen_lit (phrase s : str) : option nat :=
if ci_prefix phrase s then Some (List.length phrase) else None.

(** [r], tried at the head of any text, matches what [mlen] says. *)
Definition matches_as (r : regex) (mlen : str -> option nat) : Prop :=
forall ma p pv s,
  match mlen s with
  | Some n =>
    0 < n /\ n <= List.length s
    /\ exists e, match_here r ma (Cursor p s pv None) = Some e
                 /\ pos e = p + n /\ rest e = skipn n s
  | None => match_here r ma (Cursor p s pv None) = None
  end.

(** The pattern [<[^>]+>] as the matcher sees it. *)
Definition tag_pattern : regex :=
Seq (Seq (Chr (N.eqb 60)) Eps)
    (Seq (Seq (Chr not_gt) (Star (Chr not_gt))) (Seq (Chr (N.eqb 62)) Eps)).

Definition closing_gt (k : cursor -> option cursor) (st : cursor) : option cursor :=
match rest st with
| c :: tl => if (62 =? c)%N then k (step st c tl) else None
| [] => None
end.

(** ** Substitution as a scan *)

(** The substitution written as a scan: replace a match by [repl] and go
    on behind it, keep a character where nothing matches. *)
Fixpoint sub_direct (fuel : nat) (mlen : str -> option nat) (repl s : str) : str :=
match fuel with
| O => s
| S f =>
  match s with
  | [] => []
  | c :: s' =>
    match mlen s with
    | Some n => repl ++ sub_direct f mlen repl (skipn n s)
    | None => c :: sub_direct f mlen repl s'
    end
  end
end.

(** Where the pattern matches nowhere the text is returned as it is. *)
Fixpoint unmatched (mlen : str -> option nat) (s : str) : bool :=
match mlen s with
| Some _ => false
| None =>
  match s with
  | [] => true
  | _ :: s' => unmatched mlen s'
  end
end.

(** ** White space *)

(** [re.sub(r'\s+', ' ', s).strip()] *)
Definition squeeze (s : str) : str := strip (sub (Plus ws) (lit " ") s).

(** Every white space character is a single space, not followed by
    another white space character. *)
Fixpoint squeezed (s : str) : Prop :=
match s with
| [] => True
| c :: s' =>
  (isspace c = true ->
   c = 32%N /\ match s' with d :: _ => isspace d = false | [] => True end)
  /\ squeezed s'
end.

(** Squeezed, and no white space at the end. *)
Fixpoint tidy (s : str) : Prop :=
match s with
| [] => True
| c :: s' =>
  (isspace c = true ->
   c = 32%N /\ match s' with d :: _ => isspace d = false | [] => False end)
  /\ tidy s'
end.

(** The texts [squeeze] returns: tidy, and no white space in front. *)
Definition normal (s : str) : Prop :=
tidy s /\ match s with c :: _ => isspace c = false | [] => True end.

(** The last character of [s] is in the class [p]. *)
Fixpoint last_in (p : N -> bool) (s : str) : bool :=
match s with
| [] => false
| c :: s' =>
  match s' with
  | [] => p c
  | _ :: _ => last_in p s'
  end
end.

(** ** Markup tags *)

Definition is_lt (c : N) : bool := (60 =? c)%N.
Definition is_gt (c : N) : bool := (62 =? c)%N.
Definition has_gt (s : str) : bool := existsb is_gt s.
Definition has_lt (s : str) : bool := existsb is_lt s.
Definition starts_gt (s : str) : bool :=
match s with
| c :: _ => is_gt c
| [] => false
end.

(** No [<[^>]+>] anywhere: every [<] is directly followed by [>] or has
    no [>] behind it at all. *)
Fixpoint tagfree (s : str) : Prop :=
match s with
| [] => True
| c :: s' => (is_lt c = true -> starts_gt s' = true \/ has_gt s' = false) /\ tagfree s'
end.

(** ** The name cleaner *)

(** The punctuation [rstrip('.,;:')] removes. *)
Definition trailing_punct (c : N) : bool := existsb (N.eqb c) (lit ".,;:").

(** The loop over [cleanup_phrases]. *)
Definition remove_phrases (phrases : list str) (s : str) : str :=
fold_left (fun cleaned phrase => sub (LitI_str phrase) [] cleaned) phrases s.

(** A phrase that cannot match at a [<] or a [>]. *)
Definition plain_phrase (phrase : str) : Prop :=
phrase <> []
/\ forall c s, is_lt c = true \/ is_gt c = true -> ci_prefix phrase (c :: s) = false.

(** ** Whole words *)

Definition word_char (c : option N) : bool :=
match c with
| Some c => isword c
| None => false
end.

(** [\b] between two neighbours, [None] standing for an end of the
    text: one of them is a word character, the other is not. *)
Definition boundary (before after : option N) : bool :=
xorb (word_char before) (word_char after).

(** [word], in any letter case, stands at the head of [s] between two
    word boundaries; [pv] is the character before [s]. *)
Definition whole_word_at (word : str) (pv : option N) (s : str) : bool :=
boundary pv (hd_error s)
&& ci_prefix word s
&& boundary (nth_error s (pred (List.length word))) (nth_error s (List.length word)).

(** [word] stands somewhere in [s] as a whole word. *)
Fixpoint whole_word_in (word : str) (pv : option N) (s : str) : bool :=
whole_word_at word pv s
|| match s with
   | [] => false
   | c :: s' => whole_word_in word (Some c) s'
   end.

(** Length of the match of [\bword\b] at the head of [s]. *)
Definition mlen_word (word : str) (pv : option N) (s : str) : option nat :=
if whole_word_at word pv s then Some (List.length word) else None.

(** [r], tried at the head of any text, matches what [mlen] says, which
    may depend on the character before the text. *)
Definition matches_in_context (r : regex) (mlen : option N -> str -> option nat)
  : Prop :=
forall ma p pv s,
  match mlen pv s with
  | Some n =>
    0 < n /\ n <= List.length s
    /\ exists e, match_here r ma (Cursor p s pv None) = Some e
                 /\ pos e = p + n /\ rest e = skipn n s
                 /\ prev e = nth_error s (pred n)
  | None => match_here r ma (Cursor p s pv None) = None
  end.

(** The substitution as a scan that keeps track of the character before
    the place it looks at. *)
Fixpoint sub_scan (fuel : nat) (mlen : option N -> str -> option nat)
  (repl : str) (pv : option N) (s : str) : str :=
match fuel with
| O => s
| S f =>
  match s with
  | [] => []
  | c :: s' =>
    match mlen pv s with
    | Some n => repl ++ sub_scan f mlen repl (nth_error s (pred n)) (skipn n s)
    | None => c :: sub_scan f mlen repl (Some c) s'
    end
  end
end.

(** The loop over [words_to_remove]. *)
Definition remove_words (words : list string) (s : str) : str :=
fold_left (fun name word => sub (Seqs [Bnd; LitI word; Bnd]) [] name) words s.

(** ** The text normaliser *)

(** Neither [<] nor [&] occurs in [s]. *)
Definition markup_free (s : str) : bool :=
forallb (fun c => negb ((c =? 60) || (c =? 38))%N) s.

(** A parser that returns text without markup characters, not starting
    with white space, as one string. *)
Definition keeps_plain_text (html_parser : str -> Soup.soup) : Prop :=
forall c t,
  isspace c = false -> markup_free (c :: t) = true ->
  html_parser (c :: t) = [Soup.NavigableString (c :: t)].

(** ** Further vocabulary: texts and URLs *)

(** [n] occurs in [s], as a run of consecutive characters. *)
Definition substring (n s : str) : Prop := exists pre post, s = pre ++ n ++ post.

(** [u.startswith(('http://', 'https://'))] *)
Definition absolute_url (u : str) : bool :=
startswith (lit "http://") u || startswith (lit "https://") u.

(** ** Further vocabulary: the key normaliser *)

(** The length of the match of a one-character class at the start of
    [s]. *)
Definition mlen_chr (p : N -> bool) (s : str) : option nat :=
match s with
| c :: _ => if p c then Some 1 else None
| [] => None
end.

(** [[^\w\s]] *)
Definition punctuation (c : N) : bool := negb (isword c || isspace c).

(** The loop over the legal suffixes in [_normalize_company_name]. *)
Definition strip_suffixes (suffixes : list str) (s : str) : str :=
fold_left (fun normalized suffix =>
  if endswith suffix normalized
  then strip (drop_last (List.length suffix) normalized)
  else normalized) suffixes s.

(** The body of an answer of status 200: what the fetchers that catch
    every exception make of the outcome of a request. *)
Definition page_of (o : outcome) : option str :=
match o with
| Response code text => if (code =? 200)%Z then Some text else None
| ConnectionError | Timeout | RequestException | OtherException _ => None
end.

(** The sleeps of the loop of [extract_from_domains] a list of results
    accounts for: one for every record but the last that is not an error
    record of the [except] branch. *)
Fixpoint pauses (results : list RunExtractor.entry) : nat :=
match results with
| [] => 0
| r :: rest =>
  match rest with
  | [] => 0
  | _ :: _ =>
    (match RunExtractor.error_text r with None => 1 | Some _ => 0 end) + pauses rest
  end
end.

(** A web that serves a homepage on https://example.com, a policy page
    on https://example.com/privacy and nothing else. *)
Definition policy_site (homepage policy : str) : web :=
fun _ url =>
  if str_eqb url (lit "https://example.com") then Response 200 homepage
  else if str_eqb url (lit "https://example.com/privacy") then Response 200 policy
  else Response 404 [].

(** A text line as [extract_text_from_html] of policy_scraper_simple.py
    leaves it: not empty, no white space at either end, no two spaces in
    a row, no line boundary inside. *)
Definition clean_line (chunk : str) : Prop :=
chunk <> [] /\ strip chunk = chunk /\ contains (lit "  ") chunk = false
/\ Forall (fun c => PolicyScraperSimple.linebreak c = false) chunk.

(* ================================================================== *)
(** * Properties of the pipeline *)

(** ** Fetching *)

Section Fetching.

Variable w : web.

Lemma returned_inj : forall (A : Type) (a b : A), Returned a = Returned b -> a = b.
Proof. intros A a b H. now injection H. Qed.

Lemma after_0 : forall s url, after s url 0 0 = s.
Proof.
  intros [rq sl] url. unfold after. simpl.
  now rewrite app_nil_r, Nat.add_0_r.
Qed.

Lemma fetch_attempts_retry : forall k m url s,
  (forall j, j < k -> retryable (w (List.length (requests s) + j) url) = true) ->
  CompanyNameExtractor.fetch_attempts w (k + m) url s
  = CompanyNameExtractor.fetch_attempts w m url (after s url k k).
Proof.
  induction k as [|k IH]; intros m url s Hretry.
  - now rewrite after_0.
  - cbn [Nat.add CompanyNameExtractor.fetch_attempts get].
    assert (H0 := Hretry 0 (Nat.lt_0_succ k)). rewrite Nat.add_0_r in H0.
    assert (Hnext :
      CompanyNameExtractor.fetch_attempts w (k + m) url
        (sleep (IO (requests s ++ [url]) (sleeps s)))
      = CompanyNameExtractor.fetch_attempts w m url (after s url (S k) (S k))).
    { rewrite IH.
      - f_equal. unfold after, sleep. cbn [requests sleeps repeat].
        rewrite <- app_assoc. cbn [app]. f_equal. lia.
      - intros j Hj. cbn [sleep requests]. rewrite length_app. cbn [List.length].
        replace (List.length (requests s) + 1 + j)
          with (List.length (requests s) + S j) by lia.
        apply Hretry. lia. }
    destruct (w (List.length (requests s)) url) as [code text| | | |message];
      try exact Hnext; [|discriminate H0].
    cbn [retryable] in H0.
    destruct (code =? 200)%Z; [discriminate|].
    destruct (code =? 403)%Z; [discriminate|].
    destruct (code =? 404)%Z; [discriminate|].
    exact Hnext.
Qed.

Lemma fetch_attempts_no_200 : forall m url s,
  (forall n text, w n url <> Response 200 text) ->
  match fst (CompanyNameExtractor.fetch_attempts w m url s) with
  | Returned content => content = None
  | Raised message => exists n, w n url = OtherException message
  end.
Proof.
  induction m as [|m IH]; intros url s Hno; [reflexivity|].
  cbn [CompanyNameExtractor.fetch_attempts get].
  destruct (w (List.length (requests s)) url) as [code text| | | |message] eqn:Ho;
    try (apply IH; assumption).
  - destruct (code =? 200)%Z eqn:H200.
    + apply Z.eqb_eq in H200. subst code. now apply Hno in Ho.
    + destruct (code =? 403)%Z; [reflexivity|].
      destruct (code =? 404)%Z; [reflexivity|].
      apply IH; assumption.
  - cbn [fst]. eauto.
Qed.

Lemma fetch_first_no_200 : forall urls s,
  (forall url, In url urls -> forall n text, w n url <> Response 200 text) ->
  match fst (CompanyNameExtractor.fetch_first w urls s) with
  | Returned homepage => homepage = None
  | Raised message => exists url n, In url urls /\ w n url = OtherException message
  end.
Proof.
  induction urls as [|url urls IH]; intros s Hno; [reflexivity|].
  cbn [CompanyNameExtractor.fetch_first].
  assert (Hf := fetch_attempts_no_200 CompanyNameExtractor.max_retries url s
                  (Hno url (or_introl eq_refl))).
  fold (CompanyNameExtractor.fetch_url w url s) in Hf.
  destruct (CompanyNameExtractor.fetch_url w url s) as [[content|message] s1];
    cbn [fst] in Hf.
  - subst content. cbn [truthy].
    assert (Hrest := IH s1 (fun u Hu => Hno u (or_intror Hu))).
    destruct (fst (CompanyNameExtractor.fetch_first w urls s1)) as [homepage|message];
      [exact Hrest|].
    destruct Hrest as (u & n & Hu & Hw). exists u, n. split; [now right | exact Hw].
  - destruct Hf as [n Hn]. exists url, n. split; [now left | exact Hn].
Qed.

Lemma try_urls_no_200 : forall urls s,
  (forall url, In url urls -> forall n text, w n url <> Response 200 text) ->
  fst (DomainAnalyzer.try_urls w urls s) = None.
Proof.
  induction urls as [|url urls IH]; intros s Hno; [reflexivity|].
  cbn [DomainAnalyzer.try_urls get].
  assert (Hrest : forall s', fst (DomainAnalyzer.try_urls w urls s') = None).
  { intros s'. apply IH. intros u Hu. apply Hno. now right. }
  destruct (w (List.length (requests s)) url) as [code text| | | |message] eqn:Ho;
    try apply Hrest.
  destruct (code =? 200)%Z eqn:H200; [|apply Hrest].
  apply Z.eqb_eq in H200. subst code.
  exfalso. eapply Hno; [left; reflexivity | exact Ho].
Qed.

End Fetching.

(** C8. [fetch_url] of company_name_extractor.py.  Let the first [k]
    attempts for [url] end in outcomes that are retried (a status other
    than 200, 403, 404, or a request exception), with [k] below the
    maximum retry count.  If attempt [k] answers 200, its body is returned
    at once, after [k+1] requests.  If it answers 403 or 404, the fetch
    fails after [k+1] requests, without a further attempt, and the
    caller's loop over the candidate URLs goes on with the next URL.  If it
    is retried too and was the last attempt allowed, the fetch fails after
    exactly [max_retries] requests. *)
Theorem fetch_url_retry_policy :
  forall (w : web) (url : str) (s : io) (k : nat),
    k < CompanyNameExtractor.max_retries ->
    (forall j, j < k -> retryable (w (List.length (requests s) + j) url) = true) ->
    (forall text,
        w (List.length (requests s) + k) url = Response 200 text ->
        CompanyNameExtractor.fetch_url w url s
        = (Returned (Some text), after s url (S k) k))
    /\ (forall code text,
        w (List.length (requests s) + k) url = Response code text ->
        code = 403%Z \/ code = 404%Z ->
        CompanyNameExtractor.fetch_url w url s = (Returned None, after s url (S k) k)
        /\ forall rest,
            CompanyNameExtractor.fetch_first w (url :: rest) s
            = CompanyNameExtractor.fetch_first w rest (after s url (S k) k))
    /\ (retryable (w (List.length (requests s) + k) url) = true ->
        S k = CompanyNameExtractor.max_retries ->
        CompanyNameExtractor.fetch_url w url s
        = (Returned None, after s url CompanyNameExtractor.max_retries
                                CompanyNameExtractor.max_retries)).
Proof.
  intros w url s k Hk Hretry.
  assert (Hsplit : CompanyNameExtractor.max_retries
                   = k + S (CompanyNameExtractor.max_retries - S k)) by lia.
  assert (Hrun : CompanyNameExtractor.fetch_url w url s
                 = CompanyNameExtractor.fetch_attempts w
                     (S (CompanyNameExtractor.max_retries - S k)) url
                     (after s url k k)).
  { unfold CompanyNameExtractor.fetch_url. rewrite Hsplit at 1.
    now apply fetch_attempts_retry. }
  assert (Hlen : List.length (requests (after s url k k))
                 = List.length (requests s) + k).
  { unfold after. cbn [requests]. now rewrite length_app, repeat_length. }
  assert (Hstep : IO (requests (after s url k k) ++ [url]) (sleeps (after s url k k))
                  = after s url (S k) k).
  { unfold after. cbn [requests sleeps]. rewrite <- app_assoc. f_equal. f_equal.
    clear. induction k; cbn; [reflexivity | now f_equal]. }
  repeat split.
  - intros text H200. rewrite Hrun.
    cbn [CompanyNameExtractor.fetch_attempts get]. rewrite Hlen, Hstep, H200.
    reflexivity.
  - rewrite Hrun. cbn [CompanyNameExtractor.fetch_attempts get].
    rewrite Hlen, Hstep, H. destruct H0; subst code; reflexivity.
  - intros rest. cbn [CompanyNameExtractor.fetch_first]. rewrite Hrun.
    cbn [CompanyNameExtractor.fetch_attempts get].
    rewrite Hlen, Hstep, H. destruct H0; subst code; reflexivity.
  - intros Hlast Hmax. rewrite Hrun.
    replace (CompanyNameExtractor.max_retries - S k) with 0 by lia.
    cbn [CompanyNameExtractor.fetch_attempts get]. rewrite Hlen, Hstep.
    assert (Hend : sleep (after s url (S k) k)
                   = after s url CompanyNameExtractor.max_retries
                                 CompanyNameExtractor.max_retries).
    { rewrite <- Hmax. unfold sleep, after. cbn [requests sleeps]. f_equal. lia. }
    destruct (w (List.length (requests s) + k) url) as [code text| | | |message];
      try (now rewrite Hend); [|discriminate Hlast].
    cbn [retryable] in Hlast.
    destruct (code =? 200)%Z; [discriminate|].
    destruct (code =? 403)%Z; [discriminate|].
    destruct (code =? 404)%Z; [discriminate|].
    now rewrite Hend.
Qed.

(** A server that answers 500 once and 404 from then on: the second
    attempt ends the fetch. *)
Lemma fetch_url_retry_policy_witness :
  CompanyNameExtractor.fetch_url
    (fun n _ => match n with O => Response 500 [] | _ => Response 404 [] end)
    (lit "https://example.com") io0
  = (Returned None, IO [lit "https://example.com"; lit "https://example.com"] 1).
Proof.
  refine (proj1 (proj1 (proj2 (fetch_url_retry_policy
            (fun n _ => match n with O => Response 500 [] | _ => Response 404 [] end)
            (lit "https://example.com") io0 1 _ _)) 404%Z [] _ _)).
  - unfold CompanyNameExtractor.max_retries. lia.
  - intros j Hj. destruct j; [reflexivity | lia].
  - reflexivity.
  - right. reflexivity.
Defined.

(** C3.  The host name a..b cannot be parsed: the request raises an
    exception that is not a [RequestException].  No URL answers 200, yet
    the extractor of company_name_extractor.py returns no result: its
    [fetch_url] catches the classes of [requests.exceptions] only, and the
    exception of the first request reaches the caller.  The analyzer of
    domain_analyzer.py, which catches every exception, tries the four
    candidates and returns the error result. *)
Theorem uncaught_exception_reaches_caller :
  forall html_parser : str -> Soup.soup,
    (forall url n text, unparsable n url <> Response 200 text)
    /\ CompanyNameExtractor.extract_company_name unparsable html_parser
         (lit "a..b") io0
       = (Raised (lit "Failed to parse: 'a..b', label empty or too long"),
          IO [lit "https://a..b"] 0)
    /\ DomainAnalyzer.analyze_domain unparsable (lit "a..b") io0
       = (DomainAnalyzer.Result (lit "a..b") error None,
          IO [lit "https://a..b"; lit "http://a..b"; lit "https://www.a..b";
              lit "http://www.a..b"] 0).
Proof.
  intros html_parser. split; [intros url n text H; discriminate H|].
  split; vm_compute; reflexivity.
Qed.

(** X26.  When no candidate URL of the domain ever answers 200, the
    analyzer of domain_analyzer.py returns the error result, whatever
    the requests raise.  The extractor of company_name_extractor.py
    returns the error result too unless a request for one of the
    candidates raises an exception that is not a [RequestException]; that
    exception is then what the call ends with. *)
Theorem unreachable_domain_gives_error :
  forall (w : web) (html_parser : str -> Soup.soup) (domain : str) (s : io),
    (forall url, In url (CompanyNameExtractor.homepage_urls domain) ->
                 forall n text, w n url <> Response 200 text) ->
    fst (DomainAnalyzer.analyze_domain w domain s)
    = DomainAnalyzer.Result domain error None
    /\ match fst (CompanyNameExtractor.extract_company_name w html_parser domain s) with
       | Returned r => r = CompanyNameExtractor.Result domain error None
       | Raised message =>
         exists url n,
           In url (CompanyNameExtractor.homepage_urls domain)
           /\ w n url = OtherException message
       end.
Proof.
  intros w html_parser domain s Hno.
  assert (H1 := fetch_first_no_200 w (CompanyNameExtractor.homepage_urls domain) s Hno).
  assert (H2 := try_urls_no_200 w (DomainAnalyzer.homepage_urls domain) s Hno).
  unfold CompanyNameExtractor.extract_company_name, DomainAnalyzer.analyze_domain,
    DomainAnalyzer.fetch_homepage.
  destruct (CompanyNameExtractor.fetch_first w _ s) as [[homepage|message] s1];
    destruct (DomainAnalyzer.try_urls w _ s) as [content s2];
    cbn [fst] in H1, H2; subst content; cbn [truthy negb fst].
  - subst homepage. split; reflexivity.
  - split; [reflexivity | exact H1].
Qed.

(** A web on which every request is refused with 503. *)
Lemma unreachable_domain_gives_error_witness :
  fst (DomainAnalyzer.analyze_domain (fun _ _ => Response 503 []) (lit "example.com") io0)
  = DomainAnalyzer.Result (lit "example.com") error None
  /\ match fst (CompanyNameExtractor.extract_company_name (fun _ _ => Response 503 [])
                  Soup.html_parser (lit "example.com") io0) with
     | Returned r => r = CompanyNameExtractor.Result (lit "example.com") error None
     | Raised message =>
       exists url n,
         In url (CompanyNameExtractor.homepage_urls (lit "example.com"))
         /\ (fun (_ : nat) (_ : str) => Response 503 []) n url = OtherException message
     end.
Proof.
  apply (unreachable_domain_gives_error (fun _ _ => Response 503 [])
           Soup.html_parser (lit "example.com") io0).
  intros url _ n text H. discriminate H.
Defined.

(** C10. Whatever the web answers, the result of a domain analysis has
    status "analyzed" or "error": the "pending" the record starts with is
    overwritten on every return path of company_name_extractor.py, and
    domain_analyzer.py and improved_analyzer.py only build results with
    one of the two. *)
Theorem status_is_never_pending :
  forall (w : web) (html_parser : str -> Soup.soup) (domain : str) (s : io),
    (forall r,
        fst (CompanyNameExtractor.extract_company_name w html_parser domain s)
        = Returned r ->
        CompanyNameExtractor.status r = analyzed
        \/ CompanyNameExtractor.status r = error)
    /\ (let st := DomainAnalyzer.status (fst (DomainAnalyzer.analyze_domain w domain s)) in
        st = analyzed \/ st = error)
    /\ (let st := ImprovedAnalyzer.status (fst (ImprovedAnalyzer.analyze_domain w domain s)) in
        st = analyzed \/ st = error).
Proof.
  intros w html_parser domain s. cbv zeta. repeat split.
  - intros r H. unfold CompanyNameExtractor.extract_company_name in H.
    destruct (CompanyNameExtractor.fetch_first w _ s)
      as [[[[url content]|]|message] s1]; [| |discriminate H].
    + destruct (truthy (CompanyNameExtractor.extract_company_name_from_text content)).
      * cbn [fst] in H. apply returned_inj in H. subst r. left. reflexivity.
      * destruct (CompanyNameExtractor.check_policy_urls w html_parser _ s1)
          as [[[name|]|message] s2]; [| |discriminate H];
          cbn [fst] in H; apply returned_inj in H; subst r; left; reflexivity.
    + cbn [fst] in H. apply returned_inj in H. subst r. right. reflexivity.
  - unfold DomainAnalyzer.analyze_domain.
    destruct (DomainAnalyzer.fetch_homepage w domain s) as [content s1].
    destruct (negb (truthy content)); [right | left]; reflexivity.
  - unfold ImprovedAnalyzer.analyze_domain.
    destruct (ImprovedAnalyzer.fetch_homepage w domain s) as [[[url content]|] s1];
      [left | right]; reflexivity.
Qed.

(** C4.  For the domain "www.example.org" the candidate list of
    company_name_extractor.py holds the two www URLs only; the
    www-stripped variants, which improved_analyzer.py puts third and
    fourth, are missing.  On a web where only https://example.org
    answers, the extractor never requests it and reports an error, while
    the analyzer of improved_analyzer.py reaches it. *)
Theorem homepage_urls_www_example_org :
  let only_stripped : web :=
    fun _ url => if str_eqb url (lit "https://example.org")
                 then Response 200 (lit "ok") else ConnectionError in
  CompanyNameExtractor.homepage_urls (lit "www.example.org")
  = [lit "https://www.example.org"; lit "http://www.example.org"]
  /\ ImprovedAnalyzer.homepage_urls (lit "www.example.org")
     = [lit "https://www.example.org"; lit "http://www.example.org";
        lit "https://example.org"; lit "http://example.org"]
  /\ (forall html_parser : str -> Soup.soup,
         let run := CompanyNameExtractor.extract_company_name
                      only_stripped html_parser (lit "www.example.org") io0 in
         fst run
         = Returned (CompanyNameExtractor.Result (lit "www.example.org") error None)
         /\ ~ In (lit "https://example.org") (requests (snd run)))
  /\ ImprovedAnalyzer.status
       (fst (ImprovedAnalyzer.analyze_domain only_stripped
               (lit "www.example.org") io0))
     = analyzed.
Proof.
  cbv zeta. split; [reflexivity|]. split; [reflexivity|]. split.
  - intros html_parser. split; [vm_compute; reflexivity|].
    vm_compute. intuition discriminate.
  - vm_compute. reflexivity.
Qed.

(** ** Aggregation of candidates *)

Section Aggregation.

Import CompanyNameExtractor.

Lemma str_eqb_true : forall a b, str_eqb a b = true <-> a = b.
Proof.
  intros a b. unfold str_eqb. destruct (list_eq_dec N.eq_dec a b); split; congruence.
Qed.

Lemma str_eqb_false : forall a b, str_eqb a b = false <-> a <> b.
Proof.
  intros a b. unfold str_eqb. destruct (list_eq_dec N.eq_dec a b); split; congruence.
Qed.

Lemma str_eqb_refl : forall a, str_eqb a a = true.
Proof. intros a. now apply str_eqb_true. Qed.

Lemma stored_bump : forall k k' counts,
  stored k' (bump k counts)
  = if str_eqb k k' then S (stored k' counts) else stored k' counts.
Proof.
  intros k k' counts. induction counts as [|[k0 n] rest IH]; cbn [bump stored].
  - destruct (str_eqb k k'); reflexivity.
  - destruct (str_eqb k0 k) eqn:E0; cbn [stored].
    + apply str_eqb_true in E0. subst k0. destruct (str_eqb k k'); reflexivity.
    + destruct (str_eqb k0 k') eqn:E1; [|exact IH].
      apply str_eqb_true in E1. subst k0.
      assert (str_eqb k k' = false) as ->; [|reflexivity].
      apply str_eqb_false. apply str_eqb_false in E0. congruence.
Qed.

Lemma keys_bump : forall k counts,
  map fst (bump k counts)
  = map fst counts ++ (if existsb (str_eqb k) (map fst counts) then [] else [k]).
Proof.
  intros k counts. induction counts as [|[k0 n] rest IH]; cbn [bump map fst existsb app].
  - reflexivity.
  - destruct (str_eqb k0 k) eqn:E0.
    + apply str_eqb_true in E0. subst k0. rewrite str_eqb_refl.
      cbn [orb map fst]. now rewrite app_nil_r.
    + assert (E1 : str_eqb k k0 = false).
      { apply str_eqb_false. apply str_eqb_false in E0. congruence. }
      rewrite E1. cbn [orb map fst]. now rewrite IH.
Qed.

Lemma existsb_str_eqb : forall k l, existsb (str_eqb k) l = true <-> In k l.
Proof.
  intros k l. rewrite existsb_exists. split.
  - intros (x & Hx & E). apply str_eqb_true in E. now subst x.
  - intros H. exists k. split; [assumption | apply str_eqb_refl].
Qed.

Lemma nodup_keys_bump : forall k counts,
  NoDup (map fst counts) -> NoDup (map fst (bump k counts)).
Proof.
  intros k counts Hnd. rewrite keys_bump.
  destruct (existsb (str_eqb k) (map fst counts)) eqn:E.
  - now rewrite app_nil_r.
  - apply NoDup_app; [assumption | repeat constructor; simpl; tauto |].
    intros x Hx [Hk|[]]. subst x.
    apply existsb_str_eqb in Hx. congruence.
Qed.

Lemma in_stored : forall k n counts,
  NoDup (map fst counts) -> In (k, n) counts -> stored k counts = n.
Proof.
  intros k n counts. induction counts as [|[k0 n0] rest IH]; intros Hnd Hin.
  - destruct Hin.
  - cbn [stored]. inversion Hnd as [|? ? Hnotin Hnd']; subst.
    destruct Hin as [Heq|Hin].
    + inversion Heq; subst. now rewrite str_eqb_refl.
    + destruct (str_eqb k0 k) eqn:E.
      * apply str_eqb_true in E. subst k0. exfalso. apply Hnotin.
        change k with (fst (k, n)). now apply in_map.
      * now apply IH.
Qed.

Lemma stored_in : forall k counts,
  In k (map fst counts) -> In (k, stored k counts) counts.
Proof.
  intros k counts. induction counts as [|[k0 n0] rest IH]; intros Hin.
  - destruct Hin.
  - cbn [stored]. destruct (str_eqb k0 k) eqn:E.
    + apply str_eqb_true in E. subst k0. now left.
    + right. apply IH. destruct Hin as [H|H]; [|assumption].
      cbn in H. apply str_eqb_false in E. congruence.
Qed.

Lemma stored_tally_from : forall ks counts k,
  stored k (tally_from counts ks) = stored k counts + occurrences k ks.
Proof.
  induction ks as [|k0 ks IH]; intros counts k; cbn [tally_from fold_left].
  - unfold occurrences. cbn. lia.
  - fold (tally_from (bump k0 counts) ks). rewrite IH, stored_bump.
    unfold occurrences. cbn [count_occ].
    destruct (str_dec k0 k) as [E|E].
    + subst k0. rewrite str_eqb_refl. lia.
    + apply str_eqb_false in E. rewrite E. lia.
Qed.

Lemma nodup_tally_from : forall ks counts,
  NoDup (map fst counts) -> NoDup (map fst (tally_from counts ks)).
Proof.
  induction ks as [|k0 ks IH]; intros counts Hnd; [assumption|].
  cbn [tally_from fold_left]. apply IH. now apply nodup_keys_bump.
Qed.

Lemma keys_tally_from : forall ks counts,
  exists extra,
    map fst (tally_from counts ks) = map fst counts ++ extra
    /\ forall k, In k extra -> In k ks.
Proof.
  induction ks as [|k0 ks IH]; intros counts.
  - exists []. split; [now rewrite app_nil_r | intros k []].
  - cbn [tally_from fold_left]. destruct (IH (bump k0 counts)) as (extra & Hk & Hin).
    fold (tally_from (bump k0 counts) ks). rewrite Hk, keys_bump.
    destruct (existsb (str_eqb k0) (map fst counts)).
    + exists extra. rewrite app_nil_r. split; [reflexivity|].
      intros k H. right. now apply Hin.
    + exists (k0 :: extra). rewrite <- app_assoc. split; [reflexivity|].
      intros k [H|H]; [now left | right; now apply Hin].
Qed.

Lemma tally_keys_in : forall ks k, In k (map fst (tally ks)) -> In k ks.
Proof.
  intros ks k H. destruct (keys_tally_from ks []) as (extra & Hk & Hin).
  unfold tally in H. fold (tally_from [] ks) in H. rewrite Hk in H. now apply Hin.
Qed.

Lemma tally_count : forall ks k n, In (k, n) (tally ks) -> n = occurrences k ks.
Proof.
  intros ks k n H. unfold tally in H. fold (tally_from [] ks) in H.
  apply in_stored in H; [|apply nodup_tally_from; constructor].
  rewrite stored_tally_from in H. cbn in H. lia.
Qed.

Lemma tally_has : forall ks k, In k ks -> In (k, occurrences k ks) (tally ks).
Proof.
  intros ks k H.
  assert (Hs : stored k (tally ks) = occurrences k ks).
  { unfold tally. fold (tally_from [] ks). now rewrite stored_tally_from. }
  rewrite <- Hs. apply stored_in.
  assert (Hpos : 0 < stored k (tally ks)).
  { rewrite Hs. unfold occurrences. now apply count_occ_In. }
  clear Hs. induction (tally ks) as [|[k0 n0] rest IH]; cbn [stored] in Hpos; [lia|].
  cbn [map fst]. destruct (str_eqb k0 k) eqn:E.
  - apply str_eqb_true in E. now left.
  - right. now apply IH.
Qed.

Lemma insert_desc_nonempty : forall x sorted, insert_desc x sorted <> [].
Proof.
  intros x [|y rest]; cbn [insert_desc]; [discriminate|].
  destruct (snd x <? snd y); discriminate.
Qed.

Lemma sorted_desc_nonempty : forall items, items <> [] -> sorted_desc items <> [].
Proof.
  intros [|y items] H; [congruence|].
  cbn [sorted_desc fold_right]. apply insert_desc_nonempty.
Qed.

(** The first item of the stable descending sort is the first item of
    the largest count. *)
Lemma sorted_desc_head : forall items x,
  hd_error (sorted_desc items) = Some x ->
  exists l1 l2, items = l1 ++ x :: l2
    /\ (forall y, In y l1 -> snd y < snd x)
    /\ (forall y, In y l2 -> snd y <= snd x).
Proof.
  induction items as [|y items IH]; intros x Hx; [discriminate|].
  cbn [sorted_desc fold_right] in Hx. fold (sorted_desc items) in Hx.
  destruct (sorted_desc items) as [|z rest] eqn:Es.
  - cbn [insert_desc hd_error] in Hx. inversion Hx; subst x.
    assert (items = []) as ->.
    { destruct items as [|i items']; [reflexivity|]. exfalso.
      revert Es. apply sorted_desc_nonempty. discriminate. }
    exists [], []. repeat split; intros ? [].
  - destruct (IH z eq_refl) as (l1 & l2 & Hitems & Hl1 & Hl2).
    cbn [insert_desc] in Hx. destruct (snd y <? snd z) eqn:Elt;
      cbn [hd_error] in Hx; inversion Hx; subst x.
    + apply Nat.ltb_lt in Elt. exists (y :: l1), l2. subst items.
      repeat split; [|assumption]. intros u [Hu|Hu]; [now subst u | now apply Hl1].
    + apply Nat.ltb_ge in Elt. exists [], items. repeat split; [intros ? []|].
      subst items. intros u Hu. apply in_app_or in Hu.
      destruct Hu as [Hu|[Hu|Hu]].
      * apply Hl1 in Hu. lia.
      * subst u. assumption.
      * apply Hl2 in Hu. lia.
Qed.

Lemma two_splits : forall (a b : str) l p1 q1 p2 q2,
  l = p1 ++ a :: q1 -> l = p2 ++ b :: q2 -> ~ In b p1 -> a <> b -> In a p2.
Proof.
  intros a b l p1. revert l. induction p1 as [|c p1 IH]; intros l q1 p2 q2 H1 H2 Hb Hab.
  - destruct p2 as [|d p2]; subst l; cbn in H2; inversion H2; [congruence | now left].
  - destruct p2 as [|d p2]; subst l; cbn in H2; inversion H2; subst.
    + exfalso. apply Hb. now left.
    + right. eapply IH; [reflexivity | eassumption | | assumption].
      intros H. apply Hb. now right.
Qed.

Lemma first_before_keys : forall a b ks,
  first_before a b ks ->
  exists t1 t2, map fst (tally ks) = t1 ++ a :: t2 /\ ~ In b t1.
Proof.
  intros a b ks (l1 & l2 & Hks & Ha & Hb). subst ks.
  unfold tally. rewrite fold_left_app. cbn [fold_left].
  fold (tally l1). fold (tally_from (bump a (tally l1)) l2).
  destruct (keys_tally_from l2 (bump a (tally l1))) as (extra & Hk & _).
  rewrite Hk, keys_bump.
  destruct (existsb (str_eqb a) (map fst (tally l1))) eqn:E.
  - apply existsb_str_eqb, tally_keys_in in E. contradiction.
  - exists (map fst (tally l1)), extra. rewrite <- app_assoc. split; [reflexivity|].
    intros H. apply tally_keys_in in H. contradiction.
Qed.

End Aggregation.

(** The selection by count, on any list of forms: the first item of the
    sorted tally is never the later of two tied forms. *)
Lemma selection_tie_break : forall (ks : list str) (a b : str),
  a <> b ->
  first_before a b ks ->
  occurrences a ks = occurrences b ks ->
  exists k n rest,
    CompanyNameExtractor.sorted_desc (CompanyNameExtractor.tally ks) = (k, n) :: rest
    /\ In k ks /\ k <> b
    /\ ((forall k', k' <> a -> k' <> b -> occurrences k' ks < occurrences a ks) ->
        k = a).
Proof.
  intros ks a b Hab Hfirst Hcount.
  assert (Hina : In a ks).
  { destruct Hfirst as (l1 & l2 & -> & _). apply in_or_app. right. now left. }
  destruct (CompanyNameExtractor.sorted_desc (CompanyNameExtractor.tally ks))
    as [|[k n] rest] eqn:E.
  { exfalso. revert E. apply sorted_desc_nonempty.
    intros Hnil. apply tally_has in Hina. rewrite Hnil in Hina. destruct Hina. }
  assert (Hx : hd_error (CompanyNameExtractor.sorted_desc (CompanyNameExtractor.tally ks))
               = Some (k, n)) by now rewrite E.
  destruct (sorted_desc_head _ _ Hx) as (l1 & l2 & Hsplit & Hl1 & Hl2).
  assert (Hkn : In (k, n) (CompanyNameExtractor.tally ks))
    by (rewrite Hsplit; apply in_or_app; right; now left).
  assert (Hkb : k <> b).
  { intros Hk. subst k.
    destruct (first_before_keys _ _ _ Hfirst) as (t1 & t2 & Hkeys & Hbt1).
    assert (Ha1 : In a (map fst l1)).
    { eapply two_splits with (b := b); [exact Hkeys | | exact Hbt1 | exact Hab].
      rewrite Hsplit, map_app. reflexivity. }
    apply in_map_iff in Ha1. destruct Ha1 as ([a' na] & Hfa & Hin1). cbn in Hfa. subst a'.
    assert (Hlt := Hl1 _ Hin1). cbn in Hlt.
    assert (Han : In (a, na) (CompanyNameExtractor.tally ks))
      by (rewrite Hsplit; apply in_or_app; now left).
    apply tally_count in Han, Hkn. lia. }
  exists k, n, rest. split; [reflexivity|]. split; [|split; [exact Hkb|]].
  - apply tally_keys_in. change k with (fst (k, n)). now apply in_map.
  - intros Hothers. destruct (str_dec k a) as [|Hka]; [assumption|]. exfalso.
    assert (Han := tally_has _ _ Hina).
    assert (Hle : occurrences a ks <= n).
    { rewrite Hsplit in Han. apply in_app_or in Han. destruct Han as [H|[H|H]].
      - apply Hl1 in H. cbn in H. lia.
      - inversion H; subst. congruence.
      - apply Hl2 in H. cbn in H. lia. }
    apply tally_count in Hkn. specialize (Hothers k Hka Hkb). lia.
Qed.

Lemma extractor_candidates_of_nil : CompanyNameExtractor.candidates_of [] = [].
Proof. vm_compute. reflexivity. Qed.

Lemma domain_candidates_of_nil : DomainAnalyzer.candidates_of [] = [].
Proof. vm_compute. reflexivity. Qed.

Lemma improved_candidates_of_nil : ImprovedAnalyzer.candidates_of [] = [].
Proof. vm_compute. reflexivity. Qed.

(** What [extract_company_name_from_text] returns: the cleaned key of
    the first item of the sorted tally. *)
Lemma from_text_selects : forall text,
  CompanyNameExtractor.extract_company_name_from_text text
  = match CompanyNameExtractor.sorted_desc
            (CompanyNameExtractor.tally
               (map CompanyNameExtractor._normalize_company_name
                  (CompanyNameExtractor.candidates_of text))) with
    | (best, _) :: _ => CompanyNameExtractor._clean_company_name (Some best)
    | [] => None
    end.
Proof.
  intros [|c t]; [rewrite extractor_candidates_of_nil; reflexivity|].
  unfold CompanyNameExtractor.extract_company_name_from_text.
  destruct (CompanyNameExtractor.candidates_of (c :: t)); reflexivity.
Qed.

Lemma domain_selects : forall text,
  DomainAnalyzer.extract_company_name (Some text)
  = match CompanyNameExtractor.sorted_desc
            (CompanyNameExtractor.tally (DomainAnalyzer.candidates_of text)) with
    | (best, _) :: _ => Some best
    | [] => None
    end.
Proof.
  intros [|c t]; [rewrite domain_candidates_of_nil; reflexivity|].
  unfold DomainAnalyzer.extract_company_name.
  destruct (DomainAnalyzer.candidates_of (c :: t)); reflexivity.
Qed.

Lemma improved_selects : forall text,
  ImprovedAnalyzer.extract_company_name text
  = match CompanyNameExtractor.sorted_desc
            (CompanyNameExtractor.tally (ImprovedAnalyzer.candidates_of text)) with
    | (best, _) :: _ => Some best
    | [] => None
    end.
Proof.
  intros [|c t]; [rewrite improved_candidates_of_nil; reflexivity|].
  unfold ImprovedAnalyzer.extract_company_name.
  destruct (ImprovedAnalyzer.candidates_of (c :: t)); reflexivity.
Qed.

(** C7.  Take the forms the code counts, in the order in which the scan
    of the text produced them: for extract_company_name_from_text the
    normalised keys of the validated captures, for extract_company_name of
    domain_analyzer.py the captures themselves.  Let [a] and [b] be two
    distinct forms with the same number of occurrences, the first
    occurrence of [a] coming before every occurrence of [b].  Then the
    function returns a name, the form at the head of its sorted counts is
    not [b], and when every other form occurs less often than these two
    it is [a]: extract_company_name_from_text returns the cleaned [a],
    extract_company_name returns [a]. *)
Theorem aggregation_tie_break :
  forall text : str,
    (forall a b : str,
        let forms := map CompanyNameExtractor._normalize_company_name
                       (CompanyNameExtractor.candidates_of text) in
        a <> b ->
        first_before a b forms ->
        occurrences a forms = occurrences b forms ->
        (exists k n rest,
            CompanyNameExtractor.sorted_desc (CompanyNameExtractor.tally forms)
            = (k, n) :: rest
            /\ In k forms /\ k <> b
            /\ CompanyNameExtractor.extract_company_name_from_text text
               = CompanyNameExtractor._clean_company_name (Some k))
        /\ ((forall k, k <> a -> k <> b -> occurrences k forms < occurrences a forms) ->
            CompanyNameExtractor.extract_company_name_from_text text
            = CompanyNameExtractor._clean_company_name (Some a)))
    /\ (forall a b : str,
        let forms := DomainAnalyzer.candidates_of text in
        a <> b ->
        first_before a b forms ->
        occurrences a forms = occurrences b forms ->
        (exists k,
            In k forms /\ k <> b
            /\ DomainAnalyzer.extract_company_name (Some text) = Some k)
        /\ ((forall k, k <> a -> k <> b -> occurrences k forms < occurrences a forms) ->
            DomainAnalyzer.extract_company_name (Some text) = Some a)).
Proof.
  intros text. split; intros a b forms Hab Hfirst Hcount;
    destruct (selection_tie_break forms a b Hab Hfirst Hcount)
      as (k & n & rest & Hs & Hin & Hkb & Ha); subst forms.
  - rewrite from_text_selects, Hs. split.
    + exists k, n, rest. repeat split; assumption.
    + intros Hothers. now rewrite (Ha Hothers).
  - rewrite domain_selects, Hs. split.
    + exists k. repeat split; assumption.
    + intros Hothers. now rewrite (Ha Hothers).
Qed.

(** The text "(c) 2023 Beta Ltd|(c) 2024 Gamma Inc|" (with the copyright
    sign): each name is captured by two rules, "Beta Ltd" first. *)
Lemma aggregation_tie_break_witness :
  let text := [169%N] ++ lit " 2023 Beta Ltd|" ++ [169%N] ++ lit " 2024 Gamma Inc|" in
  CompanyNameExtractor.extract_company_name_from_text text
  = CompanyNameExtractor._clean_company_name (Some (lit "beta"))
  /\ DomainAnalyzer.extract_company_name (Some text) = Some (lit "Beta Ltd").
Proof.
  cbv zeta.
  assert (Hcount : forall a b k : str,
            k <> a -> k <> b -> occurrences k [a; b; a; b] < occurrences a [a; b; a; b]).
  { intros a b k Ha Hb. unfold occurrences. cbn [count_occ].
    destruct (str_dec a k) as [E|_]; [congruence|].
    destruct (str_dec b k) as [E|_]; [congruence|].
    destruct (str_dec a a) as [_|E]; [|congruence].
    destruct (str_dec b a); lia. }
  split.
  - refine (proj2 (proj1 (aggregation_tie_break
                            ([169%N] ++ lit " 2023 Beta Ltd|"
                             ++ [169%N] ++ lit " 2024 Gamma Inc|"))
                     (lit "beta") (lit "gamma") _ _ _) _).
    + discriminate.
    + exists [], [lit "gamma"; lit "beta"; lit "gamma"].
      split; [vm_compute; reflexivity|]. split; intros [].
    + vm_compute. reflexivity.
    + replace (map CompanyNameExtractor._normalize_company_name
                 (CompanyNameExtractor.candidates_of
                    ([169%N] ++ lit " 2023 Beta Ltd|"
                     ++ [169%N] ++ lit " 2024 Gamma Inc|")))
        with [lit "beta"; lit "gamma"; lit "beta"; lit "gamma"]
        by (vm_compute; reflexivity).
      apply Hcount.
  - refine (proj2 (proj2 (aggregation_tie_break
                            ([169%N] ++ lit " 2023 Beta Ltd|"
                             ++ [169%N] ++ lit " 2024 Gamma Inc|"))
                     (lit "Beta Ltd") (lit "Gamma Inc") _ _ _) _).
    + discriminate.
    + exists [], [lit "Gamma Inc"; lit "Beta Ltd"; lit "Gamma Inc"].
      split; [vm_compute; reflexivity|]. split; intros [].
    + vm_compute. reflexivity.
    + replace (DomainAnalyzer.candidates_of
                 ([169%N] ++ lit " 2023 Beta Ltd|"
                  ++ [169%N] ++ lit " 2024 Gamma Inc|"))
        with [lit "Beta Ltd"; lit "Gamma Inc"; lit "Beta Ltd"; lit "Gamma Inc"]
        by (vm_compute; reflexivity).
      apply Hcount.
Defined.

(** ** The scenario of the copyright line *)

(** C1.  On the text "(c) 2023 Acme Widgets Ltd. All rights reserved."
    (with the copyright sign) two rules match: the rule that requires a
    legal suffix captures "Acme Widgets Ltd", the rule without suffix
    captures the whole rest of the line.  Both pass validation.  The code
    then returns the cleaned comparison key of the first, "acme widgets",
    in lower case and without its suffix, not "Acme Widgets Ltd". *)
Theorem acme_widgets_scenario :
  let text := [169%N] ++ lit " 2023 Acme Widgets Ltd. All rights reserved." in
  CompanyNameExtractor.candidates_of text
  = [lit "Acme Widgets Ltd"; lit "Acme Widgets Ltd. All rights reserved."]
  /\ CompanyNameExtractor._normalize_company_name (lit "Acme Widgets Ltd")
     = lit "acme widgets"
  /\ CompanyNameExtractor.extract_company_name_from_text text
     = Some (lit "acme widgets")
  /\ CompanyNameExtractor.extract_company_name_from_text text
     <> Some (lit "Acme Widgets Ltd")
  /\ DomainAnalyzer.extract_company_name (Some text) = Some (lit "Acme Widgets Ltd").
Proof.
  cbv zeta. repeat split; try (vm_compute; reflexivity).
  vm_compute. discriminate.
Qed.

(** ** The invariant of the returned name *)

(** C2.  Validation is applied to the raw captures, the name returned is
    what normalisation and cleaning leave of the winner.  A homepage
    "(c) 2023 Abouts Inc" yields the one-character name "s"; a homepage
    "(c) 2023 Cookie  Policy" (two spaces) yields "cookie policy".  The
    analyzer of improved_analyzer.py, which validates after cleaning but
    has no list of suspicious phrases, returns "All Rights Reserved" for
    "(c) 2023 All Rights Reserved". *)
Theorem returned_name_escapes_validation :
  forall html_parser : str -> Soup.soup,
    fst (CompanyNameExtractor.extract_company_name
           (serving ([169%N] ++ lit " 2023 Abouts Inc")) html_parser
           (lit "example.com") io0)
    = Returned (CompanyNameExtractor.Result (lit "example.com") analyzed
                  (Some (lit "s")))
    /\ fst (CompanyNameExtractor.extract_company_name
              (serving ([169%N] ++ lit " 2023 Cookie  Policy")) html_parser
              (lit "example.com") io0)
       = Returned (CompanyNameExtractor.Result (lit "example.com") analyzed
                     (Some (lit "cookie policy")))
    /\ CompanyNameExtractor._validate_company_name (lit "s") = false
    /\ CompanyNameExtractor._validate_company_name (lit "cookie policy") = false
    /\ ImprovedAnalyzer.company_name
         (fst (ImprovedAnalyzer.analyze_domain
                 (serving ([169%N] ++ lit " 2023 All Rights Reserved"))
                 (lit "example.com") io0))
       = Some (lit "All Rights Reserved").
Proof.
  intros html_parser. repeat split; vm_compute; reflexivity.
Qed.

(** ** Link discovery *)

Section LinkDiscovery.

Import CompanyNameExtractor.

Lemma fallback_urls_eq : forall base_url,
  fallback_urls base_url = map (app (site_root base_url)) common_policy_paths.
Proof. intros base_url. reflexivity. Qed.

Lemma common_policy_paths_nodup : NoDup common_policy_paths.
Proof.
  unfold common_policy_paths.
  repeat (constructor; [cbn; intuition discriminate|]). constructor.
Qed.

Lemma fallback_urls_nodup : forall base_url, NoDup (fallback_urls base_url).
Proof.
  intros base_url. rewrite fallback_urls_eq.
  apply Injective_map_NoDup; [|apply common_policy_paths_nodup].
  intros x y H. now apply app_inv_head in H.
Qed.


Lemma append_new : forall (extra urls : list str),
  NoDup extra ->
  fold_left (fun urls u => if listed urls u then urls else urls ++ [u]) extra urls
  = urls ++ filter (fun u => negb (listed urls u)) extra.
Proof.
  induction extra as [|u extra IH]; intros urls Hnd; cbn [fold_left filter].
  - now rewrite app_nil_r.
  - inversion Hnd as [|? ? Hnotin Hnd']; subst.
    destruct (listed urls u) eqn:E; cbn [negb].
    + now apply IH.
    + rewrite IH by assumption. rewrite <- app_assoc. cbn [app]. do 2 f_equal.
      apply filter_ext_in. intros v Hv. f_equal. unfold listed.
      rewrite existsb_app. cbn [existsb]. rewrite orb_false_r.
      replace (str_eqb v u) with false; [now rewrite orb_false_r|].
      symmetry. apply str_eqb_false. intros ->. contradiction.
Qed.

Lemma add_common_paths_eq : forall base_url urls,
  add_common_paths base_url urls
  = urls ++ filter (fun u => negb (listed urls u)) (fallback_urls base_url).
Proof.
  intros base_url urls. rewrite <- append_new by apply fallback_urls_nodup.
  unfold add_common_paths, fallback_urls. generalize common_policy_paths as paths.
  intros paths. revert urls.
  induction paths as [|p paths IH]; intros urls; [reflexivity|].
  cbn [fold_left map]. unfold listed at 1. apply IH.
Qed.

End LinkDiscovery.


(** ** The matcher *)

Section Matcher.












End Matcher.

(** ** The three substitutions of the cleaner, in direct form *)

Section DirectForms.

Lemma walk_rest : forall n st, rest (walk st n) = skipn n (rest st).
Proof.
induction n as [|n IH]; intros st; cbn [walk]; [reflexivity|].
destruct (rest st) as [|c tl] eqn:Er.
- now rewrite Er.
- rewrite IH. reflexivity.
Qed.

Lemma walk_pos : forall n st, n <= List.length (rest st) -> pos (walk st n) = pos st + n.
Proof.
induction n as [|n IH]; intros st Hn; cbn [walk]; [lia|].
destruct (rest st) as [|c tl] eqn:Er; cbn [List.length] in Hn; [lia|].
rewrite IH; cbn [step pos rest]; lia.
Qed.

Lemma run_len_le : forall p s, run_len p s <= List.length s.
Proof.
intros p. induction s as [|c s IH]; cbn [run_len List.length]; [lia|].
destruct (p c); lia.
Qed.

Lemma run_len_stop : forall p s c tl,
  skipn (run_len p s) s = c :: tl -> p c = false.
Proof.
intros p. induction s as [|d s IH]; intros c tl H; cbn [run_len] in H.
- discriminate.
- destruct (p d) eqn:Ed.
  + cbn [skipn] in H. eapply IH. eassumption.
  + cbn [skipn] in H. inversion H; subst. assumption.
Qed.

Lemma run_len_inside : forall p s j,
  j < run_len p s -> exists c tl, skipn j s = c :: tl /\ p c = true.
Proof.
intros p. induction s as [|d s IH]; intros j Hj; cbn [run_len] in Hj; [lia|].
destruct (p d) eqn:Ed; [|lia].
destruct j as [|j].
- exists d, s. split; [reflexivity | assumption].
- cbn [skipn]. apply IH. lia.
Qed.

Lemma star_chr : forall p k fuel st,
  List.length (rest st) < fuel ->
  star_loop (run (Chr p)) k fuel st = greedy p k (rest st) st.
Proof.
intros p k. induction fuel as [|f IH]; intros st Hlt; [lia|].
cbn [star_loop run]. destruct (rest st) as [|c tl] eqn:Er; cbn [greedy].
- reflexivity.
- destruct (p c); [|reflexivity].
  cbn [step pos]. replace (pos st <? S (pos st)) with true
    by (symmetry; apply Nat.ltb_lt; lia).
  change (Cursor (S (pos st)) tl (Some c) (grp st)) with (step st c tl).
  rewrite IH; [reflexivity|]. cbn [step rest]. cbn [List.length] in Hlt. lia.
Qed.

Lemma run_star_chr : forall p k st,
  run (Star (Chr p)) k st = greedy p k (rest st) st.
Proof. intros p k st. cbn [run]. apply star_chr. lia. Qed.

Lemma greedy_hit : forall p k s st e,
  rest st = s -> k (walk st (run_len p s)) = Some e -> greedy p k s st = Some e.
Proof.
intros p k. induction s as [|c tl IH]; intros st e Hr Hk; cbn [greedy run_len] in *.
- exact Hk.
- destruct (p c); [|exact Hk].
  cbn [walk] in Hk. rewrite Hr in Hk.
  rewrite (IH (step st c tl) e); [reflexivity | reflexivity | exact Hk].
Qed.

Lemma greedy_miss : forall p k s st,
  rest st = s -> (forall j, j <= run_len p s -> k (walk st j) = None) ->
  greedy p k s st = None.
Proof.
intros p k. induction s as [|c tl IH]; intros st Hr Hk; cbn [greedy run_len] in *.
- apply (Hk 0). lia.
- destruct (p c).
  + rewrite IH; [apply (Hk 0); lia | reflexivity |].
    intros j Hj. specialize (Hk (S j)). cbn [walk] in Hk. rewrite Hr in Hk.
    apply Hk. lia.
  + apply (Hk 0). lia.
Qed.

Lemma run_lit : forall phrase k st,
  run (LitI_str phrase) k st
  = if ci_prefix phrase (rest st) then k (walk st (List.length phrase)) else None.
Proof.
induction phrase as [|c phrase IH]; intros k st; cbn [LitI_str fold_right run].
- reflexivity.
- fold (LitI_str phrase). cbn [ci_prefix List.length walk].
  destruct (rest st) as [|d tl]; [reflexivity|].
  destruct (ci_eq c d); [|reflexivity]. cbn [andb]. rewrite IH. reflexivity.
Qed.

Lemma ci_prefix_length : forall phrase s,
  ci_prefix phrase s = true -> List.length phrase <= List.length s.
Proof.
induction phrase as [|c phrase IH]; intros s H; cbn [List.length]; [lia|].
destruct s as [|d s]; cbn [ci_prefix] in H; [discriminate|].
apply andb_prop in H. destruct H as [_ H]. apply IH in H. cbn [List.length]. lia.
Qed.

Lemma accept_advanced : forall ma p e,
  p < pos e -> (if ma && (pos e =? p) then None else Some e) = Some e.
Proof.
intros ma p e H. replace (pos e =? p) with false
  by (symmetry; apply Nat.eqb_neq; lia).
now rewrite andb_false_r.
Qed.

Lemma matches_lit : forall phrase,
  phrase <> [] -> matches_as (LitI_str phrase) (mlen_lit phrase).
Proof.
intros phrase Hne ma p pv s. unfold mlen_lit, match_here.
rewrite run_lit. cbn [rest pos]. destruct (ci_prefix phrase s) eqn:Ep; [|reflexivity].
assert (Hlen := ci_prefix_length _ _ Ep).
assert (Hpos : 0 < List.length phrase) by (destruct phrase; [congruence | cbn; lia]).
repeat split; try assumption.
exists (walk (Cursor p s pv None) (List.length phrase)).
rewrite walk_rest. split; [|split; [|reflexivity]].
- apply accept_advanced. rewrite walk_pos; cbn [pos rest]; lia.
- rewrite walk_pos; cbn [pos rest]; lia.
Qed.

Lemma run_seq : forall a b k st, run (Seq a b) k st = run a (run b k) st.
Proof. reflexivity. Qed.

Lemma run_chr : forall p k st,
  run (Chr p) k st
  = match rest st with
    | c :: tl => if p c then k (step st c tl) else None
    | [] => None
    end.
Proof. reflexivity. Qed.

Lemma run_eps : forall k st, run Eps k st = k st.
Proof. reflexivity. Qed.

Lemma matches_ws : matches_as (Plus ws) mlen_ws.
Proof.
intros ma p pv s. unfold mlen_ws, match_here, Plus, ws.
rewrite run_seq, run_chr. cbn [rest pos].
destruct s as [|c s1]; cbn [run_len]; [reflexivity|].
destruct (isspace c); [|reflexivity].
assert (Hle := run_len_le isspace s1). cbn [List.length].
repeat split; try lia.
set (st1 := step (Cursor p (c :: s1) pv None) c s1).
exists (walk st1 (run_len isspace s1)).
rewrite run_star_chr.
assert (Hp : pos (walk st1 (run_len isspace s1)) = p + S (run_len isspace s1)).
{ rewrite walk_pos; cbn [st1 step pos rest]; lia. }
split; [|split].
- apply greedy_hit; [reflexivity|]. apply accept_advanced. lia.
- exact Hp.
- rewrite walk_rest. reflexivity.
Qed.

Lemma tag_pattern_eq : Seqs [Lit "<"; Plus (noneof ">"); Lit ">"] = tag_pattern.
Proof. reflexivity. Qed.

Lemma run_tag_pattern : forall k st,
  run tag_pattern k st
  = match rest st with
    | c0 :: s1 =>
      if (60 =? c0)%N then
        match s1 with
        | c1 :: s2 =>
          if not_gt c1
          then greedy not_gt (closing_gt k) s2 (step (step st c0 s1) c1 s2)
          else None
        | [] => None
        end
      else None
    | [] => None
    end.
Proof.
intros k st. unfold tag_pattern. rewrite !run_seq, run_chr.
destruct (rest st) as [|c0 s1]; [reflexivity|].
destruct (60 =? c0)%N; [|reflexivity].
rewrite run_eps, !run_seq, run_chr. cbn [step rest].
destruct s1 as [|c1 s2]; [reflexivity|].
destruct (not_gt c1); [|reflexivity].
rewrite run_star_chr. reflexivity.
Qed.

Lemma matches_tag :
  matches_as (Seqs [Lit "<"; Plus (noneof ">"); Lit ">"]) mlen_tag.
Proof.
intros ma p pv s. unfold match_here. rewrite tag_pattern_eq, run_tag_pattern.
unfold mlen_tag. cbn [rest pos prev].
set (k0 := fun e : cursor => if ma && (pos e =? p) then None else Some e).
destruct s as [|c0 s1]; [reflexivity|].
destruct (60 =? c0)%N; [|reflexivity].
destruct s1 as [|c1 s2]; cbn [run_len]; [reflexivity|].
destruct (not_gt c1) eqn:E1; [|reflexivity].
set (st2 := step (step (Cursor p (c0 :: c1 :: s2) pv None) c0 (c1 :: s2)) c1 s2).
assert (Hle := run_len_le not_gt s2).
cbn [skipn].
destruct (skipn (run_len not_gt s2) s2) as [|c tl] eqn:Esk.
- apply greedy_miss; [reflexivity|]. intros j Hj. unfold closing_gt. rewrite walk_rest.
  change (rest st2) with s2. destruct (Nat.eq_dec j (run_len not_gt s2)) as [->|Hj'].
  + now rewrite Esk.
  + destruct (run_len_inside not_gt s2 j) as (c & tl & -> & Hc); [lia|].
    destruct (N.eqb_spec 62 c) as [<-|]; [discriminate | reflexivity].
- assert (Hc : (62 =? c)%N = true).
  { apply run_len_stop in Esk. unfold not_gt in Esk. cbn in Esk.
    rewrite orb_false_r in Esk. apply negb_false_iff in Esk.
    rewrite N.eqb_sym. assumption. }
  rewrite Hc. cbn [List.length]. repeat split; try lia.
  + assert (List.length (skipn (run_len not_gt s2) s2) = S (List.length tl))
      by now rewrite Esk.
    rewrite length_skipn in H. lia.
  + set (stn := walk st2 (run_len not_gt s2)).
    assert (Hrn : rest stn = c :: tl).
    { unfold stn. rewrite walk_rest. exact Esk. }
    assert (Hpn : pos stn = S (S p) + run_len not_gt s2).
    { unfold stn. rewrite walk_pos; cbn [st2 step pos rest]; lia. }
    exists (step stn c tl). split; [|split].
    * apply greedy_hit; [reflexivity|]. fold stn. unfold closing_gt. rewrite Hrn, Hc.
      apply accept_advanced. cbn [step pos]. lia.
    * cbn [step pos]. lia.
    * cbn [step rest].
      replace (S (run_len not_gt s2) + 2) with (S (S (S (run_len not_gt s2)))) by lia.
      cbn [skipn].
      assert (Hs : skipn 1 (skipn (run_len not_gt s2) s2) = tl) by now rewrite Esk.
      rewrite skipn_skipn in Hs. rewrite <- Hs. reflexivity.
Qed.

End DirectForms.

(** ** [re.sub] for a pattern with a known match length *)

Section Substitution.

Variable r : regex.
Variable mlen : str -> option nat.
Hypothesis Hr : matches_as r mlen.

Lemma skipn_cons_next : forall (s0 : str) p c t,
  skipn p s0 = c :: t -> skipn (S p) s0 = t /\ p < List.length s0.
Proof.
intros s0 p c t H. split.
- change (S p) with (1 + p). rewrite <- skipn_skipn, H. reflexivity.
- assert (Hl : List.length (skipn p s0) = S (List.length t)) by now rewrite H.
  rewrite length_skipn in Hl. lia.
Qed.

Lemma slice_snoc : forall (s0 : str) from p c t,
  from <= p -> skipn p s0 = c :: t -> slice from (S p) s0 = slice from p s0 ++ [c].
Proof.
intros s0 from p c t Hle H. unfold slice.
replace (S p - from) with ((p - from) + 1) by lia.
rewrite <- (firstn_skipn (p - from) (firstn (p - from + 1) (skipn from s0))).
rewrite firstn_firstn. replace (Nat.min (p - from) (p - from + 1)) with (p - from) by lia.
f_equal. rewrite skipn_firstn_comm. replace (p - from + 1 - (p - from)) with 1 by lia.
rewrite skipn_skipn. replace (p - from + from) with p by lia. now rewrite H.
Qed.

Lemma sub_build_direct : forall repl (s0 : str) d p from F D ma pv,
  List.length s0 - p <= d -> p <= List.length s0 -> from <= p ->
  List.length s0 - p < F -> List.length s0 - p <= D ->
  sub_build repl s0 from (finditer_from F r ma p pv (skipn p s0))
  = slice from p s0 ++ sub_direct D mlen repl (skipn p s0).
Proof.
intros repl s0. induction d as [|d IH]; intros p from F D ma pv Hd Hp Hfrom HF HD.
- assert (p = List.length s0) by lia. subst p. rewrite skipn_all.
  destruct F as [|f]; [lia|]. cbn [finditer_from search_from].
  assert (Hm := Hr ma (List.length s0) pv []).
  destruct (mlen []) as [n|]; [cbn [List.length] in Hm; lia|]. rewrite Hm.
  cbn [sub_build]. unfold slice.
  assert (sub_direct D mlen repl [] = []) as -> by (destruct D; reflexivity).
  rewrite app_nil_r. symmetry. apply firstn_all2. rewrite length_skipn. lia.
- destruct (skipn p s0) as [|c t] eqn:Esk.
  + destruct F as [|f]; [lia|]. cbn [finditer_from search_from].
    assert (Hm := Hr ma p pv []).
    destruct (mlen []) as [n|]; [cbn [List.length] in Hm; lia|]. rewrite Hm.
    cbn [sub_build]. unfold slice.
    assert (sub_direct D mlen repl [] = []) as -> by (destruct D; reflexivity).
    rewrite app_nil_r. symmetry. apply firstn_all2.
    assert (Hl : List.length (skipn p s0) = 0) by now rewrite Esk.
    rewrite length_skipn in *. lia.
  + destruct (skipn_cons_next _ _ _ _ Esk) as [Hnext Hlt].
    destruct F as [|f]; [lia|]. destruct D as [|D']; [lia|].
    assert (Hm := Hr ma p pv (c :: t)).
    cbn [sub_direct]. destruct (mlen (c :: t)) as [n|].
    * destruct Hm as (Hn0 & Hnl & e & He & Hpe & Hre).
      cbn [finditer_from search_from]. rewrite He. cbn [m_end m_start sub_build].
      f_equal. f_equal.
      assert (Hlen : List.length (c :: t) = List.length s0 - p)
        by (rewrite <- Esk; apply length_skipn).
      assert (Hsk : skipn n (c :: t) = skipn (p + n) s0).
      { rewrite <- Esk, skipn_skipn. f_equal. lia. }
      rewrite Hpe, Hre, Hsk.
      replace (p + n =? p) with false by (symmetry; apply Nat.eqb_neq; lia).
      rewrite (IH (p + n) (p + n) f D' false (prev e)); try lia.
      unfold slice. rewrite Nat.sub_diag. reflexivity.
    * cbn [finditer_from search_from]. rewrite Hm.
      change (match search_from r false (S p) (Some c) t with
              | Some (m, e) =>
                m :: finditer_from f r (m_end m =? m_start m) (pos e) (prev e) (rest e)
              | None => []
              end)
        with (finditer_from (S f) r false (S p) (Some c) t).
      rewrite <- Hnext.
      rewrite (IH (S p) from (S f) D' false (Some c)); try lia.
      rewrite (slice_snoc _ _ _ _ _ Hfrom Esk), <- app_assoc. reflexivity.
Qed.

Lemma sub_as_direct : forall repl s D,
  List.length s <= D -> sub r repl s = sub_direct D mlen repl s.
Proof.
intros repl s D HD. unfold sub, finditer.
assert (H := sub_build_direct repl s (List.length s) 0 0
               (S (S (List.length s))) D false None).
cbn [skipn] in H. rewrite H; try lia. unfold slice. reflexivity.
Qed.

Lemma sub_nil : forall repl, sub r repl [] = [].
Proof. intros repl. now rewrite (sub_as_direct repl [] 0). Qed.

Lemma mlen_bounds : forall s n, mlen s = Some n -> 0 < n /\ n <= List.length s.
Proof.
intros s n H. assert (Hm := Hr false 0 None s). rewrite H in Hm. tauto.
Qed.

Lemma sub_cons : forall repl c s,
  sub r repl (c :: s)
  = match mlen (c :: s) with
    | Some n => repl ++ sub r repl (skipn n (c :: s))
    | None => c :: sub r repl s
    end.
Proof.
intros repl c s. rewrite (sub_as_direct repl (c :: s) (S (List.length s))) by (cbn; lia).
cbn [sub_direct]. destruct (mlen (c :: s)) as [n|] eqn:Em.
- apply mlen_bounds in Em. f_equal. symmetry. apply sub_as_direct.
  rewrite length_skipn. cbn [List.length]. lia.
- f_equal. symmetry. now apply sub_as_direct.
Qed.

Lemma sub_unmatched : forall repl s, unmatched mlen s = true -> sub r repl s = s.
Proof.
intros repl. induction s as [|c s IH]; intros H.
- apply sub_nil.
- rewrite sub_cons. cbn [unmatched] in H.
  destruct (mlen (c :: s)); [discriminate|]. f_equal. now apply IH.
Qed.

End Substitution.

(** ** White space normalisation *)

Section Whitespace.

Lemma mlen_ws_cons : forall c s,
  mlen_ws (c :: s) = if isspace c then Some (S (run_len isspace s)) else None.
Proof. intros c s. unfold mlen_ws. cbn [run_len]. destruct (isspace c); reflexivity. Qed.

Lemma collapse_cons : forall c s,
  sub (Plus ws) (lit " ") (c :: s)
  = if isspace c then 32%N :: sub (Plus ws) (lit " ") (skipn (run_len isspace s) s)
    else c :: sub (Plus ws) (lit " ") s.
Proof.
intros c s. rewrite (sub_cons _ _ matches_ws), mlen_ws_cons.
destruct (isspace c); reflexivity.
Qed.

Lemma collapse_squeezed : forall s, squeezed (sub (Plus ws) (lit " ") s).
Proof.
intros s. remember (List.length s) as n eqn:Hn. revert s Hn.
induction n as [n IH] using lt_wf_ind. intros [|c s] Hn.
- rewrite (sub_nil _ _ matches_ws). exact I.
- rewrite collapse_cons. cbn [List.length] in Hn. destruct (isspace c) eqn:Ec.
  + assert (Hle := run_len_le isspace s).
    assert (Hrec : squeezed (sub (Plus ws) (lit " ") (skipn (run_len isspace s) s))).
    { apply (IH (List.length (skipn (run_len isspace s) s))); [|reflexivity].
      rewrite length_skipn. lia. }
    cbn [squeezed]. split; [|exact Hrec]. intros _. split; [reflexivity|].
    destruct (skipn (run_len isspace s) s) as [|d t] eqn:Esk.
    * now rewrite (sub_nil _ _ matches_ws).
    * apply run_len_stop in Esk. rewrite collapse_cons, Esk. exact Esk.
  + cbn [squeezed]. split; [congruence|]. apply (IH (List.length s)); [lia | reflexivity].
Qed.

Lemma collapse_fixed : forall s, squeezed s -> sub (Plus ws) (lit " ") s = s.
Proof.
induction s as [|c s IH]; intros H.
- apply (sub_nil _ _ matches_ws).
- rewrite collapse_cons. cbn [squeezed] in H. destruct H as [Hc Hs].
  destruct (isspace c) eqn:Ec.
  + destruct (Hc eq_refl) as [-> Hnext].
    assert (run_len isspace s = 0) as ->.
    { destruct s as [|d s']; [reflexivity|]. cbn [run_len]. now rewrite Hnext. }
    cbn [skipn]. f_equal. now apply IH.
  + f_equal. now apply IH.
Qed.

Lemma squeezed_lstrip : forall s, squeezed s -> squeezed (lstrip_by isspace s).
Proof.
induction s as [|c s IH]; intros H; cbn [lstrip_by]; [exact I|].
destruct (isspace c); [|exact H]. apply IH. exact (proj2 H).
Qed.

Lemma lstrip_head : forall p s c t, lstrip_by p s = c :: t -> p c = false.
Proof.
intros p. induction s as [|d s IH]; intros c t H; cbn [lstrip_by] in H; [discriminate|].
destruct (p d) eqn:Ed; [now apply IH in H|]. inversion H; subst. exact Ed.
Qed.

Lemma lstrip_fixed : forall p s,
  match s with c :: _ => p c = false | [] => True end -> lstrip_by p s = s.
Proof.
intros p [|c s] H; cbn [lstrip_by]; [reflexivity|]. now rewrite H.
Qed.

Lemma rstrip_cons : forall p c s,
  rstrip_by p (c :: s)
  = match rstrip_by p s with
    | [] => if p c then [] else [c]
    | d :: t => c :: d :: t
    end.
Proof. reflexivity. Qed.

Lemma rstrip_keeps_head : forall p s c t d u,
  s = c :: t -> rstrip_by p s = d :: u -> d = c.
Proof.
intros p s c t d u -> H. rewrite rstrip_cons in H.
destruct (rstrip_by p t); [destruct (p c); [discriminate|]|]; now inversion H.
Qed.

Lemma rstrip_tidy : forall s, squeezed s -> tidy (rstrip_by isspace s).
Proof.
induction s as [|c s IH]; intros H; [exact I|].
cbn [squeezed] in H. destruct H as [Hc Hs]. specialize (IH Hs).
rewrite rstrip_cons. destruct (rstrip_by isspace s) as [|d t] eqn:Er.
- destruct (isspace c) eqn:Ec; [exact I|]. cbn [tidy]. split; [congruence | exact I].
- cbn [tidy]. split; [|exact IH]. intros Ec. destruct (Hc Ec) as [-> Hnext].
  split; [reflexivity|]. destruct s as [|d' s']; [discriminate|].
  now rewrite (rstrip_keeps_head isspace (d' :: s') d' s' d t eq_refl Er).
Qed.

Lemma rstrip_fixed : forall p s, last_in p s = false -> rstrip_by p s = s.
Proof.
intros p. induction s as [|c s IH]; intros H; [reflexivity|].
rewrite rstrip_cons. cbn [last_in] in H. destruct s as [|d s'].
- cbn [rstrip_by]. now rewrite H.
- rewrite (IH H). reflexivity.
Qed.

Lemma rstrip_prefix : forall p s, exists t, s = rstrip_by p s ++ t.
Proof.
intros p. induction s as [|c s IH]; [exists []; reflexivity|].
destruct IH as [t Ht]. rewrite rstrip_cons.
destruct (rstrip_by p s) as [|d u] eqn:Er.
- cbn [app] in Ht. subst t. destruct (p c); [exists (c :: s) | exists s]; reflexivity.
- exists t. cbn [app]. f_equal. exact Ht.
Qed.

Lemma rstrip_last : forall p s, last_in p (rstrip_by p s) = false.
Proof.
intros p. induction s as [|c s IH]; [reflexivity|]. rewrite rstrip_cons.
destruct (rstrip_by p s) as [|d u].
- destruct (p c) eqn:Ec; [reflexivity|]. cbn [last_in]. exact Ec.
- exact IH.
Qed.

Lemma tidy_last : forall s, tidy s -> last_in isspace s = false.
Proof.
induction s as [|c s IH]; intros H; [reflexivity|].
cbn [tidy] in H. destruct H as [Hc Hs]. cbn [last_in]. destruct s as [|d s'].
- destruct (isspace c); [|reflexivity]. now destruct (Hc eq_refl).
- now apply IH.
Qed.

Lemma tidy_squeezed : forall s, tidy s -> squeezed s.
Proof.
induction s as [|c s IH]; intros H; [exact I|].
cbn [tidy squeezed] in *. destruct H as [Hc Hs]. split; [|now apply IH].
intros Ec. destruct (Hc Ec) as [-> Hnext]. split; [reflexivity|].
destruct s; [exact I | exact Hnext].
Qed.

(** What [squeeze] returns is normal. *)
Lemma squeeze_normal : forall s, normal (squeeze s).
Proof.
intros s. unfold squeeze, strip, normal.
assert (Hs := squeezed_lstrip _ (collapse_squeezed s)).
split; [now apply rstrip_tidy|].
destruct (rstrip_by isspace (lstrip_by isspace (sub (Plus ws) (lit " ") s)))
  as [|d u] eqn:Er; [exact I|].
destruct (lstrip_by isspace (sub (Plus ws) (lit " ") s)) as [|c t] eqn:El;
  [discriminate|].
rewrite (rstrip_keeps_head isspace (c :: t) c t d u eq_refl Er).
eapply lstrip_head. exact El.
Qed.

(** [squeeze] leaves a normal text as it is. *)
Lemma squeeze_fixed : forall s, normal s -> squeeze s = s.
Proof.
intros s [Ht Hh]. unfold squeeze, strip.
rewrite (collapse_fixed _ (tidy_squeezed _ Ht)).
rewrite (lstrip_fixed isspace s Hh). apply rstrip_fixed. now apply tidy_last.
Qed.

Lemma squeeze_idempotent : forall s, squeeze (squeeze s) = squeeze s.
Proof. intros s. apply squeeze_fixed, squeeze_normal. Qed.

End Whitespace.

(** ** Markup tags *)

Section Tags.

Lemma not_gt_is_gt : forall c, not_gt c = negb (is_gt c).
Proof.
intros c. unfold not_gt, is_gt. cbn. now rewrite orb_false_r, N.eqb_sym.
Qed.

Lemma is_lt_eq : forall c, is_lt c = true -> c = 60%N.
Proof. intros c H. unfold is_lt in H. apply N.eqb_eq in H. now subst c. Qed.

Lemma is_gt_eq : forall c, is_gt c = true -> c = 62%N.
Proof. intros c H. unfold is_gt in H. apply N.eqb_eq in H. now subst c. Qed.

Lemma run_len_all : forall s, has_gt s = false -> run_len not_gt s = List.length s.
Proof.
induction s as [|c s IH]; intros H; [reflexivity|].
cbn [has_gt existsb] in H. apply orb_false_elim in H. destruct H as [Hc Hs].
cbn [run_len List.length]. rewrite not_gt_is_gt, Hc. cbn [negb]. f_equal. now apply IH.
Qed.

Lemma mlen_tag_none : forall c s,
  (is_lt c = true -> starts_gt s = true \/ has_gt s = false) ->
  mlen_tag (c :: s) = None.
Proof.
intros c s H. unfold mlen_tag. fold (is_lt c). destruct (is_lt c); [|reflexivity].
destruct (H eq_refl) as [Hs|Hs].
- destruct s as [|d s']; [discriminate|]. cbn [starts_gt] in Hs.
  cbn [run_len]. now rewrite not_gt_is_gt, Hs.
- rewrite (run_len_all _ Hs). destruct (List.length s) eqn:El; [reflexivity|].
  rewrite <- El, skipn_all. reflexivity.
Qed.

Lemma tagfree_unmatched : forall s, tagfree s -> unmatched mlen_tag s = true.
Proof.
induction s as [|c s IH]; intros H; [reflexivity|].
cbn [tagfree] in H. destruct H as [Hc Hs]. cbn [unmatched].
rewrite (mlen_tag_none _ _ Hc). now apply IH.
Qed.

Lemma mlen_tag_some : forall c s n,
  mlen_tag (c :: s) = Some n ->
  is_lt c = true /\ starts_gt s = false /\ has_gt s = true.
Proof.
intros c s n H. unfold mlen_tag in H. fold (is_lt c) in H.
destruct (is_lt c); [|discriminate]. split; [reflexivity|].
destruct (run_len not_gt s) as [|m] eqn:Er; [discriminate|].
split.
- destruct s as [|d s']; [reflexivity|]. cbn [run_len] in Er. cbn [starts_gt].
  rewrite not_gt_is_gt in Er. destruct (is_gt d); [discriminate | reflexivity].
- destruct (has_gt s) eqn:Eg; [reflexivity|]. exfalso.
  rewrite (run_len_all _ Eg) in Er. rewrite <- Er, skipn_all in H. discriminate.
Qed.

Lemma mlen_tag_free : forall c s,
  mlen_tag (c :: s) = None -> is_lt c = true -> starts_gt s = true \/ has_gt s = false.
Proof.
intros c s H Hc. unfold mlen_tag in H. fold (is_lt c) in H. rewrite Hc in H.
destruct (has_gt s) eqn:Eg; [left | now right].
destruct s as [|d s']; [discriminate|]. cbn [starts_gt].
destruct (is_gt d) eqn:Ed; [reflexivity|]. exfalso.
cbn [run_len] in H. rewrite not_gt_is_gt, Ed in H. cbn [negb] in H.
assert (Hle := run_len_le not_gt s').
destruct (skipn (S (run_len not_gt s')) (d :: s')) as [|e t] eqn:Esk.
- cbn [skipn] in Esk.
  assert (Hl : List.length (skipn (run_len not_gt s') s') = 0) by now rewrite Esk.
  rewrite length_skipn in Hl.
  assert (Hall : run_len not_gt s' = List.length s') by lia.
  cbn [has_gt existsb] in Eg. fold (has_gt s') in Eg. rewrite Ed in Eg. cbn [orb] in Eg.
  clear - Eg Hall. induction s' as [|a s' IH]; [discriminate|].
  cbn [run_len List.length has_gt existsb] in *. rewrite not_gt_is_gt in Hall.
  destruct (is_gt a); [discriminate|]. cbn [negb orb] in *. apply IH; [assumption | lia].
- cbn [skipn] in Esk. apply run_len_stop in Esk. rewrite not_gt_is_gt in Esk.
  apply negb_false_iff in Esk. unfold is_gt in Esk. rewrite Esk in H. discriminate.
Qed.

Lemma has_gt_skipn : forall n s, has_gt s = false -> has_gt (skipn n s) = false.
Proof.
induction n as [|n IH]; intros s H; [exact H|]. destruct s as [|c s]; [reflexivity|].
cbn [skipn]. apply IH. cbn [has_gt existsb] in H. now apply orb_false_elim in H.
Qed.

Lemma tagfree_skipn : forall n s, tagfree s -> tagfree (skipn n s).
Proof.
induction n as [|n IH]; intros s H; [exact H|]. destruct s as [|c s]; [exact I|].
cbn [skipn]. apply IH. exact (proj2 H).
Qed.

Lemma tagfree_app : forall a s, has_lt a = false -> tagfree s -> tagfree (a ++ s).
Proof.
induction a as [|c a IH]; intros s Ha Hs; [exact Hs|].
cbn [has_lt existsb] in Ha. apply orb_false_elim in Ha. destruct Ha as [Hc Ha].
cbn [app tagfree]. split; [congruence | now apply IH].
Qed.

(** A substitution that never starts a match at [>] and puts no [>] in. *)
Section Gentle.

Variable r : regex.
Variable mlen : str -> option nat.
Variable repl : str.
Hypothesis Hr : matches_as r mlen.
Hypothesis Hrepl : has_gt repl = false.
Hypothesis Hgt : forall c s n, mlen (c :: s) = Some n -> is_gt c = false.

Lemma sub_no_gt : forall s, has_gt s = false -> has_gt (sub r repl s) = false.
Proof.
intros s. remember (List.length s) as n eqn:Hn. revert s Hn.
induction n as [n IH] using lt_wf_ind. intros [|c s] Hn H.
- now rewrite (sub_nil _ _ Hr).
- rewrite (sub_cons _ _ Hr). cbn [List.length] in Hn.
  destruct (mlen (c :: s)) as [m|] eqn:Em.
  + unfold has_gt. rewrite existsb_app. fold (has_gt repl). rewrite Hrepl. cbn [orb].
    destruct (mlen_bounds _ _ Hr _ _ Em) as [Hm0 Hml].
    apply (IH (List.length (skipn m (c :: s)))); [|reflexivity|now apply has_gt_skipn].
    rewrite length_skipn. cbn [List.length]. lia.
  + cbn [has_gt existsb] in *. apply orb_false_elim in H. destruct H as [Hc Hs].
    rewrite Hc. cbn [orb]. apply (IH (List.length s)); [lia | reflexivity | exact Hs].
Qed.

Lemma sub_starts_gt : forall s, starts_gt s = true -> starts_gt (sub r repl s) = true.
Proof.
intros [|c s] H; [discriminate|]. cbn [starts_gt] in H. rewrite (sub_cons _ _ Hr).
destruct (mlen (c :: s)) as [m|] eqn:Em; [|exact H].
apply Hgt in Em. congruence.
Qed.

Hypothesis Hrepl_lt : has_lt repl = false.

Lemma sub_tagfree : forall s, tagfree s -> tagfree (sub r repl s).
Proof.
intros s. remember (List.length s) as n eqn:Hn. revert s Hn.
induction n as [n IH] using lt_wf_ind. intros [|c s] Hn H.
- now rewrite (sub_nil _ _ Hr).
- rewrite (sub_cons _ _ Hr). cbn [List.length] in Hn.
  destruct (mlen (c :: s)) as [m|] eqn:Em.
  + apply tagfree_app; [exact Hrepl_lt|].
    destruct (mlen_bounds _ _ Hr _ _ Em) as [Hm0 Hml].
    apply (IH (List.length (skipn m (c :: s)))); [|reflexivity|now apply tagfree_skipn].
    rewrite length_skipn. cbn [List.length]. lia.
  + cbn [tagfree] in *. destruct H as [Hc Hs]. split.
    * intros Hlt'. destruct (Hc Hlt') as [Hg|Hg];
        [left; now apply sub_starts_gt | right; now apply sub_no_gt].
    * apply (IH (List.length s)); [lia | reflexivity | exact Hs].
Qed.

End Gentle.

(** Removing the tags leaves none behind. *)
Lemma tags_removed : forall s,
  tagfree (sub (Seqs [Lit "<"; Plus (noneof ">"); Lit ">"]) [] s).
Proof.
assert (Hgt : forall c s n, mlen_tag (c :: s) = Some n -> is_gt c = false).
{ intros c s n H. apply mlen_tag_some in H. destruct H as [H _].
  apply is_lt_eq in H. now subst c. }
intros s. remember (List.length s) as n eqn:Hn. revert s Hn.
induction n as [n IH] using lt_wf_ind. intros [|c s] Hn.
- now rewrite (sub_nil _ _ matches_tag).
- rewrite (sub_cons _ _ matches_tag). cbn [List.length] in Hn.
  destruct (mlen_tag (c :: s)) as [m|] eqn:Em.
  + destruct (mlen_bounds _ _ matches_tag _ _ Em) as [Hm0 Hml]. cbn [app].
    apply (IH (List.length (skipn m (c :: s)))); [|reflexivity].
    rewrite length_skipn. cbn [List.length]. lia.
  + cbn [tagfree]. split; [|apply (IH (List.length s)); [lia | reflexivity]].
    intros Hc. destruct (mlen_tag_free _ _ Em Hc) as [Hg|Hg].
    * left. now apply (sub_starts_gt _ _ [] matches_tag Hgt).
    * right. now apply (sub_no_gt _ _ [] matches_tag eq_refl).
Qed.

Lemma lstrip_suffix : forall p s, exists n, lstrip_by p s = skipn n s.
Proof.
intros p. induction s as [|c s IH]; [exists 0; reflexivity|]. cbn [lstrip_by].
destruct (p c); [|exists 0; reflexivity]. destruct IH as [n Hn]. exists (S n). exact Hn.
Qed.

Lemma lstrip_tagfree : forall p s, tagfree s -> tagfree (lstrip_by p s).
Proof.
intros p s H. destruct (lstrip_suffix p s) as [n ->]. now apply tagfree_skipn.
Qed.

(** Stripping characters other than [<] and [>] from the right end. *)
Section RightStrip.

Variable p : N -> bool.
Hypothesis Hp_gt : forall c, is_gt c = true -> p c = false.

Lemma rstrip_no_gt : forall s, has_gt s = false -> has_gt (rstrip_by p s) = false.
Proof.
induction s as [|c s IH]; intros H; [reflexivity|].
cbn [has_gt existsb] in H. apply orb_false_elim in H. destruct H as [Hc Hs].
specialize (IH Hs). rewrite rstrip_cons. destruct (rstrip_by p s) as [|d t].
- destruct (p c); [reflexivity|]. cbn [has_gt existsb]. now rewrite Hc.
- cbn [has_gt existsb] in *. now rewrite Hc, IH.
Qed.

Lemma rstrip_starts_gt : forall s,
  starts_gt s = true -> starts_gt (rstrip_by p s) = true.
Proof.
intros [|c s] H; [discriminate|]. cbn [starts_gt] in H. rewrite rstrip_cons.
destruct (rstrip_by p s); [rewrite (Hp_gt _ H)|]; exact H.
Qed.

Lemma rstrip_tagfree : forall s, tagfree s -> tagfree (rstrip_by p s).
Proof.
induction s as [|c s IH]; intros H; [exact I|].
cbn [tagfree] in H. destruct H as [Hc Hs]. specialize (IH Hs).
assert (Hnext : is_lt c = true ->
                starts_gt (rstrip_by p s) = true \/ has_gt (rstrip_by p s) = false).
{ intros Hl. destruct (Hc Hl) as [Hg|Hg];
    [left; now apply rstrip_starts_gt | right; now apply rstrip_no_gt]. }
rewrite rstrip_cons. destruct (rstrip_by p s) as [|d t] eqn:Er.
- destruct (p c); [exact I|]. cbn [tagfree]. split; [|exact I].
  intros _. now right.
- cbn [tagfree]. split; [exact Hnext | exact IH].
Qed.

End RightStrip.

End Tags.

(** ** The name cleaner *)

Section Cleaner.

Import CompanyNameExtractor.

(** The cleaner on a non-empty name, step by step. *)
Lemma clean_steps : forall c x,
  _clean_company_name (Some (c :: x))
  = Some (squeeze (rstrip_by trailing_punct
            (remove_phrases cleanup_phrases
               (squeeze (sub (Seqs [Lit "<"; Plus (noneof ">"); Lit ">"]) []
                             (c :: x)))))).
Proof.
intros c x.
unfold _clean_company_name, remove_phrases, squeeze, rstrip_chars, trailing_punct.
reflexivity.
Qed.

Lemma cleanup_phrases_plain : Forall plain_phrase cleanup_phrases.
Proof.
unfold cleanup_phrases. cbn [map].
repeat (constructor;
        [split; [intros E; vm_compute in E; discriminate E|];
         intros c s [H|H]; [apply is_lt_eq in H | apply is_gt_eq in H];
         subst c; reflexivity|]).
constructor.
Qed.

Lemma mlen_lit_plain : forall phrase, plain_phrase phrase ->
  forall c s n, mlen_lit phrase (c :: s) = Some n -> is_lt c = false /\ is_gt c = false.
Proof.
intros phrase [_ Hp] c s n H. unfold mlen_lit in H.
destruct (ci_prefix phrase (c :: s)) eqn:E; [|discriminate].
destruct (is_lt c) eqn:El; [rewrite Hp in E; [discriminate | now left]|].
destruct (is_gt c) eqn:Eg; [rewrite Hp in E; [discriminate | now right]|].
split; reflexivity.
Qed.

Lemma remove_phrases_tagfree : forall phrases s,
  Forall plain_phrase phrases -> tagfree s -> tagfree (remove_phrases phrases s).
Proof.
induction phrases as [|phrase phrases IH]; intros s Hall Hs; [exact Hs|].
inversion Hall as [|? ? Hp Hrest]; subst. cbn [remove_phrases fold_left].
apply IH; [assumption|].
apply (sub_tagfree _ _ [] (matches_lit _ (proj1 Hp))); try reflexivity; try assumption.
intros c t n H. now destruct (mlen_lit_plain _ Hp _ _ _ H).
Qed.

Lemma ci_contains_unmatched : forall phrase s,
  ci_contains phrase s = false -> unmatched (mlen_lit phrase) s = true.
Proof.
intros phrase. induction s as [|c s IH]; intros H; cbn [ci_contains unmatched] in *.
- unfold mlen_lit. apply orb_false_elim in H. destruct H as [-> _]. reflexivity.
- unfold mlen_lit at 1. apply orb_false_elim in H. destruct H as [-> H]. now apply IH.
Qed.

Lemma remove_phrases_fixed : forall phrases s,
  Forall plain_phrase phrases ->
  (forall phrase, In phrase phrases -> ci_contains phrase s = false) ->
  remove_phrases phrases s = s.
Proof.
induction phrases as [|phrase phrases IH]; intros s Hall Hs; [reflexivity|].
inversion Hall as [|? ? Hp Hrest]; subst. cbn [remove_phrases fold_left].
rewrite (sub_unmatched _ _ (matches_lit _ (proj1 Hp))).
- apply IH; [assumption|]. intros ph Hin. apply Hs. now right.
- apply ci_contains_unmatched. apply Hs. now left.
Qed.

Lemma squeeze_tagfree : forall s, tagfree s -> tagfree (squeeze s).
Proof.
intros s H. unfold squeeze, strip.
apply rstrip_tagfree.
- intros c Hc. apply is_gt_eq in Hc. now subst c.
- apply lstrip_tagfree.
  apply (sub_tagfree _ _ (lit " ") matches_ws); try reflexivity; try assumption.
  intros c t n Hm. rewrite mlen_ws_cons in Hm. unfold is_gt.
  destruct (N.eqb_spec 62 c) as [<-|]; [discriminate | reflexivity].
Qed.

Lemma some_inj : forall (a b : str), Some a = Some b -> a = b.
Proof. intros a b H. now injection H. Qed.

(** What the cleaner returns holds no tag and is normal. *)
Lemma clean_output : forall x y,
  _clean_company_name (Some x) = Some y -> tagfree y /\ normal y.
Proof.
intros [|c x] y H; [discriminate|]. rewrite clean_steps in H.
apply some_inj in H. subst y.
split; [|apply squeeze_normal].
apply squeeze_tagfree, rstrip_tagfree.
- intros d Hd. apply is_gt_eq in Hd. now subst d.
- apply remove_phrases_tagfree; [apply cleanup_phrases_plain|].
  apply squeeze_tagfree, tags_removed.
Qed.

End Cleaner.

(** ** Whole words *)

Section WholeWords.

Lemma at_boundary_eq : forall st,
  at_boundary st = boundary (prev st) (hd_error (rest st)).
Proof. intros [p [|c s] [d|] g]; reflexivity. Qed.

Lemma walk_prev : forall n st,
  S n <= List.length (rest st) -> prev (walk st (S n)) = nth_error (rest st) n.
Proof.
induction n as [|n IH]; intros st H; destruct (rest st) as [|c tl] eqn:Er;
  cbn [List.length] in H; try lia.
- cbn [walk]. rewrite Er. reflexivity.
- change (walk st (S (S n)))
    with (match rest st with
          | c0 :: tl0 => walk (step st c0 tl0) (S n)
          | [] => st
          end).
  rewrite Er, IH; [reflexivity | cbn [step rest]; lia].
Qed.

Lemma hd_error_skipn_nth : forall n (s : str), hd_error (skipn n s) = nth_error s n.
Proof. induction n as [|n IH]; intros [|c s]; cbn [skipn hd_error nth_error]; auto. Qed.

Lemma run_word : forall word k st,
  run (Seqs [Bnd; LitI_str word; Bnd]) k st
  = if at_boundary st then
      if ci_prefix word (rest st) then
        if at_boundary (walk st (List.length word))
        then k (walk st (List.length word)) else None
      else None
    else None.
Proof.
intros word k st.
change (run (Seqs [Bnd; LitI_str word; Bnd]) k st)
  with (if at_boundary st then run (LitI_str word) (run Bnd k) st else None).
destruct (at_boundary st); [|reflexivity]. rewrite run_lit.
destruct (ci_prefix word (rest st)); reflexivity.
Qed.

Lemma matches_word : forall word,
  word <> [] -> matches_in_context (Seqs [Bnd; LitI_str word; Bnd]) (mlen_word word).
Proof.
intros word Hne ma p pv s. unfold mlen_word, whole_word_at, match_here.
rewrite run_word. cbn [pos rest prev]. rewrite at_boundary_eq. cbn [prev rest].
destruct (boundary pv (hd_error s)); cbn [andb]; [|reflexivity].
destruct (ci_prefix word s) eqn:Ep; cbn [andb]; [|reflexivity].
assert (Hlen := ci_prefix_length _ _ Ep).
assert (Hpos : 0 < List.length word) by (destruct word; [congruence | cbn; lia]).
assert (Hprev : prev (walk (Cursor p s pv None) (List.length word))
                = nth_error s (pred (List.length word))).
{ destruct (List.length word) as [|n]; [lia|].
  rewrite walk_prev; [reflexivity | cbn [rest]; lia]. }
rewrite at_boundary_eq, walk_rest, Hprev. cbn [rest]. rewrite hd_error_skipn_nth.
destruct (boundary (nth_error s (pred (List.length word)))
            (nth_error s (List.length word))); [|reflexivity].
repeat split; try assumption.
exists (walk (Cursor p s pv None) (List.length word)).
split; [|split; [|split]].
- apply accept_advanced. rewrite walk_pos; cbn [pos rest]; lia.
- rewrite walk_pos; cbn [pos rest]; lia.
- rewrite walk_rest. reflexivity.
- exact Hprev.
Qed.

(** [re.sub] for a pattern whose match depends on the character before. *)
Section Contextual.

Variable r : regex.
Variable mlen : option N -> str -> option nat.
Hypothesis Hr : matches_in_context r mlen.

Lemma sub_build_scan : forall repl (s0 : str) d p from F D ma pv,
  List.length s0 - p <= d -> p <= List.length s0 -> from <= p ->
  List.length s0 - p < F -> List.length s0 - p <= D ->
  sub_build repl s0 from (finditer_from F r ma p pv (skipn p s0))
  = slice from p s0 ++ sub_scan D mlen repl pv (skipn p s0).
Proof.
intros repl s0. induction d as [|d IH]; intros p from F D ma pv Hd Hp Hfrom HF HD.
- assert (p = List.length s0) by lia. subst p. rewrite skipn_all.
  destruct F as [|f]; [lia|]. cbn [finditer_from search_from].
  assert (Hm := Hr ma (List.length s0) pv []).
  destruct (mlen pv []) as [n|]; [cbn [List.length] in Hm; lia|]. rewrite Hm.
  cbn [sub_build]. unfold slice.
  assert (sub_scan D mlen repl pv [] = []) as -> by (destruct D; reflexivity).
  rewrite app_nil_r. symmetry. apply firstn_all2. rewrite length_skipn. lia.
- destruct (skipn p s0) as [|c t] eqn:Esk.
  + destruct F as [|f]; [lia|]. cbn [finditer_from search_from].
    assert (Hm := Hr ma p pv []).
    destruct (mlen pv []) as [n|]; [cbn [List.length] in Hm; lia|]. rewrite Hm.
    cbn [sub_build]. unfold slice.
    assert (sub_scan D mlen repl pv [] = []) as -> by (destruct D; reflexivity).
    rewrite app_nil_r. symmetry. apply firstn_all2.
    assert (Hl : List.length (skipn p s0) = 0) by now rewrite Esk.
    rewrite length_skipn in *. lia.
  + destruct (skipn_cons_next _ _ _ _ Esk) as [Hnext Hlt].
    destruct F as [|f]; [lia|]. destruct D as [|D']; [lia|].
    assert (Hm := Hr ma p pv (c :: t)).
    cbn [sub_scan]. destruct (mlen pv (c :: t)) as [n|].
    * destruct Hm as (Hn0 & Hnl & e & He & Hpe & Hre & Hpv).
      cbn [finditer_from search_from]. rewrite He. cbn [m_end m_start sub_build].
      f_equal. f_equal.
      assert (Hlen : List.length (c :: t) = List.length s0 - p)
        by (rewrite <- Esk; apply length_skipn).
      assert (Hsk : skipn n (c :: t) = skipn (p + n) s0).
      { rewrite <- Esk, skipn_skipn. f_equal. lia. }
      rewrite Hpe, Hre, Hpv, Hsk.
      replace (p + n =? p) with false by (symmetry; apply Nat.eqb_neq; lia).
      rewrite (IH (p + n) (p + n) f D' false (nth_error (c :: t) (pred n))); try lia.
      unfold slice. rewrite Nat.sub_diag. reflexivity.
    * cbn [finditer_from search_from]. rewrite Hm.
      change (match search_from r false (S p) (Some c) t with
              | Some (m, e) =>
                m :: finditer_from f r (m_end m =? m_start m) (pos e) (prev e) (rest e)
              | None => []
              end)
        with (finditer_from (S f) r false (S p) (Some c) t).
      rewrite <- Hnext.
      rewrite (IH (S p) from (S f) D' false (Some c)); try lia.
      rewrite (slice_snoc _ _ _ _ _ Hfrom Esk), <- app_assoc. reflexivity.
Qed.

Lemma sub_as_scan : forall repl s D,
  List.length s <= D -> sub r repl s = sub_scan D mlen repl None s.
Proof.
intros repl s D HD. unfold sub, finditer.
assert (H := sub_build_scan repl s (List.length s) 0 0
               (S (S (List.length s))) D false None).
cbn [skipn] in H. rewrite H; try lia. unfold slice. reflexivity.
Qed.

End Contextual.

(** A scan that never starts a match at [>] and puts nothing in. *)
Section GentleScan.

Variable mlen : option N -> str -> option nat.
Hypothesis Hgt : forall pv c s n, mlen pv (c :: s) = Some n -> is_gt c = false.

Lemma scan_no_gt : forall D pv s,
  has_gt s = false -> has_gt (sub_scan D mlen [] pv s) = false.
Proof.
induction D as [|D IH]; intros pv s H; [exact H|].
destruct s as [|c s]; [reflexivity|]. cbn [sub_scan].
destruct (mlen pv (c :: s)) as [n|].
- cbn [app]. apply IH. now apply has_gt_skipn.
- unfold has_gt in H. cbn [existsb] in H. apply orb_false_elim in H.
  destruct H as [Hc Hs]. unfold has_gt. cbn [existsb]. rewrite Hc. cbn [orb].
  apply (IH (Some c) s). exact Hs.
Qed.

Lemma scan_starts_gt : forall D pv s,
  starts_gt s = true -> starts_gt (sub_scan D mlen [] pv s) = true.
Proof.
intros [|D] pv s H; [exact H|]. destruct s as [|c s]; [discriminate H|].
cbn [starts_gt] in H. cbn [sub_scan].
destruct (mlen pv (c :: s)) as [n|] eqn:Em; [|exact H].
apply Hgt in Em. congruence.
Qed.

Lemma scan_tagfree : forall D pv s, tagfree s -> tagfree (sub_scan D mlen [] pv s).
Proof.
induction D as [|D IH]; intros pv s H; [exact H|].
destruct s as [|c s]; [exact I|]. cbn [sub_scan].
destruct (mlen pv (c :: s)) as [n|].
- cbn [app]. apply IH. now apply tagfree_skipn.
- cbn [tagfree] in *. destruct H as [Hc Hs]. split; [|now apply IH].
  intros Hl. destruct (Hc Hl) as [Hg|Hg];
    [left; now apply scan_starts_gt | right; now apply scan_no_gt].
Qed.

End GentleScan.

Lemma scan_fixed : forall word repl D pv s,
  whole_word_in word pv s = false -> sub_scan D (mlen_word word) repl pv s = s.
Proof.
intros word repl. induction D as [|D IH]; intros pv s H; [reflexivity|].
destruct s as [|c s]; [reflexivity|]. cbn [sub_scan].
cbn [whole_word_in] in H. apply orb_false_elim in H. destruct H as [Hat Hin].
unfold mlen_word. rewrite Hat. f_equal. now apply IH.
Qed.

Lemma sub_word_scan : forall (word : string) s,
  lit word <> [] ->
  sub (Seqs [Bnd; LitI word; Bnd]) [] s
  = sub_scan (List.length s) (mlen_word (lit word)) [] None s.
Proof.
intros word s Hne.
change (Seqs [Bnd; LitI word; Bnd]) with (Seqs [Bnd; LitI_str (lit word); Bnd]).
apply (sub_as_scan _ _ (matches_word _ Hne)). lia.
Qed.

Lemma mlen_word_plain : forall word, plain_phrase word ->
  forall pv c s n, mlen_word word pv (c :: s) = Some n -> is_gt c = false.
Proof.
intros word [_ Hp] pv c s n H. unfold mlen_word, whole_word_at in H.
destruct (is_gt c) eqn:Eg; [|reflexivity].
rewrite (Hp c s (or_intror Eg)), andb_false_r in H. discriminate H.
Qed.

Lemma remove_words_tagfree : forall words s,
  Forall (fun word => plain_phrase (lit word)) words ->
  tagfree s -> tagfree (remove_words words s).
Proof.
induction words as [|word words IH]; intros s Hall Hs; [exact Hs|].
inversion Hall as [|? ? Hp Hrest]; subst. cbn [remove_words fold_left].
apply IH; [assumption|]. rewrite (sub_word_scan _ _ (proj1 Hp)).
apply scan_tagfree; [|exact Hs]. apply mlen_word_plain. exact Hp.
Qed.

Lemma remove_words_fixed : forall words s,
  Forall (fun word => plain_phrase (lit word)) words ->
  (forall word, In word words -> whole_word_in (lit word) None s = false) ->
  remove_words words s = s.
Proof.
induction words as [|word words IH]; intros s Hall Hs; [reflexivity|].
inversion Hall as [|? ? Hp Hrest]; subst. cbn [remove_words fold_left].
rewrite (sub_word_scan _ _ (proj1 Hp)), scan_fixed by (apply Hs; now left).
apply IH; [assumption|]. intros w Hin. apply Hs. now right.
Qed.

Lemma words_to_remove_plain :
  Forall (fun word => plain_phrase (lit word)) ImprovedAnalyzer.words_to_remove.
Proof.
unfold ImprovedAnalyzer.words_to_remove.
repeat (constructor;
        [split; [intros E; vm_compute in E; discriminate E|];
         intros c s [H|H]; [apply is_lt_eq in H | apply is_gt_eq in H];
         subst c; reflexivity|]).
constructor.
Qed.

Lemma tidy_prefix : forall a b,
  squeezed (a ++ b) -> last_in isspace a = false -> tidy a.
Proof.
induction a as [|c a IH]; intros b Hs Hl; [exact I|].
cbn [app squeezed] in Hs. destruct Hs as [Hc Hs]. cbn [tidy]. split.
- intros Ec. destruct (Hc Ec) as [-> Hnext]. split; [reflexivity|].
  destruct a as [|d a']; [cbn [last_in] in Hl; congruence | exact Hnext].
- apply (IH b Hs). destruct a as [|d a']; [reflexivity | exact Hl].
Qed.

(** The cleaner of improved_analyzer.py on a non-empty name, step by
    step. *)
Lemma improved_clean_eq : forall c x,
  ImprovedAnalyzer.clean_company_name (Some (c :: x))
  = if 3 <=? List.length
               (rstrip_by trailing_punct
                  (squeeze (remove_words ImprovedAnalyzer.words_to_remove
                     (squeeze (sub (Seqs [Lit "<"; Plus (noneof ">"); Lit ">"]) []
                                   (c :: x))))))
    then Some (rstrip_by trailing_punct
                 (squeeze (remove_words ImprovedAnalyzer.words_to_remove
                    (squeeze (sub (Seqs [Lit "<"; Plus (noneof ">"); Lit ">"]) []
                                  (c :: x))))))
    else None.
Proof.
intros c x.
unfold ImprovedAnalyzer.clean_company_name, remove_words, squeeze, rstrip_chars,
  trailing_punct.
reflexivity.
Qed.

(** What the cleaner of improved_analyzer.py returns has at least 3
    characters, holds no tag and is a normal text without the
    punctuation at its end. *)
Lemma improved_clean_shape : forall x y,
  ImprovedAnalyzer.clean_company_name (Some x) = Some y ->
  3 <= List.length y /\ tagfree y
  /\ exists n, normal n /\ y = rstrip_by trailing_punct n.
Proof.
intros [|c x] y H; [discriminate H|]. rewrite improved_clean_eq in H.
assert (Hn : normal (squeeze (remove_words ImprovedAnalyzer.words_to_remove
                       (squeeze (sub (Seqs [Lit "<"; Plus (noneof ">"); Lit ">"]) []
                                     (c :: x))))))
  by apply squeeze_normal.
assert (Htag : tagfree (squeeze (remove_words ImprovedAnalyzer.words_to_remove
                          (squeeze (sub (Seqs [Lit "<"; Plus (noneof ">"); Lit ">"]) []
                                        (c :: x)))))).
{ apply squeeze_tagfree, remove_words_tagfree; [apply words_to_remove_plain|].
  apply squeeze_tagfree, tags_removed. }
revert H Hn Htag.
generalize (squeeze (remove_words ImprovedAnalyzer.words_to_remove
              (squeeze (sub (Seqs [Lit "<"; Plus (noneof ">"); Lit ">"]) []
                            (c :: x))))).
intros n H Hn Htag.
destruct (3 <=? List.length (rstrip_by trailing_punct n)) eqn:E; [|discriminate H].
apply some_inj in H. subst y. split; [now apply Nat.leb_le|]. split.
- apply rstrip_tagfree; [|exact Htag]. intros d Hd. apply is_gt_eq in Hd. now subst d.
- exists n. split; [exact Hn | reflexivity].
Qed.

End WholeWords.

(** C5, as stated, fails for both cleaners.  _clean_company_name:
    cleaning "HoHomeme Ltd" removes the inner "Home" and leaves
    "Home Ltd"; cleaning that leaves "Ltd".  clean_company_name of
    improved_analyzer.py: cleaning "Acme ." leaves "Acme " with its
    space; cleaning that leaves "Acme". *)
Lemma clean_not_idempotent :
  CompanyNameExtractor._clean_company_name
    (CompanyNameExtractor._clean_company_name (Some (lit "HoHomeme Ltd")))
  <> CompanyNameExtractor._clean_company_name (Some (lit "HoHomeme Ltd"))
  /\ ImprovedAnalyzer.clean_company_name
       (ImprovedAnalyzer.clean_company_name (Some (lit "Acme .")))
     <> ImprovedAnalyzer.clean_company_name (Some (lit "Acme .")).
Proof. split; vm_compute; discriminate. Qed.

(** C5, amended.  For _clean_company_name of company_name_extractor.py,
    cleaning a second time changes nothing when the first result is not
    empty, holds none of the clean-up phrases (in any letter case) and
    does not end in one of the characters [.,;:].  For clean_company_name
    of improved_analyzer.py, cleaning a second time changes nothing when
    the first result does not end in white space and holds none of the
    words to remove as a whole word (in any letter case), and when the
    first result is None. *)
Theorem clean_idempotent_on_stable_names :
  forall x y : str,
    (CompanyNameExtractor._clean_company_name (Some x) = Some y ->
     y <> [] ->
     (forall phrase, In phrase CompanyNameExtractor.cleanup_phrases ->
                     ci_contains phrase y = false) ->
     last_in trailing_punct y = false ->
     CompanyNameExtractor._clean_company_name
       (CompanyNameExtractor._clean_company_name (Some x))
     = CompanyNameExtractor._clean_company_name (Some x))
    /\ (ImprovedAnalyzer.clean_company_name (Some x) = Some y ->
        last_in isspace y = false ->
        (forall word, In word ImprovedAnalyzer.words_to_remove ->
                      whole_word_in (lit word) None y = false) ->
        ImprovedAnalyzer.clean_company_name
          (ImprovedAnalyzer.clean_company_name (Some x))
        = ImprovedAnalyzer.clean_company_name (Some x))
    /\ (ImprovedAnalyzer.clean_company_name (Some x) = None ->
        ImprovedAnalyzer.clean_company_name
          (ImprovedAnalyzer.clean_company_name (Some x))
        = ImprovedAnalyzer.clean_company_name (Some x)).
Proof.
intros x y. split; [|split].
- intros Hx Hne Hphr Hpunct. rewrite Hx.
  destruct (clean_output _ _ Hx) as [Htag Hnorm].
  destruct y as [|c y']; [congruence|]. rewrite clean_steps.
  rewrite (sub_unmatched _ _ matches_tag) by now apply tagfree_unmatched.
  rewrite (squeeze_fixed _ Hnorm).
  rewrite (remove_phrases_fixed _ _ cleanup_phrases_plain Hphr).
  rewrite (rstrip_fixed _ _ Hpunct).
  now rewrite (squeeze_fixed _ Hnorm).
- intros Hx Hsp Hw. rewrite Hx.
  destruct (improved_clean_shape _ _ Hx) as (Hlen & Htag & n & Hn & Hy).
  destruct y as [|c y']; [cbn [List.length] in Hlen; lia|].
  assert (Hnorm : normal (c :: y')).
  { destruct (rstrip_prefix trailing_punct n) as [t Ht]. rewrite <- Hy in Ht.
    destruct Hn as [Htidy Hhead]. rewrite Ht in Htidy, Hhead. split.
    - apply (tidy_prefix _ t); [now apply tidy_squeezed | exact Hsp].
    - exact Hhead. }
  assert (Hpunct : last_in trailing_punct (c :: y') = false)
    by (rewrite Hy; apply rstrip_last).
  rewrite improved_clean_eq.
  rewrite (sub_unmatched _ _ matches_tag) by now apply tagfree_unmatched.
  rewrite (squeeze_fixed _ Hnorm).
  rewrite (remove_words_fixed _ _ words_to_remove_plain Hw).
  rewrite (squeeze_fixed _ Hnorm).
  rewrite (rstrip_fixed _ _ Hpunct).
  apply Nat.leb_le in Hlen. now rewrite Hlen.
- intros Hx. rewrite Hx. reflexivity.
Qed.

(** "  Acme   Widgets Ltd. " is cleaned to "Acme Widgets Ltd" by both
    cleaners, and that stays; "ab." is cleaned to None by the cleaner of
    improved_analyzer.py. *)
Lemma clean_idempotent_on_stable_names_witness :
  CompanyNameExtractor._clean_company_name
    (CompanyNameExtractor._clean_company_name (Some (lit "  Acme   Widgets Ltd. ")))
  = CompanyNameExtractor._clean_company_name (Some (lit "  Acme   Widgets Ltd. "))
  /\ ImprovedAnalyzer.clean_company_name
       (ImprovedAnalyzer.clean_company_name (Some (lit "  Acme   Widgets Ltd. ")))
     = ImprovedAnalyzer.clean_company_name (Some (lit "  Acme   Widgets Ltd. "))
  /\ ImprovedAnalyzer.clean_company_name
       (ImprovedAnalyzer.clean_company_name (Some (lit "ab.")))
     = ImprovedAnalyzer.clean_company_name (Some (lit "ab.")).
Proof.
split; [|split].
- apply (proj1 (clean_idempotent_on_stable_names
                  (lit "  Acme   Widgets Ltd. ") (lit "Acme Widgets Ltd"))).
  + vm_compute. reflexivity.
  + discriminate.
  + intros phrase Hin. unfold CompanyNameExtractor.cleanup_phrases in Hin.
    cbn [map In] in Hin.
    repeat (destruct Hin as [<-|Hin]; [vm_compute; reflexivity|]). destruct Hin.
  + vm_compute. reflexivity.
- apply (proj1 (proj2 (clean_idempotent_on_stable_names
                         (lit "  Acme   Widgets Ltd. ") (lit "Acme Widgets Ltd")))).
  + vm_compute. reflexivity.
  + vm_compute. reflexivity.
  + intros word Hin. unfold ImprovedAnalyzer.words_to_remove in Hin.
    cbn [In] in Hin.
    repeat (destruct Hin as [<-|Hin]; [vm_compute; reflexivity|]). destruct Hin.
- apply (proj2 (proj2 (clean_idempotent_on_stable_names (lit "ab.") []))).
  vm_compute. reflexivity.
Defined.

(** ** The text normaliser *)

Section Normaliser.

Lemma text_steps : forall html_parser c x,
  CompanyNameExtractor.extract_text_from_html html_parser (c :: x)
  = squeeze (Soup.get_text (lit " ")
               (Soup.decompose_all (map lit ["script"; "style"; "head"; "nav"])
                                   (html_parser (c :: x)))).
Proof. reflexivity. Qed.

Lemma span_all : forall p s, forallb p s = true -> Soup.span p s = (s, []).
Proof.
intros p. induction s as [|c s IH]; intros H; [reflexivity|].
cbn [forallb] in H. apply andb_prop in H. destruct H as [Hc Hs].
cbn [Soup.span]. now rewrite Hc, (IH Hs).
Qed.

Lemma reference_parser_keeps_plain_text : keeps_plain_text Soup.html_parser.
Proof.
intros c t _ H. unfold Soup.html_parser. cbn [Soup.tokenize].
assert (Hc := H). cbn [markup_free forallb] in Hc. apply andb_prop in Hc.
destruct Hc as [Hc _]. apply negb_true_iff, orb_false_elim in Hc.
destruct Hc as [H60 H38]. rewrite H60, H38.
unfold markup_free in H. rewrite (span_all _ _ H).
assert (Soup.tokenize (List.length (c :: t)) [] = []) as ->
  by (destruct (List.length (c :: t)); reflexivity).
reflexivity.
Qed.

End Normaliser.

(** C6, as stated, fails: "&amp;lt;" is normalised to "&lt;", and that
    to "<". *)
Lemma text_normaliser_not_idempotent :
  CompanyNameExtractor.extract_text_from_html Soup.html_parser
    (CompanyNameExtractor.extract_text_from_html Soup.html_parser (lit "&amp;lt;"))
  <> CompanyNameExtractor.extract_text_from_html Soup.html_parser (lit "&amp;lt;").
Proof. vm_compute. discriminate. Qed.

(** C6, amended.  With a parser that returns text free of markup
    characters as one string, normalising a second time changes nothing
    when the first result holds neither [<] nor [&]. *)
Theorem text_normaliser_idempotent_on_plain_text :
  forall (html_parser : str -> Soup.soup) (x : str),
    keeps_plain_text html_parser ->
    markup_free (CompanyNameExtractor.extract_text_from_html html_parser x) = true ->
    CompanyNameExtractor.extract_text_from_html html_parser
      (CompanyNameExtractor.extract_text_from_html html_parser x)
    = CompanyNameExtractor.extract_text_from_html html_parser x.
Proof.
intros html_parser x Hplain Hfree.
destruct x as [|c x]; [reflexivity|].
rewrite text_steps in *.
set (text := Soup.get_text _ _) in *.
assert (Hnorm := squeeze_normal text).
destruct (squeeze text) as [|d y] eqn:Ey; [reflexivity|].
rewrite text_steps. rewrite (Hplain d y (proj2 Hnorm) Hfree).
cbn [Soup.decompose_all flat_map Soup.decompose app Soup.get_text Soup.strings join].
rewrite <- Ey. apply squeeze_idempotent.
Qed.

(** The page "<p>Acme   Widgets</p>" gives "Acme Widgets", which stays. *)
Lemma text_normaliser_idempotent_on_plain_text_witness :
  CompanyNameExtractor.extract_text_from_html Soup.html_parser
    (CompanyNameExtractor.extract_text_from_html Soup.html_parser
       (lit "<p>Acme   Widgets</p>"))
  = CompanyNameExtractor.extract_text_from_html Soup.html_parser
      (lit "<p>Acme   Widgets</p>").
Proof.
apply (text_normaliser_idempotent_on_plain_text Soup.html_parser
         (lit "<p>Acme   Widgets</p>")).
- exact reference_parser_keeps_plain_text.
- vm_compute. reflexivity.
Defined.


(* ================================================================== *)
(** * Further properties of the code *)

(** ** What a fetch costs and where its content comes from *)

Lemma after_request : forall s url n k,
  IO (requests (after s url n k) ++ [url]) (sleeps (after s url n k))
  = after s url (S n) k.
Proof.
intros s url n k. unfold after. cbn [requests sleeps]. rewrite <- app_assoc.
f_equal. f_equal. clear. induction n; cbn; [reflexivity | now f_equal].
Qed.

Lemma after_after : forall s url n k n' k',
  after (after s url n k) url n' k' = after s url (n + n') (k + k').
Proof.
intros s url n k n' k'. unfold after. cbn [requests sleeps].
rewrite <- app_assoc, repeat_app. f_equal. lia.
Qed.

Lemma fetch_attempts_cost : forall w m url s,
  exists n k,
    n <= m /\ (0 < m -> 1 <= n) /\ n - 1 <= k /\ k <= n
    /\ snd (CompanyNameExtractor.fetch_attempts w m url s) = after s url n k.
Proof.
intros w. induction m as [|m IH]; intros url s.
- exists 0, 0. cbn. rewrite after_0. repeat split; lia.
- cbn [CompanyNameExtractor.fetch_attempts get].
  assert (Hs1 : IO (requests s ++ [url]) (sleeps s) = after s url 1 0).
  { unfold after. cbn. f_equal. lia. }
  assert (Hstop : exists n k, n <= S m /\ (0 < S m -> 1 <= n) /\ n - 1 <= k /\ k <= n
                    /\ IO (requests s ++ [url]) (sleeps s) = after s url n k).
  { exists 1, 0. repeat split; try lia. exact Hs1. }
  assert (Hgo : exists n k, n <= S m /\ (0 < S m -> 1 <= n) /\ n - 1 <= k /\ k <= n
                  /\ snd (CompanyNameExtractor.fetch_attempts w m url
                            (sleep (IO (requests s ++ [url]) (sleeps s))))
                     = after s url n k).
  { destruct (IH url (sleep (IO (requests s ++ [url]) (sleeps s))))
      as (n & k & Hn & _ & Hk1 & Hk2 & Heq).
    exists (S n), (S k). repeat split; try lia. rewrite Heq.
    unfold sleep, after. cbn [requests sleeps]. rewrite <- app_assoc. cbn [app repeat].
    f_equal. lia. }
  destruct (w (List.length (requests s)) url) as [code text| | | |message];
    try exact Hgo; [|exact Hstop].
  destruct (code =? 200)%Z; [exact Hstop|].
  destruct (code =? 403)%Z; [exact Hstop|].
  destruct (code =? 404)%Z; [exact Hstop | exact Hgo].
Qed.

(** X1.  [fetch_url] makes at least one and at most [max_retries] requests,
    all of them for the URL it was given, and sleeps once after each
    request but possibly the last. *)
Theorem fetch_url_cost :
  forall (w : web) (url : str) (s : io),
    exists n k,
      1 <= n /\ n <= CompanyNameExtractor.max_retries /\ n - 1 <= k /\ k <= n
      /\ snd (CompanyNameExtractor.fetch_url w url s) = after s url n k.
Proof.
intros w url s.
destruct (fetch_attempts_cost w CompanyNameExtractor.max_retries url s)
  as (n & k & Hn & Hpos & Hk1 & Hk2 & Heq).
exists n, k. repeat split; try assumption. apply Hpos.
unfold CompanyNameExtractor.max_retries. lia.
Qed.

Lemma fetch_attempts_source : forall w m url s text,
  fst (CompanyNameExtractor.fetch_attempts w m url s) = Returned (Some text) ->
  exists j, j < m /\ w (List.length (requests s) + j) url = Response 200 text.
Proof.
intros w. induction m as [|m IH]; intros url s text H; [discriminate|].
cbn [CompanyNameExtractor.fetch_attempts get] in H.
assert (Hgo : fst (CompanyNameExtractor.fetch_attempts w m url
                     (sleep (IO (requests s ++ [url]) (sleeps s))))
              = Returned (Some text) ->
              exists j, j < S m /\ w (List.length (requests s) + j) url = Response 200 text).
{ intros H'. apply IH in H'. destruct H' as (j & Hj & Hw).
  exists (S j). split; [lia|]. cbn [sleep requests] in Hw.
  rewrite length_app in Hw. cbn [List.length] in Hw.
  replace (List.length (requests s) + S j)
    with (List.length (requests s) + 1 + j) by lia. exact Hw. }
destruct (w (List.length (requests s)) url) as [code body| | | |message] eqn:Ew;
  try (now apply Hgo).
destruct (code =? 200)%Z eqn:E200.
- cbn [fst] in H. inversion H; subst body. apply Z.eqb_eq in E200. subst code.
  exists 0. split; [lia|]. now rewrite Nat.add_0_r.
- destruct (code =? 403)%Z; [discriminate|].
  destruct (code =? 404)%Z; [discriminate|]. now apply Hgo.
Qed.

(** X2.  What [fetch_url] returns is the body of a 200 answer to one of
    its (at most [max_retries]) requests for that URL. *)
Theorem fetch_url_source :
  forall (w : web) (url : str) (s : io) (text : str),
    fst (CompanyNameExtractor.fetch_url w url s) = Returned (Some text) ->
    exists j,
      j < CompanyNameExtractor.max_retries
      /\ w (List.length (requests s) + j) url = Response 200 text.
Proof.
intros w url s text H. now apply fetch_attempts_source.
Qed.

(** A server that fails twice and then answers. *)
Lemma fetch_url_source_witness :
  exists j,
    j < CompanyNameExtractor.max_retries
    /\ (fun n (_ : str) => match n with
                           | 2 => Response 200 (lit "hello")
                           | _ => Timeout
                           end) (List.length (requests io0) + j) (lit "https://example.com")
       = Response 200 (lit "hello").
Proof.
apply (fetch_url_source
         (fun n _ => match n with 2 => Response 200 (lit "hello") | _ => Timeout end)
         (lit "https://example.com") io0 (lit "hello")).
reflexivity.
Defined.

Lemma truthy_nonempty : forall o, truthy o = true -> exists c t, o = Some (c :: t).
Proof.
intros [[|c t]|] H; try discriminate. now exists c, t.
Qed.

Lemma fetch_first_some : forall w urls s url content,
  fst (CompanyNameExtractor.fetch_first w urls s) = Returned (Some (url, content)) ->
  In url urls /\ content <> [] /\ exists n, w n url = Response 200 content.
Proof.
intros w. induction urls as [|u urls IH]; intros s url content H; [discriminate|].
cbn [CompanyNameExtractor.fetch_first] in H.
destruct (CompanyNameExtractor.fetch_url w u s) as [[got|message] s1] eqn:Ef;
  [|discriminate H].
destruct (truthy got) eqn:Et.
- apply truthy_nonempty in Et. destruct Et as (c & t & ->).
  cbn [fst] in H. inversion H; subst. split; [now left|]. split; [discriminate|].
  assert (Hs : fst (CompanyNameExtractor.fetch_url w url s) = Returned (Some (c :: t)))
    by now rewrite Ef.
  apply fetch_attempts_source in Hs. destruct Hs as (j & _ & Hw). eauto.
- apply IH in H. destruct H as (Hin & Hne & Hw). split; [now right | now split].
Qed.

(** The ways [extract_company_name] returns a result. *)
Lemma extractor_returns : forall w html_parser domain s r,
  fst (CompanyNameExtractor.extract_company_name w html_parser domain s) = Returned r ->
  (fst (CompanyNameExtractor.fetch_first w (CompanyNameExtractor.homepage_urls domain) s)
   = Returned None
   /\ r = CompanyNameExtractor.Result domain error None)
  \/ exists url content,
       fst (CompanyNameExtractor.fetch_first w
              (CompanyNameExtractor.homepage_urls domain) s)
       = Returned (Some (url, content))
       /\ ((truthy (CompanyNameExtractor.extract_company_name_from_text content) = true
            /\ r = CompanyNameExtractor.Result domain analyzed
                     (CompanyNameExtractor.extract_company_name_from_text content))
           \/ (truthy (CompanyNameExtractor.extract_company_name_from_text content)
               = false
               /\ exists found,
                    fst (CompanyNameExtractor.check_policy_urls w html_parser
                           (CompanyNameExtractor.find_privacy_policy_url url content)
                           (snd (CompanyNameExtractor.fetch_first w
                                   (CompanyNameExtractor.homepage_urls domain) s)))
                    = Returned found
                    /\ r = CompanyNameExtractor.Result domain analyzed found)).
Proof.
intros w html_parser domain s r H.
unfold CompanyNameExtractor.extract_company_name in H.
destruct (CompanyNameExtractor.fetch_first w
            (CompanyNameExtractor.homepage_urls domain) s)
  as [[[[url content]|]|message] s1]; [| |discriminate H].
- right. exists url, content. split; [reflexivity|]. cbn [snd].
  destruct (truthy (CompanyNameExtractor.extract_company_name_from_text content)).
  + left. split; [reflexivity|]. cbn [fst] in H. apply returned_inj in H. now subst r.
  + right. split; [reflexivity|].
    destruct (CompanyNameExtractor.check_policy_urls w html_parser
                (CompanyNameExtractor.find_privacy_policy_url url content) s1)
      as [[[name|]|message] s2]; [| |discriminate H];
      cbn [fst] in H; apply returned_inj in H; subst r; eexists; split; reflexivity.
- left. split; [reflexivity|]. cbn [fst] in H. apply returned_inj in H. now subst r.
Qed.

Lemma domain_try_urls_some : forall w urls s text,
  fst (DomainAnalyzer.try_urls w urls s) = Some text ->
  exists url n, In url urls /\ w n url = Response 200 text.
Proof.
intros w. induction urls as [|u urls IH]; intros s text H; [discriminate|].
cbn [DomainAnalyzer.try_urls get] in H.
assert (Hgo : forall s', fst (DomainAnalyzer.try_urls w urls s') = Some text ->
                         exists url n, In url (u :: urls) /\ w n url = Response 200 text).
{ intros s' H'. apply IH in H'. destruct H' as (url & n & Hin & Hw).
  exists url, n. split; [now right | assumption]. }
destruct (w (List.length (requests s)) u) as [code body| | | |message] eqn:Ew;
  try (now apply Hgo in H).
destruct (code =? 200)%Z eqn:E200; [|now apply Hgo in H].
cbn [fst] in H. inversion H; subst body. apply Z.eqb_eq in E200. subst code.
exists u, (List.length (requests s)). split; [now left | assumption].
Qed.

Lemma improved_try_urls_some : forall w urls s url content,
  fst (ImprovedAnalyzer.try_urls w urls s) = Some (url, content) ->
  In url urls /\ content <> [] /\ exists n, w n url = Response 200 content.
Proof.
intros w. induction urls as [|u urls IH]; intros s url content H; [discriminate|].
cbn [ImprovedAnalyzer.try_urls] in H.
destruct (ImprovedAnalyzer.fetch_url w u s) as [got s1] eqn:Ef.
destruct (truthy got) eqn:Et.
- apply truthy_nonempty in Et. destruct Et as (c & t & ->).
  cbn [fst] in H. inversion H; subst. split; [now left|]. split; [discriminate|].
  unfold ImprovedAnalyzer.fetch_url in Ef. cbn [get] in Ef.
  destruct (w (List.length (requests s)) url) as [code body| | | |message] eqn:Ew;
    try discriminate.
  destruct (code =? 200)%Z eqn:E200; [|discriminate].
  inversion Ef; subst. apply Z.eqb_eq in E200. subst code. eauto.
- apply IH in H. destruct H as (Hin & Hne & Hw). split; [now right | now split].
Qed.

(** X3.  Outcome of an analysis, for the three analyzers: either the
    status is "error" and there is no company name, or the status is
    "analyzed" and one of the candidate URLs of the domain has answered
    200 with a body that is not empty.  (A 200 answer with an empty body
    does not count as a fetched homepage.) *)
Theorem analysis_outcome :
  forall (w : web) (html_parser : str -> Soup.soup) (domain : str) (s : io),
    let answered (urls : list str) :=
      exists url n text, In url urls /\ text <> [] /\ w n url = Response 200 text in
    (forall r,
        fst (CompanyNameExtractor.extract_company_name w html_parser domain s)
        = Returned r ->
        (CompanyNameExtractor.status r = error
         /\ CompanyNameExtractor.company_name r = None)
        \/ (CompanyNameExtractor.status r = analyzed
            /\ answered (CompanyNameExtractor.homepage_urls domain)))
    /\ (let r := fst (DomainAnalyzer.analyze_domain w domain s) in
        (DomainAnalyzer.status r = error /\ DomainAnalyzer.company_name r = None)
        \/ (DomainAnalyzer.status r = analyzed
            /\ answered (DomainAnalyzer.homepage_urls domain)))
    /\ (let r := fst (ImprovedAnalyzer.analyze_domain w domain s) in
        (ImprovedAnalyzer.status r = error /\ ImprovedAnalyzer.company_name r = None
         /\ ImprovedAnalyzer.contact_url r = None)
        \/ (ImprovedAnalyzer.status r = analyzed
            /\ answered (ImprovedAnalyzer.homepage_urls domain))).
Proof.
intros w html_parser domain s answered. cbv zeta. repeat split.
- intros r H. apply extractor_returns in H.
  destruct H as [[_ ->]|(url & content & Hf & H)]; [left; split; reflexivity|].
  right.
  assert (Ha : answered (CompanyNameExtractor.homepage_urls domain)).
  { apply fetch_first_some in Hf. destruct Hf as (Hin & Hne & n & Hw).
    exists url, n, content. auto. }
  destruct H as [[_ ->]|(_ & found & _ & ->)]; split; try reflexivity; exact Ha.
- unfold DomainAnalyzer.analyze_domain, DomainAnalyzer.fetch_homepage.
  destruct (DomainAnalyzer.try_urls w _ s) as [content s1] eqn:Ef.
  destruct (truthy content) eqn:Et; cbn [negb]; [right | left; split; reflexivity].
  split; [reflexivity|]. apply truthy_nonempty in Et. destruct Et as (c & t & ->).
  assert (Hf : fst (DomainAnalyzer.try_urls w (DomainAnalyzer.homepage_urls domain) s)
               = Some (c :: t)) by now rewrite Ef.
  apply domain_try_urls_some in Hf. destruct Hf as (url & n & Hin & Hw).
  exists url, n, (c :: t). repeat split; [assumption | discriminate | assumption].
- unfold ImprovedAnalyzer.analyze_domain, ImprovedAnalyzer.fetch_homepage.
  destruct (ImprovedAnalyzer.try_urls w _ s) as [[[url content]|] s1] eqn:Ef;
    [right | left; repeat split; reflexivity].
  split; [reflexivity|].
  assert (Hf : fst (ImprovedAnalyzer.try_urls w (ImprovedAnalyzer.homepage_urls domain) s)
               = Some (url, content)) by now rewrite Ef.
  apply improved_try_urls_some in Hf. destruct Hf as (Hin & Hne & n & Hw).
  exists url, n, content. auto.
Qed.

Lemma domain_try_urls_requests : forall w urls s,
  exists k,
    k <= List.length urls
    /\ snd (DomainAnalyzer.try_urls w urls s) = IO (requests s ++ firstn k urls) (sleeps s)
    /\ (fst (DomainAnalyzer.try_urls w urls s) = None -> k = List.length urls).
Proof.
intros w. induction urls as [|u urls IH]; intros s.
- exists 0. cbn. rewrite app_nil_r. destruct s. repeat split; lia.
- cbn [DomainAnalyzer.try_urls get].
  assert (Hgo : exists k, k <= List.length (u :: urls)
      /\ snd (DomainAnalyzer.try_urls w urls (IO (requests s ++ [u]) (sleeps s)))
         = IO (requests s ++ firstn k (u :: urls)) (sleeps s)
      /\ (fst (DomainAnalyzer.try_urls w urls (IO (requests s ++ [u]) (sleeps s))) = None
          -> k = List.length (u :: urls))).
  { destruct (IH (IO (requests s ++ [u]) (sleeps s))) as (k & Hk & Heq & Hnone).
    exists (S k). cbn [List.length firstn requests sleeps] in *.
    rewrite <- app_assoc in Heq. repeat split; [lia | exact Heq | intros H; f_equal; auto]. }
  destruct (w (List.length (requests s)) u) as [code body| | | |message]; try exact Hgo.
  destruct (code =? 200)%Z; [|exact Hgo].
  exists 1. cbn [List.length firstn fst snd]. repeat split; [lia | discriminate].
Qed.

Lemma improved_try_urls_requests : forall w urls s,
  exists k,
    k <= List.length urls
    /\ snd (ImprovedAnalyzer.try_urls w urls s) = IO (requests s ++ firstn k urls) (sleeps s)
    /\ (fst (ImprovedAnalyzer.try_urls w urls s) = None -> k = List.length urls).
Proof.
intros w. induction urls as [|u urls IH]; intros s.
- exists 0. cbn. rewrite app_nil_r. destruct s. repeat split; lia.
- cbn [ImprovedAnalyzer.try_urls].
  destruct (ImprovedAnalyzer.fetch_url w u s) as [got s1] eqn:Ef.
  assert (Hs1 : s1 = IO (requests s ++ [u]) (sleeps s)).
  { unfold ImprovedAnalyzer.fetch_url in Ef. cbn [get] in Ef.
    destruct (w (List.length (requests s)) u) as [code body| | | |message];
      try (inversion Ef; reflexivity).
    destruct (code =? 200)%Z; inversion Ef; reflexivity. }
  subst s1. destruct (truthy got) eqn:Et.
  + exists 1. cbn [List.length firstn fst snd]. repeat split; [lia|].
    apply truthy_nonempty in Et. destruct Et as (c & t & ->). discriminate.
  + destruct (IH (IO (requests s ++ [u]) (sleeps s))) as (k & Hk & Heq & Hnone).
    exists (S k). cbn [List.length firstn requests sleeps] in *.
    rewrite <- app_assoc in Heq. repeat split; [lia | exact Heq | intros H; f_equal; auto].
Qed.

Lemma domain_try_urls_stops : forall w urls s,
  exists k,
    k <= List.length urls
    /\ snd (DomainAnalyzer.try_urls w urls s) = IO (requests s ++ firstn k urls) (sleeps s)
    /\ (fst (DomainAnalyzer.try_urls w urls s) = None -> k = List.length urls)
    /\ (forall i url,
          nth_error urls i = Some url -> S i < k ->
          page_of (w (List.length (requests s) + i) url) = None)
    /\ match fst (DomainAnalyzer.try_urls w urls s) with
       | Some text =>
         0 < k
         /\ exists url,
              nth_error urls (pred k) = Some url
              /\ w (List.length (requests s) + pred k) url = Response 200 text
       | None =>
         forall i url,
           nth_error urls i = Some url ->
           page_of (w (List.length (requests s) + i) url) = None
       end.
Proof.
intros w. induction urls as [|u urls IH]; intros s.
- exists 0. cbn [DomainAnalyzer.try_urls fst snd firstn List.length].
  rewrite app_nil_r. destruct s. repeat split; try lia.
  intros [|i] url H; discriminate H.
- cbn [DomainAnalyzer.try_urls get].
  destruct (page_of (w (List.length (requests s)) u)) as [text|] eqn:Ep.
  + unfold page_of in Ep.
    destruct (w (List.length (requests s)) u) as [code body| | | |message] eqn:Ew;
      try discriminate Ep.
    destruct (code =? 200)%Z eqn:E200; [|discriminate Ep].
    apply some_inj in Ep. subst body. apply Z.eqb_eq in E200. subst code.
    exists 1. cbn [List.length firstn fst snd pred].
    repeat split; try lia; try discriminate.
    exists u. split; [reflexivity|]. now rewrite Nat.add_0_r.
  + assert (Ego : (let (o, s1) := (w (List.length (requests s)) u,
                                   IO (requests s ++ [u]) (sleeps s)) in
                   match o with
                   | Response code text =>
                     if (code =? 200)%Z then (Some text, s1)
                     else DomainAnalyzer.try_urls w urls s1
                   | _ => DomainAnalyzer.try_urls w urls s1
                   end)
                  = DomainAnalyzer.try_urls w urls (IO (requests s ++ [u]) (sleeps s))).
    { unfold page_of in Ep.
      destruct (w (List.length (requests s)) u) as [code body| | | |message];
        try reflexivity.
      destruct (code =? 200)%Z; [discriminate Ep | reflexivity]. }
    rewrite Ego. clear Ego.
    destruct (IH (IO (requests s ++ [u]) (sleeps s)))
      as (k & Hk & Heq & Hnone & Hbefore & Hlast).
    cbn [requests sleeps] in Heq, Hbefore, Hlast. rewrite length_app in Hbefore, Hlast.
    cbn [List.length] in Hbefore, Hlast.
    assert (Hat : forall i url (P : outcome -> Prop),
              P (w (List.length (requests s) + 1 + i) url) ->
              P (w (List.length (requests s) + S i) url)).
    { intros i url P HP.
      now replace (List.length (requests s) + S i)
        with (List.length (requests s) + 1 + i) by lia. }
    exists (S k). cbn [List.length firstn]. rewrite <- app_assoc in Heq.
    split; [lia|]. split; [exact Heq|]. split; [intros H; f_equal; auto|]. split.
    * intros [|i] url Hi Hlt.
      -- cbn [nth_error] in Hi. apply some_inj in Hi. subst url.
         now rewrite Nat.add_0_r.
      -- cbn [nth_error] in Hi.
         apply (Hat i url (fun o => page_of o = None)). apply Hbefore; [exact Hi | lia].
    * destruct (fst (DomainAnalyzer.try_urls w urls (IO (requests s ++ [u]) (sleeps s))))
        as [text|].
      -- destruct Hlast as (Hpos & url & Hnth & Hw). split; [lia|]. exists url.
         cbn [pred]. destruct k as [|k]; [lia|]. cbn [pred nth_error] in *.
         split; [exact Hnth|].
         exact (Hat k url (fun o => o = Response 200 text) Hw).
      -- intros [|i] url Hi.
         ++ cbn [nth_error] in Hi. apply some_inj in Hi. subst url.
            now rewrite Nat.add_0_r.
         ++ cbn [nth_error] in Hi.
            apply (Hat i url (fun o => page_of o = None)). now apply Hlast.
Qed.

Lemma improved_fetch_url_page : forall w url s,
  ImprovedAnalyzer.fetch_url w url s
  = (page_of (w (List.length (requests s)) url), IO (requests s ++ [url]) (sleeps s)).
Proof.
intros w url s. unfold ImprovedAnalyzer.fetch_url, page_of. cbn [get].
destruct (w (List.length (requests s)) url) as [code body| | | |message];
  try reflexivity.
destruct (code =? 200)%Z; reflexivity.
Qed.

Lemma page_of_some : forall o text, page_of o = Some text -> o = Response 200 text.
Proof.
intros o text H. unfold page_of in H.
destruct o as [code body| | | |message]; try discriminate H.
destruct (code =? 200)%Z eqn:E200; [|discriminate H].
apply some_inj in H. subst body. apply Z.eqb_eq in E200. now subst code.
Qed.

Lemma improved_try_urls_stops : forall w urls s,
  exists k,
    k <= List.length urls
    /\ snd (ImprovedAnalyzer.try_urls w urls s)
       = IO (requests s ++ firstn k urls) (sleeps s)
    /\ (fst (ImprovedAnalyzer.try_urls w urls s) = None -> k = List.length urls)
    /\ (forall i url,
          nth_error urls i = Some url -> S i < k ->
          truthy (page_of (w (List.length (requests s) + i) url)) = false)
    /\ match fst (ImprovedAnalyzer.try_urls w urls s) with
       | Some (url, content) =>
         0 < k
         /\ nth_error urls (pred k) = Some url
         /\ w (List.length (requests s) + pred k) url = Response 200 content
         /\ content <> []
       | None =>
         forall i url,
           nth_error urls i = Some url ->
           truthy (page_of (w (List.length (requests s) + i) url)) = false
       end.
Proof.
intros w. induction urls as [|u urls IH]; intros s.
- exists 0. cbn [ImprovedAnalyzer.try_urls fst snd firstn List.length].
  rewrite app_nil_r. destruct s. repeat split; try lia.
  intros [|i] url H; discriminate H.
- cbn [ImprovedAnalyzer.try_urls]. rewrite improved_fetch_url_page.
  destruct (truthy (page_of (w (List.length (requests s)) u))) eqn:Et.
  + apply truthy_nonempty in Et. destruct Et as (c & t & Et). rewrite Et.
    apply page_of_some in Et.
    exists 1. cbn [List.length firstn fst snd pred nth_error].
    repeat split; try lia; try discriminate.
    now rewrite Nat.add_0_r.
  + destruct (IH (IO (requests s ++ [u]) (sleeps s)))
      as (k & Hk & Heq & Hnone & Hbefore & Hlast).
    cbn [requests sleeps] in Heq, Hbefore, Hlast. rewrite length_app in Hbefore, Hlast.
    cbn [List.length] in Hbefore, Hlast.
    assert (Hat : forall i url (P : outcome -> Prop),
              P (w (List.length (requests s) + 1 + i) url) ->
              P (w (List.length (requests s) + S i) url)).
    { intros i url P HP.
      now replace (List.length (requests s) + S i)
        with (List.length (requests s) + 1 + i) by lia. }
    exists (S k). cbn [List.length firstn]. rewrite <- app_assoc in Heq.
    split; [lia|]. split; [exact Heq|]. split; [intros H; f_equal; auto|]. split.
    * intros [|i] url Hi Hlt.
      -- cbn [nth_error] in Hi. apply some_inj in Hi. subst url.
         now rewrite Nat.add_0_r.
      -- cbn [nth_error] in Hi.
         apply (Hat i url (fun o => truthy (page_of o) = false)).
         apply Hbefore; [exact Hi | lia].
    * destruct (fst (ImprovedAnalyzer.try_urls w urls
                       (IO (requests s ++ [u]) (sleeps s)))) as [[url content]|].
      -- destruct Hlast as (Hpos & Hnth & Hw & Hne). split; [lia|].
         cbn [pred]. destruct k as [|k]; [lia|]. cbn [pred nth_error] in *.
         split; [exact Hnth|]. split; [|exact Hne].
         exact (Hat k url (fun o => o = Response 200 content) Hw).
      -- intros [|i] url Hi.
         ++ cbn [nth_error] in Hi. apply some_inj in Hi. subst url.
            now rewrite Nat.add_0_r.
         ++ cbn [nth_error] in Hi.
            apply (Hat i url (fun o => truthy (page_of o) = false)). now apply Hlast.
Qed.

(** X4.  The homepage fetch of domain_analyzer.py and of
    improved_analyzer.py asks for the candidate URLs one by one, in the
    order of the list, once each, and stops at the first that is accepted:
    the requests it adds are the first k candidates, it never sleeps, and
    every candidate before the k-th was refused.  When a page is returned,
    it is the body of the answer to the k-th request, which had status
    200; when nothing is returned, every candidate was asked and refused.
    domain_analyzer.py accepts an answer of status 200;
    improved_analyzer.py accepts one of status 200 whose body is not empty,
    and returns the URL with it. *)
Theorem homepage_requests_are_a_prefix :
  forall (w : web) (domain : str) (s : io),
    (exists k,
        k <= List.length (DomainAnalyzer.homepage_urls domain)
        /\ snd (DomainAnalyzer.fetch_homepage w domain s)
           = IO (requests s ++ firstn k (DomainAnalyzer.homepage_urls domain)) (sleeps s)
        /\ (fst (DomainAnalyzer.fetch_homepage w domain s) = None ->
            k = List.length (DomainAnalyzer.homepage_urls domain))
        /\ (forall i url,
              nth_error (DomainAnalyzer.homepage_urls domain) i = Some url ->
              S i < k ->
              page_of (w (List.length (requests s) + i) url) = None)
        /\ match fst (DomainAnalyzer.fetch_homepage w domain s) with
           | Some text =>
             0 < k
             /\ exists url,
                  nth_error (DomainAnalyzer.homepage_urls domain) (pred k) = Some url
                  /\ w (List.length (requests s) + pred k) url = Response 200 text
           | None =>
             forall i url,
               nth_error (DomainAnalyzer.homepage_urls domain) i = Some url ->
               page_of (w (List.length (requests s) + i) url) = None
           end)
    /\ (exists k,
        k <= List.length (ImprovedAnalyzer.homepage_urls domain)
        /\ snd (ImprovedAnalyzer.fetch_homepage w domain s)
           = IO (requests s ++ firstn k (ImprovedAnalyzer.homepage_urls domain)) (sleeps s)
        /\ (fst (ImprovedAnalyzer.fetch_homepage w domain s) = None ->
            k = List.length (ImprovedAnalyzer.homepage_urls domain))
        /\ (forall i url,
              nth_error (ImprovedAnalyzer.homepage_urls domain) i = Some url ->
              S i < k ->
              truthy (page_of (w (List.length (requests s) + i) url)) = false)
        /\ match fst (ImprovedAnalyzer.fetch_homepage w domain s) with
           | Some (url, content) =>
             0 < k
             /\ nth_error (ImprovedAnalyzer.homepage_urls domain) (pred k) = Some url
             /\ w (List.length (requests s) + pred k) url = Response 200 content
             /\ content <> []
           | None =>
             forall i url,
               nth_error (ImprovedAnalyzer.homepage_urls domain) i = Some url ->
               truthy (page_of (w (List.length (requests s) + i) url)) = false
           end).
Proof.
intros w domain s. split.
- apply domain_try_urls_stops.
- apply improved_try_urls_stops.
Qed.

(** ** The tally and the choice of the best form *)

Lemma total_bump : forall k counts,
  list_sum (map snd (CompanyNameExtractor.bump k counts))
  = S (list_sum (map snd counts)).
Proof.
intros k counts. induction counts as [|[k0 n] rest IH];
  cbn [CompanyNameExtractor.bump map snd list_sum fold_right]; [reflexivity|].
destruct (str_eqb k0 k); cbn [map snd list_sum fold_right]; [lia|].
change (fold_right Nat.add 0 (map snd (CompanyNameExtractor.bump k rest)))
  with (list_sum (map snd (CompanyNameExtractor.bump k rest))).
rewrite IH. unfold list_sum. lia.
Qed.

Lemma total_tally_from : forall ks counts,
  list_sum (map snd (tally_from counts ks))
  = list_sum (map snd counts) + List.length ks.
Proof.
induction ks as [|k ks IH]; intros counts; cbn [tally_from fold_left List.length].
- lia.
- fold (tally_from (CompanyNameExtractor.bump k counts) ks).
  rewrite IH, total_bump. lia.
Qed.

(** X5.  The tally of the candidates has one entry per distinct form, the
    count of a form is the number of its occurrences, and the counts add
    up to the number of candidates. *)
Theorem tally_accounts_for_every_candidate :
  forall ks : list str,
    NoDup (map fst (CompanyNameExtractor.tally ks))
    /\ (forall k n, In (k, n) (CompanyNameExtractor.tally ks)
                    <-> In k ks /\ n = occurrences k ks)
    /\ list_sum (map snd (CompanyNameExtractor.tally ks)) = List.length ks.
Proof.
intros ks. split; [|split].
- apply (nodup_tally_from ks []). constructor.
- intros k n. split.
  + intros H. split; [|now apply tally_count].
    apply tally_keys_in. change k with (fst (k, n)). now apply in_map.
  + intros [Hin ->]. now apply tally_has.
- unfold CompanyNameExtractor.tally. fold (tally_from [] ks).
  rewrite total_tally_from. reflexivity.
Qed.

Lemma best_of_head : forall ks k,
  best_of ks = Some k ->
  exists n, hd_error (CompanyNameExtractor.sorted_desc (CompanyNameExtractor.tally ks))
            = Some (k, n).
Proof.
intros ks k H. unfold best_of in H.
destruct (CompanyNameExtractor.sorted_desc (CompanyNameExtractor.tally ks))
  as [|[k0 n0] rest]; [discriminate|].
cbn in H. inversion H; subst. exists n0. reflexivity.
Qed.

Lemma best_of_in : forall ks k, best_of ks = Some k -> In k ks.
Proof.
intros ks k H. apply best_of_head in H. destruct H as (n & H).
apply sorted_desc_head in H. destruct H as (l1 & l2 & Hsplit & _).
apply tally_keys_in. rewrite Hsplit, map_app. apply in_or_app. right. now left.
Qed.

Lemma best_of_most : forall ks k k',
  best_of ks = Some k -> occurrences k' ks <= occurrences k ks.
Proof.
intros ks k k' H. apply best_of_head in H. destruct H as (n & H).
apply sorted_desc_head in H. destruct H as (l1 & l2 & Hsplit & Hl1 & Hl2).
assert (Hk : In (k, n) (CompanyNameExtractor.tally ks))
  by (rewrite Hsplit; apply in_or_app; right; now left).
apply tally_count in Hk. subst n.
destruct (in_dec str_dec k' ks) as [Hin|Hnot].
- apply tally_has in Hin. rewrite Hsplit in Hin. apply in_app_or in Hin.
  destruct Hin as [Hin|[Hin|Hin]].
  + apply Hl1 in Hin. cbn in Hin. lia.
  + inversion Hin; subst. lia.
  + apply Hl2 in Hin. cbn in Hin. lia.
- unfold occurrences at 1. rewrite (proj1 (count_occ_not_In str_dec ks k') Hnot). lia.
Qed.

Lemma best_of_some : forall ks, ks <> [] -> exists k, best_of ks = Some k.
Proof.
intros [|k0 ks] Hne; [congruence|]. unfold best_of.
destruct (CompanyNameExtractor.sorted_desc (CompanyNameExtractor.tally (k0 :: ks)))
  as [|[k n] rest] eqn:E.
- exfalso. revert E. apply sorted_desc_nonempty. intros Hnil.
  assert (Hin : In k0 (k0 :: ks)) by now left.
  apply tally_has in Hin. rewrite Hnil in Hin. destruct Hin.
- exists k. reflexivity.
Qed.

Lemma selection_most_frequent : forall ks : list str,
  ks <> [] ->
  exists k n rest,
    CompanyNameExtractor.sorted_desc (CompanyNameExtractor.tally ks) = (k, n) :: rest
    /\ In k ks
    /\ forall k', occurrences k' ks <= occurrences k ks.
Proof.
intros ks Hne. destruct (best_of_some ks Hne) as (k & Hk).
assert (Hin := best_of_in _ _ Hk).
assert (Hmost := fun k' => best_of_most ks k k' Hk).
unfold best_of in Hk.
destruct (CompanyNameExtractor.sorted_desc (CompanyNameExtractor.tally ks))
  as [|[k0 n] rest]; [discriminate Hk|].
cbn [map fst hd_error] in Hk. apply some_inj in Hk. subst k0.
exists k, n, rest. split; [reflexivity|]. split; assumption.
Qed.

(** X6.  When the scan of a text has produced at least one candidate,
    extract_company_name_from_text of company_name_extractor.py returns
    the cleaned form of one of the normalised keys of its candidates, and
    extract_company_name of domain_analyzer.py and of improved_analyzer.py
    return one of their candidates; no form the function counted occurs
    more often than the one it selected. *)
Theorem best_form_is_most_frequent :
  forall text : str,
    (CompanyNameExtractor.candidates_of text <> [] ->
     let forms := map CompanyNameExtractor._normalize_company_name
                    (CompanyNameExtractor.candidates_of text) in
     exists k,
       In k forms
       /\ (forall k', occurrences k' forms <= occurrences k forms)
       /\ CompanyNameExtractor.extract_company_name_from_text text
          = CompanyNameExtractor._clean_company_name (Some k))
    /\ (DomainAnalyzer.candidates_of text <> [] ->
        let forms := DomainAnalyzer.candidates_of text in
        exists k,
          In k forms
          /\ (forall k', occurrences k' forms <= occurrences k forms)
          /\ DomainAnalyzer.extract_company_name (Some text) = Some k)
    /\ (ImprovedAnalyzer.candidates_of text <> [] ->
        let forms := ImprovedAnalyzer.candidates_of text in
        exists k,
          In k forms
          /\ (forall k', occurrences k' forms <= occurrences k forms)
          /\ ImprovedAnalyzer.extract_company_name text = Some k).
Proof.
intros text. split; [|split]; intros Hne; cbv zeta.
- assert (Hforms : map CompanyNameExtractor._normalize_company_name
                     (CompanyNameExtractor.candidates_of text) <> []).
  { intros H. apply map_eq_nil in H. contradiction. }
  destruct (selection_most_frequent _ Hforms) as (k & n & rest & Hs & Hin & Hmost).
  exists k. rewrite from_text_selects, Hs. repeat split; assumption.
- destruct (selection_most_frequent _ Hne) as (k & n & rest & Hs & Hin & Hmost).
  exists k. rewrite domain_selects, Hs. repeat split; assumption.
- destruct (selection_most_frequent _ Hne) as (k & n & rest & Hs & Hin & Hmost).
  exists k. rewrite improved_selects, Hs. repeat split; assumption.
Qed.

(** The text "(c) 2023 Acme Widgets Ltd. All rights reserved." (with the
    copyright sign). *)
Lemma best_form_is_most_frequent_witness :
  let text := [169%N] ++ lit " 2023 Acme Widgets Ltd. All rights reserved." in
  (exists k,
      In k (map CompanyNameExtractor._normalize_company_name
              (CompanyNameExtractor.candidates_of text))
      /\ (forall k',
             occurrences k' (map CompanyNameExtractor._normalize_company_name
                               (CompanyNameExtractor.candidates_of text))
             <= occurrences k (map CompanyNameExtractor._normalize_company_name
                                 (CompanyNameExtractor.candidates_of text)))
      /\ CompanyNameExtractor.extract_company_name_from_text text
         = CompanyNameExtractor._clean_company_name (Some k))
  /\ (exists k,
        In k (DomainAnalyzer.candidates_of text)
        /\ (forall k', occurrences k' (DomainAnalyzer.candidates_of text)
                       <= occurrences k (DomainAnalyzer.candidates_of text))
        /\ DomainAnalyzer.extract_company_name (Some text) = Some k)
  /\ (exists k,
        In k (ImprovedAnalyzer.candidates_of text)
        /\ (forall k', occurrences k' (ImprovedAnalyzer.candidates_of text)
                       <= occurrences k (ImprovedAnalyzer.candidates_of text))
        /\ ImprovedAnalyzer.extract_company_name text = Some k).
Proof.
cbv zeta.
destruct (best_form_is_most_frequent
            ([169%N] ++ lit " 2023 Acme Widgets Ltd. All rights reserved."))
  as (H1 & H2 & H3).
split; [|split].
- apply H1. vm_compute. discriminate.
- apply H2. vm_compute. discriminate.
- apply H3. vm_compute. discriminate.
Defined.

(** ** Candidates are pieces of the text *)

Lemma substring_refl : forall s, substring s s.
Proof. intros s. exists [], []. now rewrite app_nil_r. Qed.

Lemma substring_trans : forall a b c, substring a b -> substring b c -> substring a c.
Proof.
intros a b c (p1 & q1 & ->) (p2 & q2 & ->).
exists (p2 ++ p1), (q1 ++ q2). now rewrite <- !app_assoc.
Qed.

Lemma skipn_substring : forall n (s : str), substring (skipn n s) s.
Proof.
intros n s. exists (firstn n s), []. now rewrite app_nil_r, firstn_skipn.
Qed.

Lemma firstn_substring : forall n (s : str), substring (firstn n s) s.
Proof.
intros n s. exists [], (skipn n s). cbn [app]. now rewrite firstn_skipn.
Qed.

Lemma slice_substring : forall i j s, substring (slice i j s) s.
Proof.
intros i j s. unfold slice.
eapply substring_trans; [apply firstn_substring | apply skipn_substring].
Qed.

Lemma strip_substring : forall s, substring (strip s) s.
Proof.
intros s. unfold strip.
destruct (rstrip_prefix isspace (lstrip_by isspace s)) as [t Ht].
destruct (lstrip_suffix isspace s) as [n Hn].
apply (substring_trans _ (lstrip_by isspace s) _).
- exists [], t. cbn [app]. exact Ht.
- rewrite Hn. apply skipn_substring.
Qed.

Lemma strip_idempotent : forall s, strip (strip s) = strip s.
Proof.
intros s. unfold strip.
set (a := lstrip_by isspace s).
assert (Hhead : match rstrip_by isspace a with
                | c :: _ => isspace c = false
                | [] => True
                end).
{ destruct (rstrip_by isspace a) as [|d u] eqn:Er; [exact I|].
  destruct a as [|c t] eqn:Ea; [discriminate|].
  rewrite (rstrip_keeps_head isspace (c :: t) c t d u eq_refl Er).
  eapply lstrip_head. exact Ea. }
rewrite (lstrip_fixed isspace _ Hhead). apply rstrip_fixed, rstrip_last.
Qed.

Lemma group1_substring : forall text m g, group1 text m = Some g -> substring g text.
Proof.
intros text m g H. unfold group1 in H.
destruct (m_group1 m) as [[i j]|]; [|discriminate].
inversion H; subst. apply slice_substring.
Qed.

(** X7.  Every candidate the extractor of company_name_extractor.py
    collects from a text has passed validation, occurs in the text
    character for character, and has no white space at either end. *)
Theorem extractor_candidates_are_validated_pieces :
  forall text : str,
    Forall (fun c => CompanyNameExtractor._validate_company_name c = true
                     /\ substring c text /\ strip c = c)
           (CompanyNameExtractor.candidates_of text).
Proof.
intros text. apply Forall_forall. intros c Hc.
unfold CompanyNameExtractor.candidates_of in Hc.
apply in_flat_map in Hc. destruct Hc as (pattern & _ & Hc).
apply in_flat_map in Hc. destruct Hc as (m & _ & Hc).
destruct (group1 text m) as [g|] eqn:Eg; [|destruct Hc].
destruct (CompanyNameExtractor._validate_company_name (strip g)) eqn:Ev;
  [|destruct Hc].
destruct Hc as [<-|[]]. split; [exact Ev|]. split; [|apply strip_idempotent].
eapply substring_trans; [apply strip_substring | eapply group1_substring; eassumption].
Qed.

Lemma domain_candidates : forall text c,
  In c (DomainAnalyzer.candidates_of text) ->
  substring c text /\ 3 <= List.length c /\ any_alpha c = true /\ strip c = c.
Proof.
intros text c Hc. unfold DomainAnalyzer.candidates_of in Hc.
apply in_flat_map in Hc. destruct Hc as (pattern & _ & Hc).
apply in_flat_map in Hc. destruct Hc as (m & _ & Hc).
destruct (group1 text m) as [g|] eqn:Eg; [|destruct Hc].
destruct ((3 <=? List.length (strip g)) && any_alpha (strip g)) eqn:Ev; [|destruct Hc].
destruct Hc as [<-|[]]. apply andb_prop in Ev. destruct Ev as [Hl Ha].
apply Nat.leb_le in Hl. repeat split; try assumption; [|apply strip_idempotent].
eapply substring_trans; [apply strip_substring | eapply group1_substring; eassumption].
Qed.

Lemma pick_best : forall candidates : list str,
  match CompanyNameExtractor.sorted_desc (CompanyNameExtractor.tally candidates) with
  | (best, _) :: _ => Some best
  | [] => None
  end = best_of candidates.
Proof.
intros candidates. unfold best_of.
destruct (CompanyNameExtractor.sorted_desc (CompanyNameExtractor.tally candidates))
  as [|[b n] r]; reflexivity.
Qed.

Lemma domain_extract_in : forall text name,
  DomainAnalyzer.extract_company_name text = Some name ->
  exists t, text = Some t /\ In name (DomainAnalyzer.candidates_of t).
Proof.
intros [[|c t]|] name H; try discriminate. exists (c :: t). split; [reflexivity|].
unfold DomainAnalyzer.extract_company_name in H.
destruct (DomainAnalyzer.candidates_of (c :: t)) as [|c0 cs] eqn:Ec; [discriminate|].
rewrite pick_best in H. now apply best_of_in.
Qed.

(** X8.  A company name returned by the analyzer of domain_analyzer.py
    occurs character for character in a page that one of the candidate
    URLs served with status 200; it has at least 3 characters, one of
    them a letter, and no white space at either end. *)
Theorem domain_analyzer_name_is_verbatim :
  forall (w : web) (domain : str) (s : io) (name : str),
    DomainAnalyzer.company_name (fst (DomainAnalyzer.analyze_domain w domain s))
    = Some name ->
    (exists url n page,
        In url (DomainAnalyzer.homepage_urls domain)
        /\ w n url = Response 200 page /\ substring name page)
    /\ 3 <= List.length name /\ any_alpha name = true /\ strip name = name.
Proof.
intros w domain s name H.
unfold DomainAnalyzer.analyze_domain, DomainAnalyzer.fetch_homepage in H.
destruct (DomainAnalyzer.try_urls w (DomainAnalyzer.homepage_urls domain) s)
  as [content s1] eqn:Ef.
destruct (negb (truthy content)); [discriminate|]. cbn [fst DomainAnalyzer.company_name] in H.
apply domain_extract_in in H. destruct H as (page & -> & Hin).
apply domain_candidates in Hin. destruct Hin as (Hsub & Hlen & Halpha & Hstrip).
split; [|now repeat split].
assert (Hf : fst (DomainAnalyzer.try_urls w (DomainAnalyzer.homepage_urls domain) s)
             = Some page) by now rewrite Ef.
apply domain_try_urls_some in Hf. destruct Hf as (url & n & Hu & Hw).
exists url, n, page. auto.
Qed.

(** The page "(c) 2023 Acme Widgets Ltd. All rights reserved." on
    https://example.com. *)
Lemma domain_analyzer_name_is_verbatim_witness :
  (exists url n page,
      In url (DomainAnalyzer.homepage_urls (lit "example.com"))
      /\ serving ([169%N] ++ lit " 2023 Acme Widgets Ltd. All rights reserved.") n url
         = Response 200 page
      /\ substring (lit "Acme Widgets Ltd") page)
  /\ 3 <= List.length (lit "Acme Widgets Ltd")
  /\ any_alpha (lit "Acme Widgets Ltd") = true
  /\ strip (lit "Acme Widgets Ltd") = lit "Acme Widgets Ltd".
Proof.
apply (domain_analyzer_name_is_verbatim
         (serving ([169%N] ++ lit " 2023 Acme Widgets Ltd. All rights reserved."))
         (lit "example.com") io0 (lit "Acme Widgets Ltd")).
vm_compute. reflexivity.
Defined.

(** ** The shape of a returned name *)

Lemma rstrip_idempotent : forall p s, rstrip_by p (rstrip_by p s) = rstrip_by p s.
Proof. intros p s. apply rstrip_fixed, rstrip_last. Qed.

Lemma guarded_rstrip : forall chars a y,
  (if 3 <=? List.length (rstrip_chars chars a)
   then Some (rstrip_chars chars a) else None) = Some y ->
  3 <= List.length y /\ rstrip_chars chars y = y.
Proof.
intros chars a y H.
destruct (3 <=? List.length (rstrip_chars chars a)) eqn:El; [|discriminate H].
apply some_inj in H. subst y. apply Nat.leb_le in El. split; [exact El|].
unfold rstrip_chars. apply rstrip_idempotent.
Qed.

Lemma improved_clean_steps : forall c t,
  exists a,
    ImprovedAnalyzer.clean_company_name (Some (c :: t))
    = if 3 <=? List.length (rstrip_chars (lit ".,;:") a)
      then Some (rstrip_chars (lit ".,;:") a) else None.
Proof.
intros c t. unfold ImprovedAnalyzer.clean_company_name. eexists. reflexivity.
Qed.

Lemma improved_clean_output : forall x y,
  ImprovedAnalyzer.clean_company_name x = Some y ->
  3 <= List.length y /\ rstrip_chars (lit ".,;:") y = y.
Proof.
intros x y H. destruct x as [name|]; [|discriminate H].
destruct name as [|c t]; [discriminate H|].
destruct (improved_clean_steps c t) as [a Ea].
apply (guarded_rstrip _ a). exact (eq_trans (eq_sym Ea) H).
Qed.

Lemma improved_candidates : forall text c,
  In c (ImprovedAnalyzer.candidates_of text) ->
  3 <= List.length c /\ any_alpha c = true /\ rstrip_chars (lit ".,;:") c = c.
Proof.
intros text c Hc. unfold ImprovedAnalyzer.candidates_of in Hc.
apply in_flat_map in Hc. destruct Hc as (pattern & _ & Hc).
apply in_flat_map in Hc. destruct Hc as (m & _ & Hc).
destruct (group1 text m) as [g|]; [|destruct Hc].
destruct (ImprovedAnalyzer.clean_company_name (Some (strip g))) as [company|] eqn:Ec;
  [|destruct Hc].
destruct ((3 <=? List.length company) && any_alpha company) eqn:Ev; [|destruct Hc].
destruct Hc as [<-|[]]. apply andb_prop in Ev. destruct Ev as [_ Ha].
apply improved_clean_output in Ec. destruct Ec as [Hl Hr]. auto.
Qed.

Lemma improved_extract_in : forall text name,
  ImprovedAnalyzer.extract_company_name text = Some name ->
  In name (ImprovedAnalyzer.candidates_of text).
Proof.
intros [|c t] name H; [discriminate|].
unfold ImprovedAnalyzer.extract_company_name in H.
destruct (ImprovedAnalyzer.candidates_of (c :: t)) as [|c0 cs] eqn:Ec; [discriminate|].
rewrite pick_best in H. now apply best_of_in.
Qed.

(** X9.  A company name returned by the analyzer of improved_analyzer.py
    has at least 3 characters, one of them a letter, and does not end in
    one of the characters . , ; : (stripping them again changes
    nothing). *)
Theorem improved_analyzer_name_shape :
  forall (w : web) (domain : str) (s : io) (name : str),
    ImprovedAnalyzer.company_name (fst (ImprovedAnalyzer.analyze_domain w domain s))
    = Some name ->
    3 <= List.length name /\ any_alpha name = true
    /\ rstrip_chars (lit ".,;:") name = name.
Proof.
intros w domain s name H. unfold ImprovedAnalyzer.analyze_domain in H.
destruct (ImprovedAnalyzer.fetch_homepage w domain s) as [[[base_url content]|] s1];
  [|discriminate].
cbn [fst ImprovedAnalyzer.company_name] in H.
apply improved_extract_in in H. eapply improved_candidates. exact H.
Qed.

(** The page "(c) 2023 Acme Widgets Ltd." on https://example.com. *)
Lemma improved_analyzer_name_shape_witness :
  3 <= List.length (lit "Acme Widgets Ltd")
  /\ any_alpha (lit "Acme Widgets Ltd") = true
  /\ rstrip_chars (lit ".,;:") (lit "Acme Widgets Ltd") = lit "Acme Widgets Ltd".
Proof.
apply (improved_analyzer_name_shape
         (serving ([169%N] ++ lit " 2023 Acme Widgets Ltd."))
         (lit "example.com") io0 (lit "Acme Widgets Ltd")).
vm_compute. reflexivity.
Defined.

Lemma from_text_cleaned : forall text name,
  CompanyNameExtractor.extract_company_name_from_text text = Some name ->
  exists x, CompanyNameExtractor._clean_company_name (Some x) = Some name.
Proof.
intros [|c t] name H; [discriminate|].
unfold CompanyNameExtractor.extract_company_name_from_text in H.
destruct (CompanyNameExtractor.candidates_of (c :: t)); [discriminate|].
destruct (CompanyNameExtractor.sorted_desc _) as [|[best n] r]; [discriminate|].
exists best. exact H.
Qed.

Lemma check_policy_urls_found : forall w html_parser urls s name,
  fst (CompanyNameExtractor.check_policy_urls w html_parser urls s)
  = Returned (Some name) ->
  name <> []
  /\ exists text,
       CompanyNameExtractor.extract_company_name_from_text text = Some name.
Proof.
intros w html_parser. induction urls as [|url rest IH]; intros s name H;
  [discriminate H|].
cbn [CompanyNameExtractor.check_policy_urls] in H.
destruct (CompanyNameExtractor.fetch_url w url s) as [fetched s1].
destruct fetched as [content|message]; [|discriminate H].
destruct content as [content|]; [|exact (IH _ _ H)].
destruct content as [|c cs]; [exact (IH _ _ H)|].
remember (CompanyNameExtractor.extract_company_name_from_text (c :: cs))
  as direct eqn:Edirect.
remember (CompanyNameExtractor.extract_company_name_from_text
            (CompanyNameExtractor.extract_text_from_html html_parser (c :: cs)))
  as parsed eqn:Eparsed.
assert (Hfound : forall text o,
          o = CompanyNameExtractor.extract_company_name_from_text text ->
          truthy o = true -> Returned o = Returned (Some name) ->
          name <> [] /\ exists text,
            CompanyNameExtractor.extract_company_name_from_text text = Some name).
{ intros text o E Ht Ho. apply returned_inj in Ho. rewrite Ho in E, Ht. split.
  - destruct name; [discriminate Ht|discriminate].
  - exists text. now symmetry. }
destruct (truthy direct) eqn:Et; cbn [negb] in H.
- rewrite Et in H. cbn [fst] in H. exact (Hfound _ _ Edirect Et H).
- destruct (truthy parsed) eqn:Ep; cbn [fst] in H.
  + exact (Hfound _ _ Eparsed Ep H).
  + exact (IH _ _ H).
Qed.

(** A name in a returned result is not empty and is what
    [extract_company_name_from_text] made of some text. *)
Lemma extractor_name_source : forall w html_parser domain s r name,
  fst (CompanyNameExtractor.extract_company_name w html_parser domain s) = Returned r ->
  CompanyNameExtractor.company_name r = Some name ->
  name <> []
  /\ exists text,
       CompanyNameExtractor.extract_company_name_from_text text = Some name.
Proof.
intros w html_parser domain s r name H Hname. apply extractor_returns in H.
destruct H as [[_ ->]|(url & content & _ & [[Ht ->]|(_ & found & Hf & ->)])];
  cbn [CompanyNameExtractor.company_name] in Hname.
- discriminate Hname.
- rewrite Hname in Ht. split; [destruct name; [discriminate Ht|discriminate]|].
  now exists content.
- subst found. eapply check_policy_urls_found. exact Hf.
Qed.

(** X10.  A company name returned by the extractor of
    company_name_extractor.py is not empty; collapsing and stripping its
    white space again, or removing HTML tags from it again, changes
    nothing. *)
Theorem extractor_name_is_clean :
  forall (w : web) (html_parser : str -> Soup.soup) (domain : str) (s : io)
         (r : CompanyNameExtractor.result) (name : str),
    fst (CompanyNameExtractor.extract_company_name w html_parser domain s)
    = Returned r ->
    CompanyNameExtractor.company_name r = Some name ->
    name <> []
    /\ strip (sub (Plus ws) (lit " ") name) = name
    /\ sub (Seqs [Lit "<"; Plus (noneof ">"); Lit ">"]) [] name = name.
Proof.
intros w html_parser domain s r name H Hname.
destruct (extractor_name_source _ _ _ _ _ _ H Hname) as (Hne & text & Ht).
split; [exact Hne|].
apply from_text_cleaned in Ht. destruct Ht as [x Hx].
apply clean_output in Hx. destruct Hx as [Htag Hnormal]. split.
- now apply squeeze_fixed.
- apply (sub_unmatched _ _ matches_tag). now apply tagfree_unmatched.
Qed.

(** The page "(c) 2023 Acme Widgets Ltd. All rights reserved." on
    https://example.com. *)
Lemma extractor_name_is_clean_witness :
  lit "acme widgets" <> []
  /\ strip (sub (Plus ws) (lit " ") (lit "acme widgets")) = lit "acme widgets"
  /\ sub (Seqs [Lit "<"; Plus (noneof ">"); Lit ">"]) [] (lit "acme widgets")
     = lit "acme widgets".
Proof.
apply (extractor_name_is_clean
         (serving ([169%N] ++ lit " 2023 Acme Widgets Ltd. All rights reserved."))
         Soup.html_parser (lit "example.com") io0
         (CompanyNameExtractor.Result (lit "example.com") analyzed
            (Some (lit "acme widgets")))
         (lit "acme widgets")).
- vm_compute. reflexivity.
- reflexivity.
Defined.

(** ** URLs *)

Lemma startswith_iff : forall p s, startswith p s = true <-> exists q, s = p ++ q.
Proof.
induction p as [|a p IH]; intros s.
- split; [intros _; now exists s | reflexivity].
- destruct s as [|b s]; cbn [startswith].
  + split; [discriminate | intros [q Hq]; discriminate Hq].
  + split.
    * intros H. apply andb_prop in H. destruct H as [Hab H].
      apply N.eqb_eq in Hab. subst b. apply IH in H. destruct H as [q ->].
      now exists q.
    * intros [q Hq]. cbn [app] in Hq. inversion Hq; subst.
      rewrite N.eqb_refl. cbn [andb]. apply IH. now exists q.
Qed.

Lemma startswith_before : forall sep p s,
  existsb (N.eqb sep) p = false ->
  startswith p s = true -> startswith p (before sep s) = true.
Proof.
intros sep. induction p as [|a p IH]; intros s Hp H; [reflexivity|].
destruct s as [|b s]; [discriminate H|]. cbn [startswith] in H.
apply andb_prop in H. destruct H as [Hab H]. apply N.eqb_eq in Hab. subst b.
cbn [existsb] in Hp. apply orb_false_elim in Hp. destruct Hp as [Hsa Hp].
cbn [before]. rewrite (N.eqb_sym a sep), Hsa. cbn [startswith].
rewrite N.eqb_refl. cbn [andb]. now apply IH.
Qed.

Lemma startswith_drop_last : forall p s path,
  startswith (p ++ [47%N]) s = true -> startswith [47%N] path = true ->
  startswith (p ++ [47%N]) (drop_last 1 s ++ path) = true.
Proof.
intros p s path H Hpath. apply startswith_iff in H. destruct H as [q ->].
destruct path as [|r path]; [discriminate Hpath|]. cbn [startswith] in Hpath.
apply andb_prop in Hpath. destruct Hpath as [Hr _]. apply N.eqb_eq in Hr. subst r.
apply startswith_iff. unfold drop_last. destruct q as [|c q].
- rewrite app_nil_r. exists path.
  replace (List.length (p ++ [47%N]) - 1) with (List.length p + 0)
    by (rewrite length_app; cbn [List.length]; lia).
  rewrite firstn_app_2. cbn [firstn]. rewrite app_nil_r, <- app_assoc. reflexivity.
- exists (firstn (List.length q) (c :: q) ++ 47%N :: path).
  replace (List.length ((p ++ [47%N]) ++ c :: q) - 1)
    with (List.length (p ++ [47%N]) + List.length q)
    by (rewrite !length_app; cbn [List.length]; lia).
  rewrite firstn_app_2, <- !app_assoc. reflexivity.
Qed.

Lemma absolute_app : forall u t, absolute_url u = true -> absolute_url (u ++ t) = true.
Proof.
intros u t H. unfold absolute_url in *. apply orb_true_iff in H. apply orb_true_iff.
destruct H as [H|H]; [left|right]; apply startswith_iff in H; destruct H as [q ->];
  apply startswith_iff; exists (q ++ t); now rewrite app_assoc.
Qed.

Lemma absolute_before : forall sep u,
  existsb (N.eqb sep) (lit "http://") = false ->
  existsb (N.eqb sep) (lit "https://") = false ->
  absolute_url u = true -> absolute_url (before sep u) = true.
Proof.
intros sep u Hsep Hsep' H. unfold absolute_url in *. apply orb_true_iff in H.
apply orb_true_iff. destruct H as [H|H]; [left|right]; now apply startswith_before.
Qed.

Lemma absolute_base_parts : forall u,
  absolute_url u = true -> absolute_url (before 63 (before 35 u)) = true.
Proof.
intros u H. apply absolute_before; [reflexivity | reflexivity |].
apply absolute_before; [reflexivity | reflexivity | exact H].
Qed.

Lemma absolute_drop_last : forall u path,
  absolute_url u = true -> startswith (lit "/") path = true ->
  absolute_url (drop_last 1 u ++ path) = true.
Proof.
intros u path H Hpath. unfold absolute_url in *. apply orb_true_iff in H.
apply orb_true_iff. destruct H as [H|H]; [left|right].
- change (lit "http://") with (lit "http:/" ++ [47%N]) in *.
  now apply startswith_drop_last.
- change (lit "https://") with (lit "https:/" ++ [47%N]) in *.
  now apply startswith_drop_last.
Qed.

Lemma normalize_url_fixed : forall base_url u,
  absolute_url u = true -> CompanyNameExtractor.normalize_url base_url u = u.
Proof.
intros base_url u H. unfold CompanyNameExtractor.normalize_url.
unfold absolute_url in H. now rewrite H.
Qed.

Lemma normalize_url_is_absolute : forall base_url relative_url,
  absolute_url base_url = true ->
  absolute_url (CompanyNameExtractor.normalize_url base_url relative_url) = true.
Proof.
intros base_url relative_url H. unfold CompanyNameExtractor.normalize_url.
destruct (startswith (lit "http://") relative_url
          || startswith (lit "https://") relative_url) eqn:E; [exact E|].
assert (Hb := absolute_base_parts _ H). cbv zeta.
destruct (startswith (lit "/") relative_url) eqn:Es.
- destruct (endswith (lit "/") (before 63 (before 35 base_url))).
  + now apply absolute_drop_last.
  + now apply absolute_app.
- destruct (negb (endswith (lit "/") (before 63 (before 35 base_url)))).
  + now apply absolute_app, absolute_app.
  + now apply absolute_app.
Qed.

(** X11.  With an http or https base URL, normalize_url returns an http
    or https URL, and normalising that URL again returns it unchanged. *)
Theorem normalize_url_absolute :
  forall base_url relative_url : str,
    absolute_url base_url = true ->
    absolute_url (CompanyNameExtractor.normalize_url base_url relative_url) = true
    /\ CompanyNameExtractor.normalize_url base_url
         (CompanyNameExtractor.normalize_url base_url relative_url)
       = CompanyNameExtractor.normalize_url base_url relative_url.
Proof.
intros base_url relative_url H.
assert (Ha := normalize_url_is_absolute base_url relative_url H).
split; [exact Ha | now apply normalize_url_fixed].
Qed.

Lemma normalize_url_absolute_witness :
  absolute_url (CompanyNameExtractor.normalize_url
                  (lit "https://example.com/shop/?page=2") (lit "privacy.html")) = true
  /\ CompanyNameExtractor.normalize_url (lit "https://example.com/shop/?page=2")
       (CompanyNameExtractor.normalize_url
          (lit "https://example.com/shop/?page=2") (lit "privacy.html"))
     = CompanyNameExtractor.normalize_url
         (lit "https://example.com/shop/?page=2") (lit "privacy.html").
Proof.
apply (normalize_url_absolute (lit "https://example.com/shop/?page=2")
         (lit "privacy.html")).
reflexivity.
Defined.

Lemma policy_urls_absolute : forall base_url homepage_content,
  absolute_url base_url = true ->
  forall u,
    In u (CompanyNameExtractor.find_privacy_policy_url base_url homepage_content) ->
    absolute_url u = true.
Proof.
intros base_url homepage_content H u Hu.
unfold CompanyNameExtractor.find_privacy_policy_url in Hu.
rewrite add_common_paths_eq in Hu. apply in_app_or in Hu. destruct Hu as [Hu|Hu].
- unfold CompanyNameExtractor.markup_urls in Hu.
  apply in_flat_map in Hu. destruct Hu as (pattern & _ & Hu).
  apply in_flat_map in Hu. destruct Hu as (m & _ & Hu).
  destruct (group1 homepage_content m) as [href|]; [|destruct Hu].
  destruct Hu as [<-|[]]. now apply normalize_url_is_absolute.
- apply filter_In in Hu. destruct Hu as [Hu _]. unfold fallback_urls in Hu.
  apply in_map_iff in Hu. destruct Hu as (path & <- & _).
  now apply normalize_url_is_absolute.
Qed.

Lemma extractor_homepage_urls_absolute : forall domain u,
  In u (CompanyNameExtractor.homepage_urls domain) -> absolute_url u = true.
Proof.
intros domain u Hu. unfold CompanyNameExtractor.homepage_urls in Hu.
destruct (negb (startswith (lit "www.") domain));
  cbn [app In] in Hu; intuition (subst u; now apply absolute_app).
Qed.

Lemma fetch_url_requests : forall w url s,
  exists n,
    requests (snd (CompanyNameExtractor.fetch_url w url s))
    = requests s ++ repeat url n.
Proof.
intros w url s.
destruct (fetch_attempts_cost w CompanyNameExtractor.max_retries url s)
  as (n & k & _ & _ & _ & _ & Heq).
exists n. unfold CompanyNameExtractor.fetch_url. rewrite Heq. reflexivity.
Qed.

Lemma fetch_url_requests_in : forall w url s got s1,
  CompanyNameExtractor.fetch_url w url s = (got, s1) ->
  exists new, requests s1 = requests s ++ new /\ forall u, In u new -> u = url.
Proof.
intros w url s got s1 Ef. destruct (fetch_url_requests w url s) as [n Hn].
rewrite Ef in Hn. cbn [snd] in Hn. exists (repeat url n). split; [exact Hn|].
intros u Hu. now apply repeat_spec in Hu.
Qed.

Lemma fetch_first_requests : forall w urls s,
  exists new,
    requests (snd (CompanyNameExtractor.fetch_first w urls s)) = requests s ++ new
    /\ forall u, In u new -> In u urls.
Proof.
intros w. induction urls as [|url rest IH]; intros s.
- exists []. cbn. rewrite app_nil_r. split; [reflexivity | intros u []].
- cbn [CompanyNameExtractor.fetch_first].
  destruct (CompanyNameExtractor.fetch_url w url s) as [got s1] eqn:Ef.
  destruct (fetch_url_requests_in _ _ _ _ _ Ef) as (new1 & Hs1 & Hnew1).
  assert (Hstop : exists new, requests s1 = requests s ++ new
                              /\ forall u, In u new -> In u (url :: rest)).
  { exists new1. split; [exact Hs1|]. intros u Hu. left. symmetry. now apply Hnew1. }
  destruct got as [got|message]; [|exact Hstop].
  destruct (truthy got); [exact Hstop|].
  destruct (IH s1) as (new2 & Hs2 & Hnew2). exists (new1 ++ new2).
  rewrite Hs2, Hs1, app_assoc. split; [reflexivity|].
  intros u Hu. apply in_app_or in Hu. destruct Hu as [Hu|Hu].
  + left. symmetry. now apply Hnew1.
  + right. now apply Hnew2.
Qed.

Lemma check_policy_urls_requests : forall w html_parser urls s,
  exists new,
    requests (snd (CompanyNameExtractor.check_policy_urls w html_parser urls s))
    = requests s ++ new
    /\ forall u, In u new -> In u urls.
Proof.
intros w html_parser. induction urls as [|url rest IH]; intros s.
- exists []. cbn. rewrite app_nil_r. split; [reflexivity | intros u []].
- cbn [CompanyNameExtractor.check_policy_urls].
  destruct (CompanyNameExtractor.fetch_url w url s) as [got s1] eqn:Ef.
  destruct (fetch_url_requests_in _ _ _ _ _ Ef) as (new1 & Hs1 & Hnew1).
  assert (Hstop : exists new, requests s1 = requests s ++ new
                              /\ forall u, In u new -> In u (url :: rest)).
  { exists new1. split; [exact Hs1|]. intros u Hu. left. symmetry. now apply Hnew1. }
  assert (Hgo : exists new,
            requests (snd (CompanyNameExtractor.check_policy_urls w html_parser rest s1))
            = requests s ++ new
            /\ forall u, In u new -> In u (url :: rest)).
  { destruct (IH s1) as (new2 & Hs2 & Hnew2). exists (new1 ++ new2).
    rewrite Hs2, Hs1, app_assoc. split; [reflexivity|].
    intros u Hu. apply in_app_or in Hu. destruct Hu as [Hu|Hu].
    - left. symmetry. now apply Hnew1.
    - right. now apply Hnew2. }
  destruct got as [got|message]; [|exact Hstop].
  destruct got as [got|]; [|exact Hgo]. destruct got as [|c cs]; [exact Hgo|].
  remember (CompanyNameExtractor.extract_company_name_from_text (c :: cs))
    as direct eqn:Edirect.
  remember (CompanyNameExtractor.extract_company_name_from_text
              (CompanyNameExtractor.extract_text_from_html html_parser (c :: cs)))
    as parsed eqn:Eparsed.
  destruct (truthy (if negb (truthy direct) then parsed else direct));
    [exact Hstop | exact Hgo].
Qed.

(** X12.  Every request the extractor of company_name_extractor.py sends
    while it analyses a domain, for a homepage candidate or for a policy
    page, goes to an http or https URL. *)
Theorem extractor_requests_are_absolute :
  forall (w : web) (html_parser : str -> Soup.soup) (domain : str) (s : io),
    exists new,
      requests (snd (CompanyNameExtractor.extract_company_name w html_parser domain s))
      = requests s ++ new
      /\ Forall (fun u => absolute_url u = true) new.
Proof.
intros w html_parser domain s. unfold CompanyNameExtractor.extract_company_name.
destruct (CompanyNameExtractor.fetch_first w
            (CompanyNameExtractor.homepage_urls domain) s) as [homepage s1] eqn:Ef.
destruct (fetch_first_requests w (CompanyNameExtractor.homepage_urls domain) s)
  as (new1 & Hs1 & Hnew1).
rewrite Ef in Hs1. cbn [snd] in Hs1.
assert (Habs1 : Forall (fun u => absolute_url u = true) new1).
{ apply Forall_forall. intros u Hu.
  eapply extractor_homepage_urls_absolute. apply Hnew1. exact Hu. }
destruct homepage as [[[homepage_url homepage_content]|]|message];
  [|cbn [snd]; eauto|cbn [snd]; eauto].
destruct (truthy (CompanyNameExtractor.extract_company_name_from_text homepage_content));
  [cbn [snd]; eauto|].
assert (Hhome : absolute_url homepage_url = true).
{ assert (Hf : fst (CompanyNameExtractor.fetch_first w
                      (CompanyNameExtractor.homepage_urls domain) s)
               = Returned (Some (homepage_url, homepage_content))) by now rewrite Ef.
  apply fetch_first_some in Hf. destruct Hf as [Hin _].
  eapply extractor_homepage_urls_absolute. exact Hin. }
destruct (check_policy_urls_requests w html_parser
            (CompanyNameExtractor.find_privacy_policy_url homepage_url homepage_content)
            s1) as (new2 & Hs2 & Hnew2).
destruct (CompanyNameExtractor.check_policy_urls w html_parser _ s1) as [found s2].
cbn [snd] in Hs2.
assert (Hboth : requests s2 = requests s ++ (new1 ++ new2)
                /\ Forall (fun u => absolute_url u = true) (new1 ++ new2)).
{ split; [now rewrite Hs2, Hs1, app_assoc|].
  apply Forall_app. split; [exact Habs1|]. apply Forall_forall. intros u Hu.
  eapply policy_urls_absolute; [exact Hhome | apply Hnew2; exact Hu]. }
destruct found as [[name|]|message]; cbn [snd]; eauto.
Qed.

Lemma improved_homepage_urls_absolute : forall domain u,
  In u (ImprovedAnalyzer.homepage_urls domain) -> absolute_url u = true.
Proof.
intros domain u Hu. unfold ImprovedAnalyzer.homepage_urls in Hu.
destruct (startswith (lit "www.") domain);
  cbn [negb app In] in Hu; intuition (subst u; now apply absolute_app).
Qed.

Lemma improved_absolute : forall base_url href,
  absolute_url base_url = true ->
  absolute_url (ImprovedAnalyzer.absolute base_url href) = true.
Proof.
intros base_url href H. unfold ImprovedAnalyzer.absolute.
assert (Hb := absolute_base_parts _ H). cbv zeta.
destruct (startswith (lit "/") href).
- destruct (endswith (lit "/") (before 63 (before 35 base_url)));
    now apply absolute_app.
- destruct (startswith (lit "http://") href || startswith (lit "https://") href) eqn:E;
    cbn [negb]; [exact E|].
  destruct (endswith (lit "/") base_url); now apply absolute_app.
Qed.

Lemma find_contact_url_absolute : forall base_url content u,
  absolute_url base_url = true ->
  ImprovedAnalyzer.find_contact_url base_url content = Some u ->
  absolute_url u = true.
Proof.
intros base_url content u H Hu. unfold ImprovedAnalyzer.find_contact_url in Hu.
destruct base_url as [|b base_url]; [discriminate Hu|].
destruct content as [|c content]; [discriminate Hu|].
match type of Hu with
| match ?l with _ => _ end = _ => destruct l as [|url urls] eqn:El; [discriminate Hu|]
end.
apply some_inj in Hu. subst url.
assert (Hin : In u (u :: urls)) by now left. rewrite <- El in Hin.
apply in_flat_map in Hin. destruct Hin as (pattern & _ & Hin).
apply in_flat_map in Hin. destruct Hin as (m & _ & Hin).
destruct (group1 (c :: content) m) as [href|]; [|destruct Hin].
destruct Hin as [<-|[]]. now apply improved_absolute.
Qed.

(** X13.  A contact URL returned by the analyzer of improved_analyzer.py
    is an http or https URL. *)
Theorem improved_contact_url_is_absolute :
  forall (w : web) (domain : str) (s : io) (u : str),
    ImprovedAnalyzer.contact_url (fst (ImprovedAnalyzer.analyze_domain w domain s))
    = Some u ->
    absolute_url u = true.
Proof.
intros w domain s u H. unfold ImprovedAnalyzer.analyze_domain in H.
destruct (ImprovedAnalyzer.fetch_homepage w domain s) as [fetched s1] eqn:Ef.
destruct fetched as [[base_url content]|]; [|discriminate H].
cbn [fst ImprovedAnalyzer.contact_url] in H.
apply (find_contact_url_absolute base_url content); [|exact H].
assert (Hf : fst (ImprovedAnalyzer.try_urls w (ImprovedAnalyzer.homepage_urls domain) s)
             = Some (base_url, content)).
{ unfold ImprovedAnalyzer.fetch_homepage in Ef. now rewrite Ef. }
apply improved_try_urls_some in Hf. destruct Hf as [Hin _].
eapply improved_homepage_urls_absolute. exact Hin.
Qed.

(** A page on https://example.com with one link, to /contact. *)
Lemma improved_contact_url_is_absolute_witness :
  absolute_url (lit "https://example.com/contact") = true.
Proof.
apply (improved_contact_url_is_absolute
         (serving (lit "<a href=" ++ [34%N] ++ lit "/contact" ++ [34%N]
                   ++ lit ">Contact</a>"))
         (lit "example.com") io0 (lit "https://example.com/contact")).
vm_compute. reflexivity.
Defined.

(** ** Substitution keeps what the text and the replacement share *)

Section Filtering.

Variable r : regex.
Variable mlen : str -> option nat.
Hypothesis Hr : matches_as r mlen.

Lemma forall_skipn : forall (Q : N -> Prop) n (s : str),
  Forall Q s -> Forall Q (skipn n s).
Proof.
intros Q n s H. rewrite <- (firstn_skipn n s) in H. apply Forall_app in H. tauto.
Qed.

Lemma sub_forall : forall (Q : N -> Prop) repl s,
  Forall Q repl -> Forall Q s -> Forall Q (sub r repl s).
Proof.
intros Q repl s Hrepl. remember (List.length s) as n eqn:Hn. revert s Hn.
induction n as [n IH] using lt_wf_ind. intros [|c s] Hn Hs.
- rewrite (sub_nil _ _ Hr). constructor.
- rewrite (sub_cons _ _ Hr). cbn [List.length] in Hn.
  destruct (mlen (c :: s)) as [k|] eqn:Em.
  + apply (mlen_bounds _ _ Hr) in Em. apply Forall_app. split; [exact Hrepl|].
    apply (IH (List.length (skipn k (c :: s)))); [|reflexivity|now apply forall_skipn].
    rewrite length_skipn. cbn [List.length]. lia.
  + inversion Hs; subst. constructor; [assumption|].
    apply (IH (List.length s)); [lia | reflexivity | assumption].
Qed.

Lemma sub_length : forall repl s,
  (forall t k, mlen t = Some k -> List.length repl <= k) ->
  List.length (sub r repl s) <= List.length s.
Proof.
intros repl s Hrepl. remember (List.length s) as n eqn:Hn. revert s Hn.
induction n as [n IH] using lt_wf_ind. intros [|c s] Hn.
- rewrite (sub_nil _ _ Hr). cbn. lia.
- rewrite (sub_cons _ _ Hr). cbn [List.length] in Hn.
  destruct (mlen (c :: s)) as [k|] eqn:Em.
  + assert (Hk := Hrepl _ _ Em). apply (mlen_bounds _ _ Hr) in Em.
    rewrite length_app.
    assert (Hrec : List.length (sub r repl (skipn k (c :: s)))
                   <= List.length (skipn k (c :: s))).
    { apply (IH (List.length (skipn k (c :: s)))); [|reflexivity].
      rewrite length_skipn. cbn [List.length]. lia. }
    rewrite length_skipn in Hrec. cbn [List.length] in *. lia.
  + cbn [List.length].
    assert (Hrec : List.length (sub r repl s) <= List.length s)
      by (apply (IH (List.length s)); [lia | reflexivity]).
    lia.
Qed.

End Filtering.

Lemma matches_chr : forall p, matches_as (Chr p) (mlen_chr p).
Proof.
intros p ma q pv s. unfold mlen_chr, match_here. rewrite run_chr. cbn [rest pos].
destruct s as [|c s1]; [reflexivity|]. destruct (p c); [|reflexivity].
cbn [List.length]. repeat split; try lia.
exists (step (Cursor q (c :: s1) pv None) c s1). split; [|split].
- apply accept_advanced. cbn [step pos]. lia.
- cbn [step pos]. lia.
- reflexivity.
Qed.

Lemma sub_chr_free : forall p s, Forall (fun c => p c = false) (sub (Chr p) [] s).
Proof.
intros p. induction s as [|c s IH].
- rewrite (sub_nil _ _ (matches_chr p)). constructor.
- rewrite (sub_cons _ _ (matches_chr p)). cbn [mlen_chr].
  destruct (p c) eqn:Ec; [exact IH | now constructor].
Qed.

Lemma chr_free_unmatched : forall p s,
  Forall (fun c => p c = false) s -> unmatched (mlen_chr p) s = true.
Proof.
intros p. induction s as [|c s IH]; intros H; [reflexivity|].
inversion H as [|? ? Hc Hs]; subst. cbn [unmatched mlen_chr]. rewrite Hc. now apply IH.
Qed.

Lemma substring_forall : forall (Q : N -> Prop) a b,
  substring a b -> Forall Q b -> Forall Q a.
Proof.
intros Q a b (pre & post & ->) H. apply Forall_app in H. destruct H as [_ H].
apply Forall_app in H. tauto.
Qed.

Lemma substring_length : forall a b, substring a b -> List.length a <= List.length b.
Proof. intros a b (pre & post & ->). rewrite !length_app. lia. Qed.

Lemma squeeze_forall : forall (Q : N -> Prop) s,
  Q 32%N -> Forall Q s -> Forall Q (squeeze s).
Proof.
intros Q s Hsp H. unfold squeeze.
apply (substring_forall Q _ _ (strip_substring _)).
apply (sub_forall _ _ matches_ws); [|exact H]. repeat constructor. exact Hsp.
Qed.

Lemma squeeze_length : forall s, List.length (squeeze s) <= List.length s.
Proof.
intros s. unfold squeeze.
assert (H1 := substring_length _ _ (strip_substring (sub (Plus ws) (lit " ") s))).
assert (H2 : List.length (sub (Plus ws) (lit " ") s) <= List.length s).
{ apply (sub_length _ _ matches_ws). intros t k Hk.
  apply (mlen_bounds _ _ matches_ws) in Hk. cbn. lia. }
lia.
Qed.

(** ** The key normaliser *)

Lemma strip_suffixes_substring : forall suffixes s,
  substring (strip_suffixes suffixes s) s.
Proof.
induction suffixes as [|suffix suffixes IH]; intros s; [apply substring_refl|].
cbn [strip_suffixes fold_left]. destruct (endswith suffix s).
- eapply substring_trans; [apply IH|].
  eapply substring_trans; [apply strip_substring | apply firstn_substring].
- apply IH.
Qed.

Lemma lower_char_no_upper : forall c,
  Forall (fun d => is_ascii_upper d = false) (lower_char c).
Proof.
intros c. unfold lower_char.
destruct (is_ascii_upper c || in_range 192 214 c || in_range 216 222 c) eqn:E.
- repeat constructor. unfold is_ascii_upper, in_range in *.
  apply andb_false_iff. right. apply N.leb_gt.
  apply orb_true_iff in E. destruct E as [E|E];
    [apply orb_true_iff in E; destruct E as [E|E]|];
    apply andb_prop in E; destruct E as [E _]; apply N.leb_le in E; lia.
- apply orb_false_elim in E. destruct E as [E _].
  apply orb_false_elim in E. destruct E as [E _].
  destruct (c =? 304)%N; [repeat constructor|].
  destruct (c =? 8490)%N; [repeat constructor|].
  repeat constructor. exact E.
Qed.

Lemma lower_no_upper : forall s, Forall (fun d => is_ascii_upper d = false) (lower s).
Proof.
induction s as [|c s IH]; [constructor|]. unfold lower. cbn [flat_map].
apply Forall_app. split; [apply lower_char_no_upper | exact IH].
Qed.

Lemma normalize_steps : forall c x,
  CompanyNameExtractor._normalize_company_name (c :: x)
  = squeeze (sub (Chr punctuation) []
               (strip_suffixes CompanyNameExtractor.legal_suffixes (lower (c :: x)))).
Proof.
intros c x.
unfold CompanyNameExtractor._normalize_company_name, squeeze, strip_suffixes, punctuation.
reflexivity.
Qed.

(** X14.  For a name of characters of the Basic Latin and Latin-1
    blocks, of white space and of the four characters that fold to an
    ASCII letter, the key under which _normalize_company_name counts it
    holds no ASCII capital letter; collapsing and stripping its white
    space again, or removing the characters outside [\w\s] from it again,
    changes nothing. *)
Theorem normalized_key_shape :
  forall name : str,
    Forall (fun c => charted c = true) name ->
    let key := CompanyNameExtractor._normalize_company_name name in
    Forall (fun c => is_ascii_upper c = false) key
    /\ strip (sub (Plus ws) (lit " ") key) = key
    /\ sub (Chr (fun c => negb (isword c || isspace c))) [] key = key.
Proof.
intros [|c x] _; cbv zeta.
- cbn [CompanyNameExtractor._normalize_company_name]. split; [constructor|]. split.
  + now rewrite (sub_nil _ _ matches_ws).
  + apply (sub_nil _ _ (matches_chr _)).
- rewrite normalize_steps.
  generalize (strip_suffixes_substring CompanyNameExtractor.legal_suffixes
                (lower (c :: x))).
  generalize (strip_suffixes CompanyNameExtractor.legal_suffixes (lower (c :: x))).
  intros m Hm. split; [|split].
  + apply squeeze_forall; [reflexivity|].
    apply (sub_forall _ _ (matches_chr punctuation)); [constructor|].
    apply (substring_forall _ _ _ Hm). apply lower_no_upper.
  + apply squeeze_idempotent.
  + change (fun c0 : N => negb (isword c0 || isspace c0)) with punctuation.
    apply (sub_unmatched _ _ (matches_chr punctuation)).
    apply chr_free_unmatched.
    apply (squeeze_forall (fun c0 => punctuation c0 = false)); [reflexivity|].
    apply sub_chr_free.
Qed.

(** The name "Acme  Widgets, Ltd". *)
Lemma normalized_key_shape_witness :
  let key := CompanyNameExtractor._normalize_company_name (lit "Acme  Widgets, Ltd") in
  Forall (fun c => is_ascii_upper c = false) key
  /\ strip (sub (Plus ws) (lit " ") key) = key
  /\ sub (Chr (fun c => negb (isword c || isspace c))) [] key = key.
Proof.
apply (normalized_key_shape (lit "Acme  Widgets, Ltd")).
apply Forall_forall. intros c Hc. vm_compute in Hc.
repeat (destruct Hc as [<-|Hc]; [reflexivity|]). destruct Hc.
Defined.

(** ** The name cleaner never adds characters *)

Lemma remove_phrases_length : forall phrases s,
  Forall (fun phrase => phrase <> []) phrases ->
  List.length (remove_phrases phrases s) <= List.length s.
Proof.
induction phrases as [|phrase phrases IH]; intros s Hall; [cbn; lia|].
inversion Hall as [|? ? Hne Hrest]; subst. cbn [remove_phrases fold_left].
assert (H1 := IH (sub (LitI_str phrase) [] s) Hrest). unfold remove_phrases in H1.
assert (H2 : List.length (sub (LitI_str phrase) [] s) <= List.length s).
{ apply (sub_length _ _ (matches_lit _ Hne)). intros t k _. cbn. lia. }
lia.
Qed.

(** X15.  The name _clean_company_name returns is never longer than the
    name it was given. *)
Theorem cleaned_name_is_no_longer :
  forall x y : str,
    CompanyNameExtractor._clean_company_name (Some x) = Some y ->
    List.length y <= List.length x.
Proof.
intros [|c x] y H; [discriminate H|]. rewrite clean_steps in H.
apply some_inj in H. subst y.
assert (H1 : List.length (sub (Seqs [Lit "<"; Plus (noneof ">"); Lit ">"]) [] (c :: x))
             <= List.length (c :: x)).
{ apply (sub_length _ _ matches_tag). intros t k _. cbn. lia. }
revert H1.
generalize (sub (Seqs [Lit "<"; Plus (noneof ">"); Lit ">"]) [] (c :: x)).
intros a H1.
assert (H2 := squeeze_length a).
assert (H3 : List.length (remove_phrases CompanyNameExtractor.cleanup_phrases (squeeze a))
             <= List.length (squeeze a)).
{ apply remove_phrases_length. apply Forall_forall. intros phrase Hin Hnil.
  subst phrase. revert Hin. vm_compute. intuition discriminate. }
revert H3.
generalize (remove_phrases CompanyNameExtractor.cleanup_phrases (squeeze a)).
intros b H3.
destruct (rstrip_prefix trailing_punct b) as [t Ht].
assert (H4 : List.length (rstrip_by trailing_punct b) <= List.length b).
{ rewrite Ht at 2. rewrite length_app. lia. }
assert (H5 := squeeze_length (rstrip_by trailing_punct b)).
lia.
Qed.

Lemma cleaned_name_is_no_longer_witness :
  List.length (lit "Acme Widgets Ltd.")
  <= List.length (lit " <b>Acme  Widgets Ltd</b>. All rights reserved. ").
Proof.
apply (cleaned_name_is_no_longer
         (lit " <b>Acme  Widgets Ltd</b>. All rights reserved. ")
         (lit "Acme Widgets Ltd.")).
vm_compute. reflexivity.
Defined.

(** ** Runs over several domains *)

Lemma homepage_urls_at_most_4 : forall domain,
  List.length (DomainAnalyzer.homepage_urls domain) <= 4
  /\ List.length (ImprovedAnalyzer.homepage_urls domain) <= 4.
Proof.
intros domain. unfold DomainAnalyzer.homepage_urls, ImprovedAnalyzer.homepage_urls.
destruct (startswith (lit "www.") domain); cbn [negb app List.length]; lia.
Qed.

Lemma domain_analysis_step : forall w domain s,
  DomainAnalyzer.domain (fst (DomainAnalyzer.analyze_domain w domain s)) = domain
  /\ sleeps (snd (DomainAnalyzer.analyze_domain w domain s)) = sleeps s
  /\ exists new,
       requests (snd (DomainAnalyzer.analyze_domain w domain s)) = requests s ++ new
       /\ List.length new <= 4.
Proof.
intros w domain s. unfold DomainAnalyzer.analyze_domain, DomainAnalyzer.fetch_homepage.
destruct (domain_try_urls_requests w (DomainAnalyzer.homepage_urls domain) s)
  as (k & Hk & Hs & _).
destruct (DomainAnalyzer.try_urls w (DomainAnalyzer.homepage_urls domain) s)
  as [content s1].
cbn [snd] in Hs. subst s1.
assert (H4 := proj1 (homepage_urls_at_most_4 domain)).
destruct (negb (truthy content)); cbn [fst snd DomainAnalyzer.domain requests sleeps];
  (split; [reflexivity|]; split; [reflexivity|]; eexists; split; [reflexivity|];
   rewrite length_firstn; lia).
Qed.

Lemma improved_analysis_step : forall w domain s,
  ImprovedAnalyzer.domain (fst (ImprovedAnalyzer.analyze_domain w domain s)) = domain
  /\ sleeps (snd (ImprovedAnalyzer.analyze_domain w domain s)) = sleeps s
  /\ exists new,
       requests (snd (ImprovedAnalyzer.analyze_domain w domain s)) = requests s ++ new
       /\ List.length new <= 4.
Proof.
intros w domain s. unfold ImprovedAnalyzer.analyze_domain, ImprovedAnalyzer.fetch_homepage.
destruct (improved_try_urls_requests w (ImprovedAnalyzer.homepage_urls domain) s)
  as (k & Hk & Hs & _).
destruct (ImprovedAnalyzer.try_urls w (ImprovedAnalyzer.homepage_urls domain) s)
  as [fetched s1].
cbn [snd] in Hs. subst s1.
assert (H4 := proj2 (homepage_urls_at_most_4 domain)).
destruct fetched as [[base_url content]|];
  cbn [fst snd ImprovedAnalyzer.domain requests sleeps];
  (split; [reflexivity|]; split; [reflexivity|]; eexists; split; [reflexivity|];
   rewrite length_firstn; lia).
Qed.

(** X16.  analyze_domains of domain_analyzer.py and of improved_analyzer.py
    returns one result per domain, in the order of the domains; it sleeps
    once per domain, also after the last one, and sends at most 4 requests
    per domain. *)
Theorem analyze_domains_run :
  forall (w : web) (domains : list str) (s : io),
    (map DomainAnalyzer.domain (fst (DomainAnalyzer.analyze_domains w domains s))
     = domains
     /\ sleeps (snd (DomainAnalyzer.analyze_domains w domains s))
        = sleeps s + List.length domains
     /\ exists new,
          requests (snd (DomainAnalyzer.analyze_domains w domains s))
          = requests s ++ new
          /\ List.length new <= 4 * List.length domains)
    /\ (map ImprovedAnalyzer.domain
          (fst (ImprovedAnalyzer.analyze_domains w domains s))
        = domains
        /\ sleeps (snd (ImprovedAnalyzer.analyze_domains w domains s))
           = sleeps s + List.length domains
        /\ exists new,
             requests (snd (ImprovedAnalyzer.analyze_domains w domains s))
             = requests s ++ new
             /\ List.length new <= 4 * List.length domains).
Proof.
intros w domains. split; revert s.
- induction domains as [|domain rest IH]; intros s.
  + cbn. split; [reflexivity|]. split; [lia|]. exists []. rewrite app_nil_r. auto.
  + cbn [DomainAnalyzer.analyze_domains].
    destruct (domain_analysis_step w domain s) as (Hd & Hsl & new1 & Hrq & Hlen).
    destruct (DomainAnalyzer.analyze_domain w domain s) as [result s1].
    cbn [fst snd] in Hd, Hsl, Hrq.
    destruct (IH (sleep s1)) as (IHd & IHsl & new2 & IHrq & IHlen).
    destruct (DomainAnalyzer.analyze_domains w rest (sleep s1)) as [results s2].
    cbn [fst snd sleep requests sleeps] in *. split; [|split].
    * cbn [map]. now rewrite Hd, IHd.
    * cbn [List.length]. lia.
    * exists (new1 ++ new2). rewrite IHrq, Hrq, app_assoc. split; [reflexivity|].
      rewrite length_app. cbn [List.length]. lia.
- induction domains as [|domain rest IH]; intros s.
  + cbn. split; [reflexivity|]. split; [lia|]. exists []. rewrite app_nil_r. auto.
  + cbn [ImprovedAnalyzer.analyze_domains].
    destruct (improved_analysis_step w domain s) as (Hd & Hsl & new1 & Hrq & Hlen).
    destruct (ImprovedAnalyzer.analyze_domain w domain s) as [result s1].
    cbn [fst snd] in Hd, Hsl, Hrq.
    destruct (IH (sleep s1)) as (IHd & IHsl & new2 & IHrq & IHlen).
    destruct (ImprovedAnalyzer.analyze_domains w rest (sleep s1)) as [results s2].
    cbn [fst snd sleep requests sleeps] in *. split; [|split].
    * cbn [map]. now rewrite Hd, IHd.
    * cbn [List.length]. lia.
    * exists (new1 ++ new2). rewrite IHrq, Hrq, app_assoc. split; [reflexivity|].
      rewrite length_app. cbn [List.length]. lia.
Qed.

(** ** run_extractor.py *)

Lemma extractor_result_fields : forall w html_parser domain s r,
  fst (CompanyNameExtractor.extract_company_name w html_parser domain s) = Returned r ->
  CompanyNameExtractor.domain r = domain
  /\ (CompanyNameExtractor.status r = analyzed
      \/ CompanyNameExtractor.status r = error).
Proof.
intros w html_parser domain s r H. apply extractor_returns in H.
destruct H as [[_ ->]|(url & content & _ & [[_ ->]|(_ & found & _ & ->)])];
  (split; [reflexivity|]); [right | left | left]; reflexivity.
Qed.

Lemma fetch_attempts_raised : forall w m url s message,
  fst (CompanyNameExtractor.fetch_attempts w m url s) = Raised message ->
  exists n, w n url = OtherException message.
Proof.
intros w. induction m as [|m IH]; intros url s message H; [discriminate H|].
cbn [CompanyNameExtractor.fetch_attempts get] in H.
destruct (w (List.length (requests s)) url) as [code body| | | |message'] eqn:Ew;
  try (eapply IH; exact H).
- destruct (code =? 200)%Z; [discriminate H|].
  destruct (code =? 403)%Z; [discriminate H|].
  destruct (code =? 404)%Z; [discriminate H|]. eapply IH. exact H.
- cbn [fst] in H. injection H as ->. eauto.
Qed.

Lemma fetch_first_raised : forall w urls s message,
  fst (CompanyNameExtractor.fetch_first w urls s) = Raised message ->
  exists n url, In url urls /\ w n url = OtherException message.
Proof.
intros w. induction urls as [|u urls IH]; intros s message H; [discriminate H|].
cbn [CompanyNameExtractor.fetch_first] in H.
destruct (CompanyNameExtractor.fetch_url w u s) as [[got|message'] s1] eqn:Ef.
- destruct (truthy got); [discriminate H|]. apply IH in H.
  destruct H as (n & url & Hin & Hw). exists n, url. split; [now right | exact Hw].
- cbn [fst] in H. injection H as ->.
  assert (Hf : fst (CompanyNameExtractor.fetch_url w u s) = Raised message)
    by now rewrite Ef.
  apply fetch_attempts_raised in Hf. destruct Hf as [n Hn].
  exists n, u. split; [now left | exact Hn].
Qed.

Lemma check_policy_urls_raised : forall w html_parser urls s message,
  fst (CompanyNameExtractor.check_policy_urls w html_parser urls s) = Raised message ->
  exists n url, In url urls /\ w n url = OtherException message.
Proof.
intros w html_parser. induction urls as [|u urls IH]; intros s message H;
  [discriminate H|].
cbn [CompanyNameExtractor.check_policy_urls] in H.
assert (Hgo : forall s1,
          fst (CompanyNameExtractor.check_policy_urls w html_parser urls s1)
          = Raised message ->
          exists n url, In url (u :: urls) /\ w n url = OtherException message).
{ intros s1 H1. apply IH in H1. destruct H1 as (n & url & Hin & Hw).
  exists n, url. split; [now right | exact Hw]. }
destruct (CompanyNameExtractor.fetch_url w u s) as [[got|message'] s1] eqn:Ef.
- destruct got as [got|]; [|exact (Hgo _ H)].
  destruct got as [|c cs]; [exact (Hgo _ H)|].
  remember (CompanyNameExtractor.extract_company_name_from_text (c :: cs))
    as direct eqn:Edirect.
  remember (CompanyNameExtractor.extract_company_name_from_text
              (CompanyNameExtractor.extract_text_from_html html_parser (c :: cs)))
    as parsed eqn:Eparsed.
  destruct (truthy (if negb (truthy direct) then parsed else direct));
    [discriminate H | exact (Hgo _ H)].
- cbn [fst] in H. injection H as ->.
  assert (Hf : fst (CompanyNameExtractor.fetch_url w u s) = Raised message)
    by now rewrite Ef.
  apply fetch_attempts_raised in Hf. destruct Hf as [n Hn].
  exists n, u. split; [now left | exact Hn].
Qed.

(** An exception that leaves [extract_company_name] is one a request
    raised, outside [RequestException]. *)
Lemma extractor_raised : forall w html_parser domain s message,
  fst (CompanyNameExtractor.extract_company_name w html_parser domain s)
  = Raised message ->
  exists n url, w n url = OtherException message.
Proof.
intros w html_parser domain s message H.
unfold CompanyNameExtractor.extract_company_name in H.
destruct (CompanyNameExtractor.fetch_first w
            (CompanyNameExtractor.homepage_urls domain) s)
  as [[[[url content]|]|message'] s1] eqn:Ef.
- destruct (truthy (CompanyNameExtractor.extract_company_name_from_text content));
    [discriminate H|].
  destruct (CompanyNameExtractor.check_policy_urls w html_parser
              (CompanyNameExtractor.find_privacy_policy_url url content) s1)
    as [[[name|]|message''] s2] eqn:Ec; try discriminate H.
  cbn [fst] in H. injection H as ->.
  assert (Hc : fst (CompanyNameExtractor.check_policy_urls w html_parser
                      (CompanyNameExtractor.find_privacy_policy_url url content) s1)
               = Raised message) by now rewrite Ec.
  apply check_policy_urls_raised in Hc. destruct Hc as (n & u & _ & Hw). eauto.
- discriminate H.
- cbn [fst] in H. injection H as ->.
  assert (Hf : fst (CompanyNameExtractor.fetch_first w
                      (CompanyNameExtractor.homepage_urls domain) s)
               = Raised message) by now rewrite Ef.
  apply fetch_first_raised in Hf. destruct Hf as (n & u & _ & Hw). eauto.
Qed.

Lemma fetch_url_sleeps : forall w url s got s1,
  CompanyNameExtractor.fetch_url w url s = (got, s1) -> sleeps s <= sleeps s1.
Proof.
intros w url s got s1 Ef.
destruct (fetch_attempts_cost w CompanyNameExtractor.max_retries url s)
  as (n & k & _ & _ & _ & _ & Heq).
unfold CompanyNameExtractor.fetch_url in Ef. rewrite Ef in Heq. cbn [snd] in Heq.
subst s1. cbn [after sleeps]. lia.
Qed.

Lemma fetch_first_sleeps : forall w urls s,
  sleeps s <= sleeps (snd (CompanyNameExtractor.fetch_first w urls s)).
Proof.
intros w. induction urls as [|url rest IH]; intros s; [cbn; lia|].
cbn [CompanyNameExtractor.fetch_first].
destruct (CompanyNameExtractor.fetch_url w url s) as [got s1] eqn:Ef.
apply fetch_url_sleeps in Ef.
destruct got as [got|message]; [|cbn [snd]; exact Ef].
destruct (truthy got); [cbn [snd]; exact Ef|]. specialize (IH s1). lia.
Qed.

Lemma check_policy_urls_sleeps : forall w html_parser urls s,
  sleeps s <= sleeps (snd (CompanyNameExtractor.check_policy_urls w html_parser urls s)).
Proof.
intros w html_parser. induction urls as [|url rest IH]; intros s; [cbn; lia|].
cbn [CompanyNameExtractor.check_policy_urls].
destruct (CompanyNameExtractor.fetch_url w url s) as [got s1] eqn:Ef.
apply fetch_url_sleeps in Ef.
assert (Hgo : sleeps s
              <= sleeps (snd (CompanyNameExtractor.check_policy_urls w html_parser
                                rest s1)))
  by (specialize (IH s1); lia).
destruct got as [got|message]; [|cbn [snd]; exact Ef].
destruct got as [got|]; [|exact Hgo]. destruct got as [|c cs]; [exact Hgo|].
remember (CompanyNameExtractor.extract_company_name_from_text (c :: cs))
  as direct eqn:Edirect.
remember (CompanyNameExtractor.extract_company_name_from_text
            (CompanyNameExtractor.extract_text_from_html html_parser (c :: cs)))
  as parsed eqn:Eparsed.
destruct (truthy (if negb (truthy direct) then parsed else direct));
  [cbn [snd]; exact Ef | exact Hgo].
Qed.

Lemma extractor_sleeps : forall w html_parser domain s,
  sleeps s
  <= sleeps (snd (CompanyNameExtractor.extract_company_name w html_parser domain s)).
Proof.
intros w html_parser domain s. unfold CompanyNameExtractor.extract_company_name.
assert (H1 := fetch_first_sleeps w (CompanyNameExtractor.homepage_urls domain) s).
destruct (CompanyNameExtractor.fetch_first w
            (CompanyNameExtractor.homepage_urls domain) s) as [homepage s1].
cbn [snd] in H1.
destruct homepage as [[[homepage_url homepage_content]|]|message];
  [|cbn [snd]; exact H1|cbn [snd]; exact H1].
destruct (truthy (CompanyNameExtractor.extract_company_name_from_text homepage_content));
  [cbn [snd]; exact H1|].
assert (H2 := check_policy_urls_sleeps w html_parser
                (CompanyNameExtractor.find_privacy_policy_url homepage_url
                   homepage_content) s1).
destruct (CompanyNameExtractor.check_policy_urls w html_parser _ s1) as [found s2].
cbn [snd] in H2. destruct found as [[name|]|message]; cbn [snd]; lia.
Qed.

Lemma pauses_cons : forall r results,
  results <> [] ->
  pauses (r :: results)
  = (match RunExtractor.error_text r with None => 1 | Some _ => 0 end) + pauses results.
Proof. intros r [|r2 results] H; [congruence | reflexivity]. Qed.

Lemma process_results : forall w html_parser domains s,
  map RunExtractor.domain (fst (RunExtractor.process w html_parser domains s))
  = domains
  /\ sleeps s + pauses (fst (RunExtractor.process w html_parser domains s))
     <= sleeps (snd (RunExtractor.process w html_parser domains s))
  /\ Forall (fun r =>
        (RunExtractor.status r = analyzed \/ RunExtractor.status r = error)
        /\ forall message,
             RunExtractor.error_text r = Some message ->
             RunExtractor.status r = error /\ RunExtractor.company_name r = None
             /\ exists n url, w n url = OtherException message)
       (fst (RunExtractor.process w html_parser domains s)).
Proof.
intros w html_parser. induction domains as [|domain rest IH]; intros s.
- cbn. split; [reflexivity|]. split; [lia | constructor].
- cbn [RunExtractor.process].
  assert (Hsl := extractor_sleeps w html_parser domain s).
  destruct (CompanyNameExtractor.extract_company_name w html_parser domain s)
    as [[result|message] s1] eqn:Ex; cbn [snd] in Hsl.
  + assert (Hx : fst (CompanyNameExtractor.extract_company_name w html_parser domain s)
                 = Returned result) by now rewrite Ex.
    destruct (extractor_result_fields _ _ _ _ _ Hx) as [Hd Hst].
    destruct (IH (match rest with [] => s1 | _ :: _ => sleep s1 end))
      as (IHd & IHsl & IHst).
    destruct (RunExtractor.process w html_parser rest _) as [results s3].
    cbn [fst snd] in *. split; [|split].
    * cbn [map RunExtractor.of_result RunExtractor.domain]. now rewrite Hd, IHd.
    * destruct rest as [|d2 rest].
      -- destruct results; [|discriminate IHd]. cbn [pauses]. lia.
      -- rewrite pauses_cons by (intros ->; discriminate IHd).
         cbn [RunExtractor.of_result RunExtractor.error_text sleep sleeps] in *. lia.
    * constructor; [|exact IHst]. split; [exact Hst|].
      intros message Hm. discriminate Hm.
  + assert (Hx : fst (CompanyNameExtractor.extract_company_name w html_parser domain s)
                 = Raised message) by now rewrite Ex.
    apply extractor_raised in Hx.
    destruct (IH s1) as (IHd & IHsl & IHst).
    destruct (RunExtractor.process w html_parser rest s1) as [results s3].
    cbn [fst snd] in *. split; [|split].
    * cbn [map RunExtractor.domain]. now rewrite IHd.
    * destruct results as [|r2 results]; [cbn [pauses]; lia|].
      rewrite pauses_cons by discriminate. cbn [RunExtractor.error_text]. lia.
    * constructor; [|exact IHst]. split; [right; reflexivity|].
      intros m Hm. cbn [RunExtractor.error_text] in Hm. injection Hm as <-.
      repeat split. exact Hx.
Qed.


(** X18.  The three counts of the summary of extract_from_domains
    (names found, names not found, errors) add up to the number of
    domains: every result falls under exactly one of them. *)
Theorem summary_counts_add_up :
  forall (w : web) (html_parser : str -> Soup.soup) (domains : list str) (s : io),
    let results := fst (RunExtractor.process w html_parser domains s) in
    RunExtractor.success_count results + RunExtractor.not_found_count results
    + RunExtractor.error_count results
    = List.length domains.
Proof.
intros w html_parser domains s. cbv zeta.
destruct (process_results w html_parser domains s) as (Hd & _ & Hst).
revert Hd Hst. generalize (fst (RunExtractor.process w html_parser domains s)).
intros results Hd Hst. rewrite <- Hd, length_map. clear Hd.
induction Hst as [|r results [Hr _] _ IH]; [reflexivity|].
unfold RunExtractor.success_count, RunExtractor.not_found_count,
  RunExtractor.error_count in *.
cbn [filter List.length].
destruct Hr as [Hr|Hr]; rewrite Hr;
  [destruct (truthy (RunExtractor.company_name r))|];
  cbn [negb List.length]; lia.
Qed.

(** ** policy_scraper_simple.py *)

Lemma fold_append_in : forall (f : str -> str) paths urls u,
  In u (fold_left (fun policy_urls path =>
          if existsb (str_eqb (f path)) policy_urls then policy_urls
          else policy_urls ++ [f path]) paths urls)
  <-> In u urls \/ In u (map f paths).
Proof.
intros f. induction paths as [|path paths IH]; intros urls u; cbn [fold_left map In].
- tauto.
- rewrite IH. destruct (existsb (str_eqb (f path)) urls) eqn:E.
  + apply existsb_str_eqb in E. split; [tauto|].
    intros [H|[H|H]]; [tauto | subst u; tauto | tauto].
  + rewrite in_app_iff. cbn [In]. tauto.
Qed.

(** X19.  For a base URL and a homepage that are not empty,
    find_policy_urls of policy_scraper_simple.py lists exactly the
    absolute forms of the links whose text holds one of the keywords and
    the eleven common paths appended to the base URL. *)
Theorem scraper_policy_urls_membership :
  forall (links : str -> list (str * str)) (b : N) (base : str) (c : N)
         (content : str) (u : str),
    In u (PolicyScraperSimple.find_policy_urls links (b :: base) (Some (c :: content)))
    <-> (exists href text,
            In (href, text) (links (c :: content))
            /\ existsb (fun keyword => contains keyword (lower text))
                 PolicyScraperSimple.keywords = true
            /\ u = PolicyScraperSimple.absolute (b :: base) href)
        \/ (exists path,
               In path PolicyScraperSimple.policy_paths
               /\ u = PolicyScraperSimple.at_base (b :: base) path).
Proof.
intros links b base c content u. unfold PolicyScraperSimple.find_policy_urls.
cbv zeta. rewrite (fold_append_in (PolicyScraperSimple.at_base (b :: base))).
rewrite in_flat_map, in_map_iff. split.
- intros [([href text] & Hin & Hu)|(path & Hu & Hin)].
  + left. exists href, text.
    destruct (existsb (fun keyword => contains keyword (lower text))
                PolicyScraperSimple.keywords); [|destruct Hu].
    destruct Hu as [<-|[]]. auto.
  + right. exists path. auto.
- intros [(href & text & Hin & Hk & ->)|(path & Hin & ->)].
  + left. exists (href, text). split; [exact Hin|]. rewrite Hk. now left.
  + right. exists path. auto.
Qed.

Lemma scraper_policy_urls_nonempty : forall links b base c content,
  PolicyScraperSimple.find_policy_urls links (b :: base) (Some (c :: content)) <> [].
Proof.
intros links b base c content H.
assert (Hin : In (PolicyScraperSimple.at_base (b :: base) (lit "/privacy"))
                 (PolicyScraperSimple.find_policy_urls links (b :: base)
                    (Some (c :: content)))).
{ unfold PolicyScraperSimple.find_policy_urls. cbv zeta.
  apply (fold_append_in (PolicyScraperSimple.at_base (b :: base))). right.
  apply in_map. left. reflexivity. }
rewrite H in Hin. destruct Hin.
Qed.

Lemma scraper_fetch_url_some : forall w url s text s1,
  PolicyScraperSimple.fetch_url w url s = (Some text, s1) ->
  exists n, w n url = Response 200 text.
Proof.
intros w url s text s1 H. unfold PolicyScraperSimple.fetch_url in H. cbn [get] in H.
destruct (w (List.length (requests s)) url) as [code body| | | |message] eqn:Ew;
  try discriminate H.
destruct (code =? 200)%Z eqn:E200; [|discriminate H].
apply Z.eqb_eq in E200. subst code. inversion H; subst. eauto.
Qed.

Lemma first_reachable_some : forall w urls s url,
  fst (PolicyScraperSimple.first_reachable w urls s) = Some url -> In url urls.
Proof.
intros w. induction urls as [|u urls IH]; intros s url H; [discriminate H|].
cbn [PolicyScraperSimple.first_reachable] in H.
destruct (PolicyScraperSimple.fetch_url w u s) as [content s1].
destruct (truthy content).
- cbn [fst] in H. inversion H; subst. now left.
- right. eapply IH. exact H.
Qed.

Lemma scraper_candidates : forall text c,
  In c (PolicyScraperSimple.candidates_of text) ->
  substring c text /\ 3 <= List.length c /\ any_alpha c = true.
Proof.
intros text c Hc. unfold PolicyScraperSimple.candidates_of in Hc.
apply in_flat_map in Hc. destruct Hc as (pattern & _ & Hc).
apply in_flat_map in Hc. destruct Hc as (m & _ & Hc).
destruct (group1 text m) as [g|] eqn:Eg; [|destruct Hc].
destruct ((3 <=? List.length (strip g)) && any_alpha (strip g)) eqn:Ev; [|destruct Hc].
destruct Hc as [<-|[]]. apply andb_prop in Ev. destruct Ev as [Hl Ha].
apply Nat.leb_le in Hl. repeat split; try assumption.
eapply substring_trans; [apply strip_substring | eapply group1_substring; eassumption].
Qed.

Lemma scraper_extract_in : forall text name,
  PolicyScraperSimple.extract_company_name text = Some name ->
  In name (PolicyScraperSimple.candidates_of text).
Proof.
intros [|c t] name H; [discriminate H|].
unfold PolicyScraperSimple.extract_company_name in H.
destruct (PolicyScraperSimple.candidates_of (c :: t)) as [|c0 cs] eqn:Ec;
  [discriminate H|].
rewrite pick_best in H. now apply best_of_in.
Qed.

Lemma scraper_check_policy_urls_some : forall w html_parser urls s name,
  fst (PolicyScraperSimple.check_policy_urls w html_parser urls s) = Some name ->
  exists url n page,
    In url urls /\ w n url = Response 200 page /\ page <> []
    /\ PolicyScraperSimple.extract_company_name
         (PolicyScraperSimple.extract_text_from_html html_parser (Some page))
       = Some name.
Proof.
intros w html_parser. induction urls as [|url rest IH]; intros s name H;
  [discriminate H|].
cbn [PolicyScraperSimple.check_policy_urls] in H.
assert (Hgo : forall s1,
          fst (PolicyScraperSimple.check_policy_urls w html_parser rest s1) = Some name ->
          exists u n page,
            In u (url :: rest) /\ w n u = Response 200 page /\ page <> []
            /\ PolicyScraperSimple.extract_company_name
                 (PolicyScraperSimple.extract_text_from_html html_parser (Some page))
               = Some name).
{ intros s1 H1. apply IH in H1. destruct H1 as (u & n & page & Hin & Hrest).
  exists u, n, page. split; [now right | exact Hrest]. }
destruct (PolicyScraperSimple.fetch_url w url s) as [content s1] eqn:Ef.
destruct (truthy content) eqn:Et; [|exact (Hgo _ H)].
apply truthy_nonempty in Et. destruct Et as (c & t & ->).
remember (PolicyScraperSimple.extract_company_name
            (PolicyScraperSimple.extract_text_from_html html_parser (Some (c :: t))))
  as found eqn:Efound.
destruct (truthy found); [|exact (Hgo _ H)].
cbn [fst] in H. subst found.
apply scraper_fetch_url_some in Ef. destruct Ef as [n Hn].
exists url, n, (c :: t). split; [now left|]. split; [exact Hn|].
split; [discriminate | now symmetry].
Qed.

Lemma scraper_homepage_urls_nonempty : forall domain u,
  In u (PolicyScraperSimple.homepage_urls domain) -> exists b base, u = b :: base.
Proof.
intros domain u Hu. unfold PolicyScraperSimple.homepage_urls in Hu.
destruct (negb (startswith (lit "www.") domain)); cbn [app In] in Hu;
  intuition (subst u; eexists; eexists; reflexivity).
Qed.

(** X20.  A company name returned by scrape_domain of
    policy_scraper_simple.py was read from the text of a page that a
    policy URL served with status 200, and the policy URL is one of those
    found for a homepage that the web served, with status 200 and a body
    that is not empty, on one of the candidate URLs of the domain; the
    name occurs in the text of the policy page character for character and
    has at least 3 characters, one of them a letter. *)
Theorem scraper_names_come_from_policy_pages :
  forall (w : web) (html_parser : str -> Soup.soup) (links : str -> list (str * str))
         (domain : str) (s : io) (name : str),
    PolicyScraperSimple.company_name
      (fst (PolicyScraperSimple.scrape_domain w html_parser links domain s))
    = Some name ->
    exists base_url homepage url n page,
      In base_url (PolicyScraperSimple.homepage_urls domain)
      /\ (exists m, w m base_url = Response 200 homepage)
      /\ homepage <> []
      /\ In url (PolicyScraperSimple.find_policy_urls links base_url (Some homepage))
      /\ w n url = Response 200 page
      /\ substring name
           (PolicyScraperSimple.extract_text_from_html html_parser (Some page))
      /\ 3 <= List.length name /\ any_alpha name = true.
Proof.
intros w html_parser links domain s name H.
unfold PolicyScraperSimple.scrape_domain in H.
destruct (PolicyScraperSimple.get_base_url w domain s) as [base_url s1] eqn:Eb.
destruct base_url as [base_url|]; [|discriminate H].
assert (Hbase : In base_url (PolicyScraperSimple.homepage_urls domain)).
{ apply (first_reachable_some w _ s). unfold PolicyScraperSimple.get_base_url in Eb.
  now rewrite Eb. }
destruct (scraper_homepage_urls_nonempty _ _ Hbase) as (b & base & ->).
destruct (PolicyScraperSimple.fetch_url w (b :: base) s1) as [homepage_content s2]
  eqn:Eh.
destruct homepage_content as [homepage|]; [|discriminate H].
destruct homepage as [|c content]; [discriminate H|].
apply scraper_fetch_url_some in Eh.
match type of H with
| context [PolicyScraperSimple.find_policy_urls ?l ?x ?y] =>
  destruct (PolicyScraperSimple.find_policy_urls l x y) as [|u us] eqn:Efp
end; [now apply scraper_policy_urls_nonempty in Efp|].
destruct (PolicyScraperSimple.check_policy_urls w html_parser (u :: us) s2)
  as [found s3] eqn:Ec.
cbn [fst PolicyScraperSimple.company_name] in H. subst found.
assert (Hc : fst (PolicyScraperSimple.check_policy_urls w html_parser (u :: us) s2)
             = Some name) by now rewrite Ec.
apply scraper_check_policy_urls_some in Hc.
destruct Hc as (url & n & page & Hin & Hw & _ & Hname).
apply scraper_extract_in, scraper_candidates in Hname.
destruct Hname as (Hsub & Hlen & Halpha).
exists (b :: base), (c :: content), url, n, page. rewrite Efp.
split; [exact Hbase|]. split; [exact Eh|]. split; [discriminate|]. auto 8.
Qed.

(** The homepage <p>Welcome</p> and the policy page
    <p>This site is operated by Acme Widgets Ltd</p>. *)
Lemma scraper_names_come_from_policy_pages_witness :
  exists base_url homepage url n page,
    In base_url (PolicyScraperSimple.homepage_urls (lit "example.com"))
    /\ (exists m,
          policy_site (lit "<p>Welcome</p>")
            (lit "<p>This site is operated by Acme Widgets Ltd</p>") m base_url
          = Response 200 homepage)
    /\ homepage <> []
    /\ In url (PolicyScraperSimple.find_policy_urls (fun _ => []) base_url
                 (Some homepage))
    /\ policy_site (lit "<p>Welcome</p>")
         (lit "<p>This site is operated by Acme Widgets Ltd</p>") n url
       = Response 200 page
    /\ substring (lit "This site is operated by Acme Widgets Ltd")
         (PolicyScraperSimple.extract_text_from_html Soup.html_parser (Some page))
    /\ 3 <= List.length (lit "This site is operated by Acme Widgets Ltd")
    /\ any_alpha (lit "This site is operated by Acme Widgets Ltd") = true.
Proof.
apply (scraper_names_come_from_policy_pages
         (policy_site (lit "<p>Welcome</p>")
            (lit "<p>This site is operated by Acme Widgets Ltd</p>"))
         Soup.html_parser (fun _ => []) (lit "example.com") io0
         (lit "This site is operated by Acme Widgets Ltd")).
vm_compute. reflexivity.
Defined.

(** ** The lines of a scraped text *)

Lemma contains_iff : forall p s, contains p s = true <-> substring p s.
Proof.
intros p s. split.
- induction s as [|c s IH]; cbn [contains]; intros H; apply orb_true_iff in H;
    destruct H as [H|H]; try discriminate H.
  + apply startswith_iff in H. destruct H as [q Hq]. now exists [], q.
  + apply startswith_iff in H. destruct H as [q Hq]. now exists [], q.
  + destruct (IH H) as (pre & post & ->). now exists (c :: pre), post.
- intros (pre & post & ->). induction pre as [|c pre IH].
  + cbn [app]. assert (Hs : startswith p (p ++ post) = true)
      by (apply startswith_iff; now exists post).
    destruct (p ++ post); cbn [contains]; now rewrite Hs.
  + cbn [app contains]. rewrite IH. apply orb_true_r.
Qed.

Lemma not_contained_substring : forall p a b,
  substring a b -> contains p b = false -> contains p a = false.
Proof.
intros p a b Hab Hb. destruct (contains p a) eqn:E; [|reflexivity].
apply contains_iff in E. rewrite <- Hb. symmetry. apply contains_iff.
eapply substring_trans; eassumption.
Qed.

Lemma splitlines_no_breaks : forall s,
  Forall (Forall (fun c => PolicyScraperSimple.linebreak c = false))
    (PolicyScraperSimple.splitlines s).
Proof.
intros s. remember (List.length s) as n eqn:Hn. revert s Hn.
induction n as [n IH] using lt_wf_ind. intros [|c s] Hn; [constructor|].
cbn [List.length] in Hn. cbn [PolicyScraperSimple.splitlines].
destruct (PolicyScraperSimple.linebreak c) eqn:Ec.
- destruct s as [|d s2]; [repeat constructor|]. cbn [List.length] in Hn.
  destruct ((c =? 13) && (d =? 10))%N; (constructor; [constructor|]).
  + apply (IH (List.length s2)); [lia | reflexivity].
  + apply (IH (List.length (d :: s2))); [cbn [List.length]; lia | reflexivity].
- assert (Hrec := IH (List.length s) ltac:(lia) s eq_refl).
  destruct (PolicyScraperSimple.splitlines s) as [|line lines].
  + repeat constructor. exact Ec.
  + inversion Hrec; subst. constructor; [|assumption]. now constructor.
Qed.

Lemma split_pieces : forall (Q : N -> Prop) s,
  Forall Q s ->
  exists piece pieces,
    PolicyScraperSimple.split_double_space s = piece :: pieces
    /\ (piece = [] \/ exists c t u, s = c :: u /\ piece = c :: t)
    /\ Forall (fun p => contains (lit "  ") p = false /\ Forall Q p) (piece :: pieces).
Proof.
intros Q s. remember (List.length s) as n eqn:Hn. revert s Hn.
induction n as [n IH] using lt_wf_ind. intros [|c s] Hn HQ.
- exists [], []. split; [reflexivity|]. split; [now left|]. repeat constructor.
- cbn [List.length] in Hn. apply Forall_cons_iff in HQ. destruct HQ as [Hc Hs].
  cbn [PolicyScraperSimple.split_double_space]. destruct s as [|d s2].
  + exists [c], []. split; [reflexivity|]. split; [right; now exists c, [], []|].
    constructor; [|constructor]. split; [|now constructor].
    change (lit "  ") with [32%N; 32%N]. cbn [contains startswith].
    now rewrite andb_false_r.
  + cbn [List.length] in Hn. destruct ((c =? 32) && (d =? 32))%N eqn:E.
    * apply Forall_cons_iff in Hs. destruct Hs as [_ Hs2].
      destruct (IH (List.length s2) ltac:(lia) s2 eq_refl Hs2)
        as (piece & pieces & -> & _ & Hall).
      exists [], (piece :: pieces). split; [reflexivity|]. split; [now left|].
      constructor; [|exact Hall]. split; [reflexivity | constructor].
    * destruct (IH (List.length (d :: s2)) ltac:(cbn [List.length]; lia) (d :: s2)
                  eq_refl Hs) as (piece & pieces & -> & Hhead & Hall).
      exists (c :: piece), pieces. split; [reflexivity|].
      split; [right; now exists c, piece, (d :: s2)|].
      apply Forall_cons_iff in Hall. destruct Hall as [[Hp HpQ] Hrest].
      constructor; [|exact Hrest].
      split; [|now constructor].
      change (lit "  ") with [32%N; 32%N] in *. cbn [contains startswith].
      rewrite Hp, orb_false_r.
      destruct Hhead as [->|(c' & t & u & Hu & ->)].
      -- now rewrite andb_false_r.
      -- injection Hu as Hd _. subst c'. rewrite andb_true_r.
         rewrite (N.eqb_sym 32 c), (N.eqb_sym 32 d). exact E.
Qed.

(** X21.  The text extract_text_from_html of policy_scraper_simple.py
    returns consists of lines joined by a line feed, each of them not
    empty, without white space at either end, without two spaces in a row
    and without a line boundary character inside. *)
Theorem scraped_text_lines :
  forall (html_parser : str -> Soup.soup) (html : option str),
    exists chunks,
      PolicyScraperSimple.extract_text_from_html html_parser html
      = join [10%N] chunks
      /\ Forall clean_line chunks.
Proof.
intros html_parser html. unfold PolicyScraperSimple.extract_text_from_html.
destruct html as [[|h html]|]; try (exists []; split; [reflexivity | constructor]).
cbv zeta. eexists. split; [reflexivity|].
generalize (splitlines_no_breaks
              (Soup.get_text []
                 (Soup.decompose_all (map lit ["script"; "style"]%string)
                    (html_parser (h :: html))))).
generalize (PolicyScraperSimple.splitlines
              (Soup.get_text []
                 (Soup.decompose_all (map lit ["script"; "style"]%string)
                    (html_parser (h :: html))))).
intros lines Hlines. apply Forall_forall. intros chunk Hchunk.
apply filter_In in Hchunk. destruct Hchunk as [Hchunk Hne].
apply in_flat_map in Hchunk. destruct Hchunk as (line & Hline & Hchunk).
apply in_map_iff in Hchunk. destruct Hchunk as (piece & <- & Hpiece).
apply in_map_iff in Hline. destruct Hline as (line0 & <- & Hline0).
assert (H0 : Forall (fun c => PolicyScraperSimple.linebreak c = false) (strip line0)).
{ apply (substring_forall _ _ _ (strip_substring line0)).
  rewrite Forall_forall in Hlines. now apply Hlines. }
destruct (split_pieces _ _ H0) as (p & ps & Esplit & _ & Hall).
rewrite Esplit in Hpiece. rewrite Forall_forall in Hall.
destruct (Hall _ Hpiece) as [Hdouble Hbreaks].
unfold clean_line. split; [|split; [|split]].
- intros E. rewrite E in Hne. discriminate Hne.
- apply strip_idempotent.
- exact (not_contained_substring _ _ _ (strip_substring piece) Hdouble).
- exact (substring_forall _ _ _ (strip_substring piece) Hbreaks).
Qed.

(** ** Returned names are built from the counting key *)

Lemma normalize_no_upper : forall name,
  Forall (fun c => is_ascii_upper c = false)
    (CompanyNameExtractor._normalize_company_name name).
Proof.
intros [|c x]; [constructor|]. rewrite normalize_steps.
apply squeeze_forall; [reflexivity|].
apply (sub_forall _ _ (matches_chr punctuation)); [constructor|].
apply (substring_forall _ _ _ (strip_suffixes_substring _ _)).
apply lower_no_upper.
Qed.

Lemma remove_phrases_forall : forall (Q : N -> Prop) phrases s,
  Forall (fun phrase => phrase <> []) phrases ->
  Forall Q s -> Forall Q (remove_phrases phrases s).
Proof.
intros Q. induction phrases as [|phrase phrases IH]; intros s Hall Hs; [exact Hs|].
inversion Hall as [|? ? Hne Hrest]; subst. cbn [remove_phrases fold_left].
apply IH; [exact Hrest|].
apply (sub_forall _ _ (matches_lit _ Hne)); [constructor | exact Hs].
Qed.

Lemma cleanup_phrases_nonempty :
  Forall (fun phrase => phrase <> []) CompanyNameExtractor.cleanup_phrases.
Proof.
apply Forall_forall. intros phrase Hin Hnil. subst phrase. revert Hin.
vm_compute. intuition discriminate.
Qed.

Lemma rstrip_substring : forall p s, substring (rstrip_by p s) s.
Proof. intros p s. destruct (rstrip_prefix p s) as [t Ht]. now exists [], t. Qed.

Lemma clean_forall : forall (Q : N -> Prop) x y,
  Q 32%N -> Forall Q x ->
  CompanyNameExtractor._clean_company_name (Some x) = Some y -> Forall Q y.
Proof.
intros Q [|c x] y Hsp Hx H; [discriminate H|]. rewrite clean_steps in H.
apply some_inj in H. subst y. apply squeeze_forall; [exact Hsp|].
apply (substring_forall Q _ _ (rstrip_substring _ _)).
apply remove_phrases_forall; [apply cleanup_phrases_nonempty|].
apply squeeze_forall; [exact Hsp|].
apply (sub_forall _ _ matches_tag); [constructor | exact Hx].
Qed.

Lemma from_text_key : forall text name,
  CompanyNameExtractor.extract_company_name_from_text text = Some name ->
  exists candidate,
    In candidate (CompanyNameExtractor.candidates_of text)
    /\ CompanyNameExtractor._clean_company_name
         (Some (CompanyNameExtractor._normalize_company_name candidate))
       = Some name.
Proof.
intros [|c t] name H; [discriminate H|].
unfold CompanyNameExtractor.extract_company_name_from_text in H.
destruct (CompanyNameExtractor.candidates_of (c :: t)) as [|c0 cs] eqn:Ec;
  [discriminate H|].
destruct (CompanyNameExtractor.sorted_desc _) as [|[best n] r] eqn:Es;
  [discriminate H|].
assert (Hbest : best_of (map CompanyNameExtractor._normalize_company_name (c0 :: cs))
                = Some best).
{ unfold best_of. now rewrite Es. }
apply best_of_in, in_map_iff in Hbest. destruct Hbest as (candidate & <- & Hin).
exists candidate. split; [exact Hin | exact H].
Qed.

(** X22.  A company name returned by the extractor of
    company_name_extractor.py holds no ASCII capital letter: it is the
    cleaned form of the lower-case key under which the candidates were
    counted, not of a candidate as it stands in the page. *)
Theorem extractor_names_are_lower_case :
  forall (w : web) (html_parser : str -> Soup.soup) (domain : str) (s : io)
         (r : CompanyNameExtractor.result) (name : str),
    fst (CompanyNameExtractor.extract_company_name w html_parser domain s)
    = Returned r ->
    CompanyNameExtractor.company_name r = Some name ->
    Forall (fun c => is_ascii_upper c = false) name
    /\ exists text candidate,
         In candidate (CompanyNameExtractor.candidates_of text)
         /\ CompanyNameExtractor._clean_company_name
              (Some (CompanyNameExtractor._normalize_company_name candidate))
            = Some name.
Proof.
intros w html_parser domain s r name H Hname.
destruct (extractor_name_source _ _ _ _ _ _ H Hname) as (_ & text & Ht).
destruct (from_text_key _ _ Ht) as (candidate & Hin & Hclean).
split; [|exists text, candidate; split; assumption].
apply (clean_forall _ _ _ eq_refl (normalize_no_upper candidate) Hclean).
Qed.

(** The page "(c) 2023 Acme Widgets Ltd. All rights reserved." on
    https://example.com. *)
Lemma extractor_names_are_lower_case_witness :
  Forall (fun c => is_ascii_upper c = false) (lit "acme widgets")
  /\ exists text candidate,
       In candidate (CompanyNameExtractor.candidates_of text)
       /\ CompanyNameExtractor._clean_company_name
            (Some (CompanyNameExtractor._normalize_company_name candidate))
          = Some (lit "acme widgets").
Proof.
apply (extractor_names_are_lower_case
         (serving ([169%N] ++ lit " 2023 Acme Widgets Ltd. All rights reserved."))
         Soup.html_parser (lit "example.com") io0
         (CompanyNameExtractor.Result (lit "example.com") analyzed
            (Some (lit "acme widgets")))
         (lit "acme widgets")).
- vm_compute. reflexivity.
- reflexivity.
Defined.

(** ** The homepage candidates are pairwise distinct *)

Lemma nodup_by_length : forall urls : list str,
  NoDup (map (@List.length N) urls) -> NoDup urls.
Proof. intros urls H. eapply NoDup_map_inv. exact H. Qed.

Lemma nodup_firstn : forall k (urls : list str), NoDup urls -> NoDup (firstn k urls).
Proof.
intros k urls H. rewrite <- (firstn_skipn k urls) in H.
now apply NoDup_app_remove_r in H.
Qed.

Lemma replace_from_length : forall fuel old s,
  List.length (replace_from fuel old [] s) <= List.length s.
Proof.
induction fuel as [|fuel IH]; intros old s; [cbn; lia|].
destruct s as [|c s]; [cbn; lia|]. cbn [replace_from].
destruct (startswith old (c :: s)).
- cbn [app]. specialize (IH old (skipn (List.length old) (c :: s))).
  rewrite length_skipn in IH. lia.
- cbn [List.length]. specialize (IH old s). lia.
Qed.

Lemma replace_www_shorter : forall domain,
  startswith (lit "www.") domain = true ->
  List.length (replace (lit "www.") [] domain) + 4 <= List.length domain.
Proof.
intros domain H.
assert (H4 : 4 <= List.length domain).
{ apply startswith_iff in H. destruct H as [q ->]. rewrite length_app.
  change (List.length (lit "www.")) with 4. lia. }
unfold replace. destruct domain as [|c d]; [discriminate H|].
cbn [List.length replace_from] in *. rewrite H. cbn [app].
assert (Hle := replace_from_length (List.length d) (lit "www.")
                 (skipn (List.length (lit "www.")) (c :: d))).
rewrite length_skipn in Hle. cbn [List.length] in Hle.
change (List.length (lit "www.")) with 4 in *. lia.
Qed.

Lemma domain_homepage_urls_nodup : forall domain,
  NoDup (DomainAnalyzer.homepage_urls domain).
Proof.
intros domain. apply nodup_by_length. unfold DomainAnalyzer.homepage_urls.
destruct (negb (startswith (lit "www.") domain));
  cbn [app map]; rewrite !length_app;
  change (List.length (lit "https://")) with 8;
  change (List.length (lit "http://")) with 7;
  try change (List.length (lit "https://www.")) with 12;
  try change (List.length (lit "http://www.")) with 11;
  repeat (constructor; [cbn [In]; lia|]); constructor.
Qed.

Lemma improved_homepage_urls_nodup : forall domain,
  NoDup (ImprovedAnalyzer.homepage_urls domain).
Proof.
intros domain. apply nodup_by_length. unfold ImprovedAnalyzer.homepage_urls.
destruct (startswith (lit "www.") domain) eqn:E.
- apply replace_www_shorter in E.
  cbn [negb app map]. rewrite !length_app.
  change (List.length (lit "https://")) with 8.
  change (List.length (lit "http://")) with 7.
  repeat (constructor; [cbn [In]; lia|]). constructor.
- cbn [negb app map]. rewrite !length_app.
  change (List.length (lit "https://")) with 8.
  change (List.length (lit "http://")) with 7.
  change (List.length (lit "https://www.")) with 12.
  change (List.length (lit "http://www.")) with 11.
  repeat (constructor; [cbn [In]; lia|]). constructor.
Qed.

(** X23.  fetch_homepage of domain_analyzer.py and of improved_analyzer.py
    never requests the same URL twice: the candidate URLs of a domain are
    pairwise distinct, and each is tried at most once. *)
Theorem homepage_is_never_requested_twice :
  forall (w : web) (domain : str) (s : io),
    (exists new,
        requests (snd (DomainAnalyzer.fetch_homepage w domain s)) = requests s ++ new
        /\ NoDup new)
    /\ (exists new,
           requests (snd (ImprovedAnalyzer.fetch_homepage w domain s))
           = requests s ++ new
           /\ NoDup new).
Proof.
intros w domain s. split.
- unfold DomainAnalyzer.fetch_homepage.
  destruct (domain_try_urls_requests w (DomainAnalyzer.homepage_urls domain) s)
    as (k & _ & Hs & _).
  rewrite Hs. cbn [requests]. eexists. split; [reflexivity|].
  apply nodup_firstn, domain_homepage_urls_nodup.
- unfold ImprovedAnalyzer.fetch_homepage.
  destruct (improved_try_urls_requests w (ImprovedAnalyzer.homepage_urls domain) s)
    as (k & _ & Hs & _).
  rewrite Hs. cbn [requests]. eexists. split; [reflexivity|].
  apply nodup_firstn, improved_homepage_urls_nodup.
Qed.

(** ** The three URL resolvers *)

Lemma endswith_slash : forall s,
  endswith (lit "/") s = true -> s = drop_last 1 s ++ [47%N].
Proof.
intros s H. unfold endswith in H. change (rev (lit "/")) with [47%N] in H.
apply startswith_iff in H. destruct H as [q Hq].
assert (Hs : s = rev q ++ [47%N]).
{ rewrite <- (rev_involutive s), Hq. reflexivity. }
clear Hq. subst s. unfold drop_last. rewrite length_app.
cbn [List.length]. replace (List.length (rev q) + 1 - 1) with (List.length (rev q) + 0)
  by lia.
rewrite firstn_app_2. cbn [firstn]. now rewrite app_nil_r.
Qed.

Lemma root_relative_not_absolute : forall href,
  startswith (lit "/") href = true -> absolute_url href = false.
Proof.
intros [|c href] H; [discriminate H|]. change (lit "/") with [47%N] in H.
cbn [startswith] in H. apply andb_prop in H. destruct H as [H _].
apply N.eqb_eq in H. subst c. reflexivity.
Qed.

(** X24.  The URL resolvers of the three modules agree: on absolute and
    on root-relative links always, on other relative links when the base
    URL has neither a query nor a fragment.  (The resolvers of
    improved_analyzer.py and policy_scraper_simple.py are the same
    function.) *)
Theorem url_resolvers_agree :
  forall base_url href : str,
    startswith (lit "/") href = true \/ absolute_url href = true
    \/ before 63 (before 35 base_url) = base_url ->
    ImprovedAnalyzer.absolute base_url href
    = CompanyNameExtractor.normalize_url base_url href
    /\ PolicyScraperSimple.absolute base_url href
       = ImprovedAnalyzer.absolute base_url href.
Proof.
intros base_url href H. split; [|reflexivity].
unfold ImprovedAnalyzer.absolute, CompanyNameExtractor.normalize_url. cbv zeta.
fold (absolute_url href).
destruct (startswith (lit "/") href) eqn:Es.
- rewrite (root_relative_not_absolute _ Es).
  destruct (endswith (lit "/") (before 63 (before 35 base_url))) eqn:Ee; [|reflexivity].
  apply endswith_slash in Ee. rewrite Ee at 1.
  destruct href as [|c h]; [discriminate Es|]. change (lit "/") with [47%N] in Es.
  cbn [startswith] in Es. apply andb_prop in Es. destruct Es as [Ec _].
  apply N.eqb_eq in Ec. subst c. cbn [skipn]. rewrite <- app_assoc. reflexivity.
- destruct (absolute_url href) eqn:Ea; cbn [negb]; [reflexivity|].
  destruct H as [H|[H|H]]; try discriminate H. rewrite H.
  destruct (endswith (lit "/") base_url); cbn [negb];
    [reflexivity | now rewrite <- app_assoc].
Qed.

Lemma url_resolvers_agree_witness :
  ImprovedAnalyzer.absolute (lit "https://example.com/?lang=en") (lit "/contact")
  = CompanyNameExtractor.normalize_url (lit "https://example.com/?lang=en")
      (lit "/contact")
  /\ PolicyScraperSimple.absolute (lit "https://example.com/?lang=en") (lit "/contact")
     = ImprovedAnalyzer.absolute (lit "https://example.com/?lang=en") (lit "/contact").
Proof.
apply (url_resolvers_agree (lit "https://example.com/?lang=en") (lit "/contact")).
left. reflexivity.
Defined.

(** X25.  In scrape_domain of policy_scraper_simple.py the branch taken
    when find_policy_urls returns no URL looks for a name in the
    homepage, and finds none: with a base URL that is not empty the list
    of policy URLs is empty only when there is no homepage content, and
    then there is no text to search. *)
Theorem scraper_fallback_finds_nothing :
  forall (html_parser : str -> Soup.soup) (links : str -> list (str * str))
         (b : N) (base : str) (homepage_content : option str),
    PolicyScraperSimple.find_policy_urls links (b :: base) homepage_content = [] ->
    truthy homepage_content = false
    /\ PolicyScraperSimple.extract_company_name
         (PolicyScraperSimple.extract_text_from_html html_parser homepage_content)
       = None.
Proof.
intros html_parser links b base homepage_content H.
destruct homepage_content as [[|c content]|]; try (split; reflexivity).
now apply scraper_policy_urls_nonempty in H.
Qed.

Lemma scraper_fallback_finds_nothing_witness :
  truthy None = false
  /\ PolicyScraperSimple.extract_company_name
       (PolicyScraperSimple.extract_text_from_html Soup.html_parser None)
     = None.
Proof.
apply (scraper_fallback_finds_nothing Soup.html_parser (fun _ => [])
         104%N (lit "ttps://example.com") None).
reflexivity.
Defined.
